(** * Permit comments parser (ftworth/extract_comments.ts): shallow embedding

    The TypeScript parser turns the plain text of a Fort Worth
    "Conditions/Comments" report into a [PermitComments] record and
    flattens records into CSV rows.  It is written almost entirely with
    JavaScript regular expressions, so the development has these layers:

    - [JsString]: strings as sequences of UTF-16 code units, white space,
      [trim], [split], [join], ...;
    - [Regex]: the abstract syntax of the patterns, a reader that takes the
      pattern text of the source, a backtracking matcher that follows the
      ECMAScript matching rules (priority of alternatives, greedy and lazy
      repetition, captures, look-ahead, the [i], [m], [s] and [g] flags),
      and the relation [matches] it explores;
    - [JsNumber]: numbers as binary64 values, [parseFloat], [parseInt],
      [Math.round];
    - [Parse]: the functions of the source, one definition per function,
      in an outcome monad that records a raised [TypeError] and a loop
      that does not stop;
    - [Spec]: the vocabulary in which the properties are stated.

    The second half proves facts about the matcher ([RegexFacts],
    [Priority]), that the parser always returns ([ParseFacts]), and the
    properties themselves.  A last part proves further properties of
    the program: the shapes of the fields of a record, what [cleanText],
    [parseNumber], [parseFeet] and [parsePercent] read, where a section
    starts and ends, that the CSV text reads back, and what the file
    loop of [main] counts. *)

From Stdlib Require Import List String Ascii Bool NArith ZArith PeanoNat Lia Sorted.
From Stdlib Require Import Floats DecimalString.
Import ListNotations.

Set Implicit Arguments.
Set Warnings "-inexact-float".

(* ================================================================== *)
(** * JavaScript strings *)
(* ================================================================== *)

Module JsString.

(** A JavaScript string is a sequence of UTF-16 code units. *)
Abbreviation char := N (only parsing).
Abbreviation jstring := (list N) (only parsing).

Local Open Scope N_scope.

(** ASCII text of the development as a JavaScript string. *)
Definition str (s : string) : jstring :=
  List.map N_of_ascii (list_ascii_of_string s).

Definition ch (a : ascii) : char := N_of_ascii a.

Definition NL : char := 10%N.
Definition DQ : char := 34%N.

Definition char_eqb (a b : char) : bool := N.eqb a b.

Fixpoint jeqb (a b : jstring) : bool :=
  match a, b with
  | [], [] => true
  | x :: a', y :: b' => char_eqb x y && jeqb a' b'
  | _, _ => false
  end.

Definition in_range (lo hi c : char) : bool := (N.leb lo c && N.leb c hi)%bool.

Definition is_digit (c : char) : bool := in_range 48 57 c.
Definition is_upper (c : char) : bool := in_range 65 90 c.
Definition is_lower (c : char) : bool := in_range 97 122 c.

(** LineTerminator: LF, CR, LS, PS. *)
Definition is_line_terminator (c : char) : bool :=
  (N.eqb c 10 || N.eqb c 13 || N.eqb c 8232 || N.eqb c 8233)%bool.

(** WhiteSpace and LineTerminator, the set of [\s] and of [trim]. *)
Definition is_space (c : char) : bool :=
  (in_range 9 13 c || N.eqb c 32 || N.eqb c 160 || N.eqb c 5760
   || in_range 8192 8202 c || N.eqb c 8232 || N.eqb c 8233
   || N.eqb c 8239 || N.eqb c 8287 || N.eqb c 12288 || N.eqb c 65279)%bool.

(** Case mapping.  The patterns and the literals of the parser contain
    cased characters in the ASCII range only; their other characters
    (one half, en dash, em dash) have no case.  On such patterns the
    ECMAScript [Canonicalize] (which never maps a code unit above 127
    into the ASCII range) agrees with the ASCII mapping below. *)
Definition to_upper (c : char) : char := if is_lower c then (c - 32)%N else c.
Definition to_lower (c : char) : char := if is_upper c then (c + 32)%N else c.
Definition swap_case (c : char) : char :=
  if is_lower c then (c - 32)%N else if is_upper c then (c + 32)%N else c.

Definition toLowerCase (s : jstring) : jstring := List.map to_lower s.

Fixpoint trimStart (s : jstring) : jstring :=
  match s with
  | c :: s' => if is_space c then trimStart s' else s
  | [] => []
  end.

Definition trimEnd (s : jstring) : jstring := rev (trimStart (rev s)).

Definition trim (s : jstring) : jstring := trimEnd (trimStart s).

Fixpoint starts_with (p s : jstring) : bool :=
  match p, s with
  | [], _ => true
  | a :: p', b :: s' => char_eqb a b && starts_with p' s'
  | _ :: _, [] => false
  end.

(** [s.includes(p)] *)
Fixpoint includes (p s : jstring) : bool :=
  starts_with p s ||
  match s with
  | [] => false
  | _ :: s' => includes p s'
  end.

(** [s.split(sep)] for a one-character separator. *)
Fixpoint split_char (sep : char) (s : jstring) : list jstring :=
  match s with
  | [] => [[]]
  | c :: s' =>
      if char_eqb c sep then [] :: split_char sep s'
      else match split_char sep s' with
           | l :: ls => (c :: l) :: ls
           | [] => [[c]]
           end
  end.

(** [a.join(sep)] *)
Fixpoint join (sep : jstring) (l : list jstring) : jstring :=
  match l with
  | [] => []
  | [a] => a
  | a :: l' => a ++ sep ++ join sep l'
  end.

(** [s.padStart(n, "0")] *)
Definition padStart0 (n : nat) (s : jstring) : jstring :=
  repeat 48 (n - List.length s)%nat ++ s.

(** Lines of a document written as a list, joined with line feeds. *)
Definition text_of_lines (l : list string) : jstring :=
  join [NL] (List.map str l).

End JsString.

Import JsString.

(* ================================================================== *)
(** * Regular expressions *)
(* ================================================================== *)

Module Regex.

(** ** Abstract syntax *)

(** Members of a character class. *)
Inductive citem : Type :=
| CChar (c : char)            (* a single character *)
| CRange (lo hi : char)       (* a-z *)
| CDigit                      (* \d *)
| CSpace                      (* \s *)
| CNonSpace.                  (* \S *)

Inductive regex : Type :=
| Eps                                         (* empty pattern *)
| Chr (c : char)                              (* pattern character *)
| Dot                                         (* . *)
| Cls (neg : bool) (items : list citem)       (* [...] and [^...] *)
| Seq (a b : regex)                           (* ab *)
| Alt (a b : regex)                           (* a|b *)
| Grp (i : nat) (a : regex)                   (* capturing group number i *)
| Rep (mn : nat) (mx : option nat) (greedy : bool) (a : regex)
                                              (* a* a+ a? a{n,m} and lazy forms *)
| Bol                                         (* ^ *)
| Eol                                         (* $ *)
| Look (a : regex).                           (* (?=a) *)

Record flags : Type := Flags {
  f_icase : bool;      (* i *)
  f_multiline : bool;  (* m *)
  f_dotall : bool      (* s *)
}.

(** Capture groups that occur in a pattern. *)
Fixpoint groups (r : regex) : list nat :=
  match r with
  | Seq a b | Alt a b => groups a ++ groups b
  | Grp i a => i :: groups a
  | Rep _ _ _ a | Look a => groups a
  | _ => []
  end.

(** ** Reading a pattern

    The patterns are kept as the text of the source's regular expression
    literals and read by [parse_pattern].  The double quote is written
    [\x22], and the three characters outside ASCII are written as
    escapes: [\u00BD] (one half), [\u2013] and [\u2014] (en and em
    dash); in JavaScript these denote the same patterns. *)

Section Reader.

Local Open Scope char_scope.

Definition digit_val (a : ascii) : option nat :=
  let n := nat_of_ascii a in
  (if (48 <=? n) && (n <=? 57) then Some (n - 48) else None)%nat.

Definition hex_val (a : ascii) : option N :=
  let n := N_of_ascii a in
  (if in_range 48 57 n then Some (n - 48)
   else if in_range 65 70 n then Some (n - 55)
   else if in_range 97 102 n then Some (n - 87)
   else None)%N.

Fixpoint read_hex (k : nat) (s : list ascii) (acc : N) : option (N * list ascii) :=
  match k with
  | 0%nat => Some (acc, s)
  | S k' =>
      match s with
      | a :: s' =>
          match hex_val a with
          | Some v => read_hex k' s' (acc * 16 + v)%N
          | None => None
          end
      | [] => None
      end
  end.

Fixpoint read_nat (s : list ascii) (acc : option nat) : option nat * list ascii :=
  match s with
  | a :: s' =>
      match digit_val a with
      | Some v => read_nat s' (Some (match acc with Some n => 10 * n + v | None => v end)%nat)
      | None => (acc, s)
      end
  | [] => (acc, s)
  end.

(** What follows a backslash, inside or outside a class. *)
Inductive escape : Type :=
| EChar (c : char)
| EItem (i : citem).

Definition read_escape (s : list ascii) : option (escape * list ascii) :=
  match s with
  | "d" :: s' => Some (EItem CDigit, s')
  | "s" :: s' => Some (EItem CSpace, s')
  | "S" :: s' => Some (EItem CNonSpace, s')
  | "n" :: s' => Some (EChar 10%N, s')
  | "t" :: s' => Some (EChar 9%N, s')
  | "r" :: s' => Some (EChar 13%N, s')
  | "x" :: s' =>
      match read_hex 2%nat s' 0%N with
      | Some (v, s'') => Some (EChar v, s'')
      | None => None
      end
  | "u" :: s' =>
      match read_hex 4%nat s' 0%N with
      | Some (v, s'') => Some (EChar v, s'')
      | None => None
      end
  | a :: s' =>
      (* identity escape of a syntax character *)
      if is_digit (ch a) || is_upper (ch a) || is_lower (ch a) then None
      else Some (EChar (ch a), s')
  | [] => None
  end.

(** One class atom: a character or a class escape. *)
Definition read_class_atom (s : list ascii) : option (escape * list ascii) :=
  match s with
  | "\" :: s' => read_escape s'
  | "]" :: _ => None
  | a :: s' => if N.leb 128 (ch a) then None else Some (EChar (ch a), s')
  | [] => None
  end.

(** The members of a class, up to the closing bracket. *)
Fixpoint read_class (fuel : nat) (s : list ascii) (acc : list citem)
  : option (list citem * list ascii) :=
  match fuel with
  | 0%nat => None
  | S fuel' =>
      match s with
      | "]" :: s' => Some (rev acc, s')
      | _ =>
          match read_class_atom s with
          | Some (EItem i, s1) => read_class fuel' s1 (i :: acc)
          | Some (EChar lo, s1) =>
              match s1 with
              | "-" :: "]" :: _ => read_class fuel' s1 (CChar lo :: acc)
              | "-" :: s2 =>
                  match read_class_atom s2 with
                  | Some (EChar hi, s3) => read_class fuel' s3 (CRange lo hi :: acc)
                  | _ => None
                  end
              | _ => read_class fuel' s1 (CChar lo :: acc)
              end
          | None => None
          end
      end
  end.

(** A quantifier after an atom, if there is one. *)
Definition read_quant (s : list ascii)
  : option (nat * option nat) * list ascii :=
  match s with
  | "*" :: s' => (Some (0%nat, None), s')
  | "+" :: s' => (Some (1%nat, None), s')
  | "?" :: s' => (Some (0%nat, Some 1%nat), s')
  | "{" :: s' =>
      match read_nat s' None with
      | (Some lo, "}" :: s1) => (Some (lo, Some lo), s1)
      | (Some lo, "," :: "}" :: s1) => (Some (lo, None), s1)
      | (Some lo, "," :: s1) =>
          match read_nat s1 None with
          | (Some hi, "}" :: s2) => (Some (lo, Some hi), s2)
          | _ => (None, s)
          end
      | _ => (None, s)
      end
  | _ => (None, s)
  end.

Definition quantified (a : regex) (s : list ascii) : regex * list ascii :=
  match read_quant s with
  | (Some (lo, hi), "?" :: s') => (Rep lo hi false a, s')
  | (Some (lo, hi), s') => (Rep lo hi true a, s')
  | (None, _) => (a, s)
  end.

Definition seq_of (a b : regex) : regex :=
  match b with
  | Eps => a
  | _ => Seq a b
  end.

(** Disjunction, alternative and term of the ECMAScript pattern grammar;
    [g] is the number of the next capturing group. *)
Fixpoint read_disj (fuel : nat) (s : list ascii) (g : nat)
  : option (regex * list ascii * nat) :=
  match fuel with
  | 0%nat => None
  | S fuel' =>
      match read_alt fuel' s g with
      | Some (a, "|" :: s1, g1) =>
          match read_disj fuel' s1 g1 with
          | Some (b, s2, g2) => Some (Alt a b, s2, g2)
          | None => None
          end
      | r => r
      end
  end

with read_alt (fuel : nat) (s : list ascii) (g : nat)
  : option (regex * list ascii * nat) :=
  match fuel with
  | 0%nat => None
  | S fuel' =>
      match s with
      | [] => Some (Eps, s, g)
      | "|" :: _ => Some (Eps, s, g)
      | ")" :: _ => Some (Eps, s, g)
      | _ =>
          match read_term fuel' s g with
          | Some (a, s1, g1) =>
              match read_alt fuel' s1 g1 with
              | Some (b, s2, g2) => Some (seq_of a b, s2, g2)
              | None => None
              end
          | None => None
          end
      end
  end

with read_term (fuel : nat) (s : list ascii) (g : nat)
  : option (regex * list ascii * nat) :=
  match fuel with
  | 0%nat => None
  | S fuel' =>
      match s with
      | "^" :: s' => Some (Bol, s', g)
      | "$" :: s' => Some (Eol, s', g)
      | "(" :: "?" :: "=" :: s' =>
          match read_disj fuel' s' g with
          | Some (a, ")" :: s1, g1) => Some (Look a, s1, g1)
          | _ => None
          end
      | "(" :: "?" :: ":" :: s' =>
          match read_disj fuel' s' g with
          | Some (a, ")" :: s1, g1) =>
              let (q, s2) := quantified a s1 in Some (q, s2, g1)
          | _ => None
          end
      | "(" :: s' =>
          match read_disj fuel' s' (S g) with
          | Some (a, ")" :: s1, g1) =>
              let (q, s2) := quantified (Grp g a) s1 in Some (q, s2, g1)
          | _ => None
          end
      | "." :: s' =>
          let (q, s1) := quantified Dot s' in Some (q, s1, g)
      | "[" :: "^" :: s' =>
          match read_class fuel' s' [] with
          | Some (items, s1) =>
              let (q, s2) := quantified (Cls true items) s1 in Some (q, s2, g)
          | None => None
          end
      | "[" :: s' =>
          match read_class fuel' s' [] with
          | Some (items, s1) =>
              let (q, s2) := quantified (Cls false items) s1 in Some (q, s2, g)
          | None => None
          end
      | "\" :: s' =>
          match read_escape s' with
          | Some (EChar c, s1) =>
              let (q, s2) := quantified (Chr c) s1 in Some (q, s2, g)
          | Some (EItem i, s1) =>
              let (q, s2) := quantified (Cls false [i]) s1 in Some (q, s2, g)
          | None => None
          end
      | "*" :: _ | "+" :: _ | "?" :: _ | ")" :: _ | "|" :: _ => None
      | a :: s' =>
          if N.leb 128 (ch a) then None
          else let (q, s1) := quantified (Chr (ch a)) s' in Some (q, s1, g)
      | [] => None
      end
  end.

Definition parse_pattern (p : string) : option regex :=
  let s := list_ascii_of_string p in
  match read_disj (3 * List.length s + 3)%nat s 1%nat with
  | Some (r, [], _) => Some r
  | _ => None
  end.

(** [the (parse_pattern p)] has type [regex] only when the pattern is read
    without error. *)
Definition the_type (o : option regex) : Type :=
  match o with Some _ => regex | None => unit end.

Definition the (o : option regex) : the_type o :=
  match o with Some r => r | None => tt end.

End Reader.

(** ** Matching

    The matcher is the continuation-passing matcher of the ECMAScript
    specification (section RegExp pattern semantics): a pattern takes the
    current state and a continuation, and the first alternative whose
    continuation succeeds wins.  A state holds the character before the
    current position (for [^] under the [m] flag), the input that
    remains, and the captures made so far. *)

Record mstate : Type := MState {
  ms_prev : option char;
  ms_rest : jstring;
  ms_caps : list (nat * jstring)
}.

Definition cont := mstate -> option mstate.

Fixpoint get_cap (i : nat) (caps : list (nat * jstring)) : option jstring :=
  match caps with
  | [] => None
  | (j, s) :: caps' => if Nat.eqb i j then Some s else get_cap i caps'
  end.

Definition clear_caps (gs : list nat) (caps : list (nat * jstring))
  : list (nat * jstring) :=
  filter (fun p => negb (existsb (Nat.eqb (fst p)) gs)) caps.

Definition set_cap (i : nat) (s : jstring) (caps : list (nat * jstring))
  : list (nat * jstring) :=
  (i, s) :: clear_caps [i] caps.

(** One character of input is consumed. *)
Definition advance (c : char) (rest : jstring) (x : mstate) : mstate :=
  MState (Some c) rest (ms_caps x).

(** Characters compare through [Canonicalize] under the [i] flag. *)
Definition canon (fl : flags) (c : char) : char :=
  if f_icase fl then to_upper c else c.

Definition chr_match (fl : flags) (p c : char) : bool :=
  char_eqb (canon fl p) (canon fl c).

Definition citem_has (i : citem) (c : char) : bool :=
  match i with
  | CChar a => char_eqb a c
  | CRange lo hi => in_range lo hi c
  | CDigit => is_digit c
  | CSpace => is_space c
  | CNonSpace => negb (is_space c)
  end.

(** Under [i], a class member [a] accepts [c] when
    [Canonicalize a = Canonicalize c], that is when the member is [c]
    or [c] in the other case. *)
Definition citem_match (fl : flags) (i : citem) (c : char) : bool :=
  citem_has i c || (f_icase fl && citem_has i (swap_case c)).

Definition cls_match (fl : flags) (neg : bool) (items : list citem) (c : char)
  : bool :=
  xorb neg (existsb (fun i => citem_match fl i c) items).

Definition dot_match (fl : flags) (c : char) : bool :=
  f_dotall fl || negb (is_line_terminator c).

Definition at_bol (fl : flags) (x : mstate) : bool :=
  match ms_prev x with
  | None => true
  | Some c => f_multiline fl && is_line_terminator c
  end.

Definition at_eol (fl : flags) (x : mstate) : bool :=
  match ms_rest x with
  | [] => true
  | c :: _ => f_multiline fl && is_line_terminator c
  end.

(** The text consumed between two states of one match. *)
Definition consumed (x y : mstate) : jstring :=
  firstn (List.length (ms_rest x) - List.length (ms_rest y)) (ms_rest x).

Definition is_zero (o : option nat) : bool :=
  match o with Some 0 => true | _ => false end.

(** RepeatMatcher.  [body] matches the repeated atom and [gs] are the
    groups inside it, which every iteration resets.  An iteration that
    consumes nothing once the minimum is reached is rejected, so the
    number of iterations is at most [mn] plus the length of the input
    that remains: [fuel] is that bound, and more of it changes nothing
    ([rep_fuel_irrelevant]). *)
Fixpoint rep (body : mstate -> cont -> option mstate) (gs : list nat)
    (greedy : bool) (fuel : nat) (mn : nat) (mx : option nat)
    (x : mstate) (k : cont) {struct fuel} : option mstate :=
  match fuel with
  | 0 => None
  | S fuel' =>
      if is_zero mx then k x
      else
        let d := fun y : mstate =>
          if Nat.eqb mn 0 && Nat.eqb (List.length (ms_rest y)) (List.length (ms_rest x))
          then None
          else rep body gs greedy fuel' (pred mn) (option_map pred mx) y k in
        let xr := MState (ms_prev x) (ms_rest x) (clear_caps gs (ms_caps x)) in
        if negb (Nat.eqb mn 0) then body xr d
        else if greedy then
          match body xr d with
          | Some z => Some z
          | None => k x
          end
        else
          match k x with
          | Some z => Some z
          | None => body xr d
          end
  end.

Fixpoint m (fl : flags) (r : regex) (x : mstate) (k : cont) {struct r}
  : option mstate :=
  match r with
  | Eps => k x
  | Chr p =>
      match ms_rest x with
      | c :: rest => if chr_match fl p c then k (advance c rest x) else None
      | [] => None
      end
  | Dot =>
      match ms_rest x with
      | c :: rest => if dot_match fl c then k (advance c rest x) else None
      | [] => None
      end
  | Cls neg items =>
      match ms_rest x with
      | c :: rest => if cls_match fl neg items c then k (advance c rest x) else None
      | [] => None
      end
  | Seq a b => m fl a x (fun y => m fl b y k)
  | Alt a b =>
      match m fl a x k with
      | Some z => Some z
      | None => m fl b x k
      end
  | Grp i a =>
      m fl a x (fun y =>
        k (MState (ms_prev y) (ms_rest y) (set_cap i (consumed x y) (ms_caps y))))
  | Rep mn mx greedy a =>
      rep (m fl a) (groups a) greedy (mn + List.length (ms_rest x) + 1) mn mx x k
  | Bol => if at_bol fl x then k x else None
  | Eol => if at_eol fl x then k x else None
  | Look a =>
      match m fl a x (fun y => Some y) with
      | Some y => k (MState (ms_prev x) (ms_rest x) (ms_caps y))
      | None => None
      end
  end.

(** ** The result of [exec] and [match] *)

Record match_result : Type := MatchResult {
  mr_index : nat;                     (* where the match starts *)
  mr_text : jstring;                  (* m[0] *)
  mr_caps : list (nat * jstring)      (* m[1], m[2], ...; absent = undefined *)
}.

(** [m[i]] for i >= 1: [None] is [undefined]. *)
Definition group (i : nat) (r : match_result) : option jstring :=
  get_cap i (mr_caps r).

(** End of the match, the value [lastIndex] takes under the [g] flag. *)
Definition mr_end (r : match_result) : nat :=
  mr_index r + List.length (mr_text r).

(** Try the pattern at the current position, then at each later one. *)
Fixpoint search (fl : flags) (r : regex) (prev : option char) (rest : jstring)
    (idx : nat) {struct rest} : option match_result :=
  let x := MState prev rest [] in
  match m fl r x (fun y => Some y) with
  | Some y => Some (MatchResult idx (consumed x y) (ms_caps y))
  | None =>
      match rest with
      | [] => None
      | c :: rest' => search fl r (Some c) rest' (S idx)
      end
  end.

(** Skip to position [start], remembering the character before it. *)
Fixpoint seek (prev : option char) (s : jstring) (start : nat) {struct start}
  : option (option char * jstring) :=
  match start with
  | 0 => Some (prev, s)
  | S n =>
      match s with
      | [] => None
      | c :: s' => seek (Some c) s' n
      end
  end.

(** [r.exec(s)] with [lastIndex = start] (a [g] pattern). *)
Definition exec_from (fl : flags) (r : regex) (s : jstring) (start : nat)
  : option match_result :=
  match seek None s start with
  | Some (prev, rest) => search fl r prev rest start
  | None => None
  end.

(** [s.match(r)] for a pattern without the [g] flag. *)
Definition js_match (fl : flags) (r : regex) (s : jstring) : option match_result :=
  search fl r None s 0.

(** [s.replace(r, by)] for a [g] pattern and a replacement text without
    [$] references.  [exec] tries the positions in order; a match is
    replaced and the text it consumed dropped ([skip] counts what is left
    to drop); after an empty match the position moves by one
    (AdvanceStringIndex), the character there being kept. *)
Fixpoint replace_from (fl : flags) (r : regex) (by_ : jstring)
    (prev : option char) (rest : jstring) (skip : nat) {struct rest} : jstring :=
  match skip with
  | S n =>
      match rest with
      | [] => []
      | c :: rest' => replace_from fl r by_ (Some c) rest' n
      end
  | 0 =>
      let x := MState prev rest [] in
      match m fl r x (fun y => Some y) with
      | Some y =>
          by_ ++
          match rest with
          | [] => []
          | c :: rest' =>
              match consumed x y with
              | [] => c :: replace_from fl r by_ (Some c) rest' 0
              | _ :: t => replace_from fl r by_ (Some c) rest' (List.length t)
              end
          end
      | None =>
          match rest with
          | [] => []
          | c :: rest' => c :: replace_from fl r by_ (Some c) rest' 0
          end
      end
  end.

Definition replace_all (fl : flags) (r : regex) (by_ : jstring) (s : jstring)
  : jstring :=
  replace_from fl r by_ None s 0.

(** [s.split(r)] for a pattern without captures (SplitMatcher).  The
    pattern is tried at each position [q] before the end; a match that
    ends where the current piece starts is passed over, any other match
    closes the piece and the text it consumed is dropped.  [piece] is the
    current piece in reverse. *)
Fixpoint split_from (fl : flags) (r : regex) (prev : option char)
    (rest : jstring) (piece : jstring) (skip : nat) {struct rest}
  : list jstring :=
  match rest with
  | [] => [rev piece]
  | c :: rest' =>
      match skip with
      | S n => split_from fl r (Some c) rest' piece n
      | 0 =>
          let x := MState prev rest [] in
          match m fl r x (fun y => Some y) with
          | Some y =>
              match consumed x y, piece with
              | [], [] => split_from fl r (Some c) rest' [c] 0
              | [], _ :: _ => rev piece :: split_from fl r (Some c) rest' [c] 0
              | _ :: t, _ =>
                  rev piece :: split_from fl r (Some c) rest' [] (List.length t)
              end
          | None => split_from fl r (Some c) rest' (c :: piece) 0
          end
      end
  end.

Definition split_re (fl : flags) (r : regex) (s : jstring) : list jstring :=
  match s with
  | [] =>
      match m fl r (MState None [] []) (fun y => Some y) with
      | Some _ => []
      | None => [[]]
      end
  | _ => split_from fl r None s [] 0
  end.

(** ** What a match is

    [matches fl r x y]: the pattern [r] can take the matcher from state
    [x] to state [y].  It is the relation the backtracking matcher
    explores, without the order of exploration: every state the matcher
    hands to its continuation is related to the start state
    ([m_sound]). *)

Definition with_caps (x : mstate) (caps : list (nat * jstring)) : mstate :=
  MState (ms_prev x) (ms_rest x) caps.

Fixpoint iter (R : mstate -> mstate -> Prop) (n : nat) (x y : mstate) : Prop :=
  match n with
  | 0 => y = x
  | S n' => exists z, R x z /\ iter R n' z y
  end.

(** The number of iterations a quantifier allows. *)
Definition within (n : nat) (mn : nat) (mx : option nat) : Prop :=
  match mx with
  | Some k => Nat.min mn k <= n /\ n <= k
  | None => mn <= n
  end.

Fixpoint matches (fl : flags) (r : regex) (x y : mstate) : Prop :=
  match r with
  | Eps => y = x
  | Chr p =>
      exists c rest,
        ms_rest x = c :: rest /\ chr_match fl p c = true /\ y = advance c rest x
  | Dot =>
      exists c rest,
        ms_rest x = c :: rest /\ dot_match fl c = true /\ y = advance c rest x
  | Cls neg items =>
      exists c rest,
        ms_rest x = c :: rest /\ cls_match fl neg items c = true /\
        y = advance c rest x
  | Seq a b => exists z, matches fl a x z /\ matches fl b z y
  | Alt a b => matches fl a x y \/ matches fl b x y
  | Grp i a =>
      exists z, matches fl a x z /\
                y = with_caps z (set_cap i (consumed x z) (ms_caps z))
  | Rep mn mx _ a =>
      exists n, within n mn mx /\
        iter (fun u v =>
                matches fl a (with_caps u (clear_caps (groups a) (ms_caps u))) v)
             n x y
  | Bol => at_bol fl x = true /\ y = x
  | Eol => at_eol fl x = true /\ y = x
  | Look a => exists z, matches fl a x z /\ y = with_caps x (ms_caps z)
  end.

(** The least number of characters a match of the pattern consumes. *)
Fixpoint min_length (r : regex) : nat :=
  match r with
  | Chr _ | Dot | Cls _ _ => 1
  | Seq a b => min_length a + min_length b
  | Alt a b => Nat.min (min_length a) (min_length b)
  | Grp _ a => min_length a
  | Rep mn mx _ a =>
      match mx with
      | Some k => Nat.min mn k * min_length a
      | None => mn * min_length a
      end
  | Eps | Bol | Eol | Look _ => 0
  end.

Definition mem (i : nat) (l : list nat) : bool := existsb (Nat.eqb i) l.

(** Groups that every match of the pattern sets, each with the least
    length of what it captures: the groups on the spine of the pattern,
    outside alternatives, quantifiers and look-aheads. *)
Fixpoint sure (r : regex) : list (nat * nat) :=
  match r with
  | Seq a b => filter (fun p => negb (mem (fst p) (groups b))) (sure a) ++ sure b
  | Grp i a => (i, min_length a) :: filter (fun p => negb (Nat.eqb (fst p) i)) (sure a)
  | _ => []
  end.

Fixpoint sure_length (i : nat) (l : list (nat * nat)) : option nat :=
  match l with
  | [] => None
  | (j, n) :: l' => if Nat.eqb i j then Some n else sure_length i l'
  end.

(** The pattern characters a pattern starts with. *)
Fixpoint literal_prefix (r : regex) : jstring :=
  match r with
  | Chr c => [c]
  | Seq (Chr c) b => c :: literal_prefix b
  | _ => []
  end.

(** The pattern after its first [n] terms. *)
Fixpoint drop_terms (n : nat) (r : regex) : regex :=
  match n with
  | 0 => r
  | S n' =>
      match r with
      | Seq _ b => drop_terms n' b
      | _ => Eps
      end
  end.

(** [p] is at the start of [s], characters compared as the pattern
    compares them. *)
Fixpoint starts_with_pattern (fl : flags) (p s : jstring) : bool :=
  match p, s with
  | [], _ => true
  | a :: p', c :: s' => chr_match fl a c && starts_with_pattern fl p' s'
  | _ :: _, [] => false
  end.

(** [p] occurs somewhere in [s]. *)
Fixpoint occurs (fl : flags) (p s : jstring) : bool :=
  starts_with_pattern fl p s ||
  match s with
  | [] => false
  | _ :: s' => occurs fl p s'
  end.

(** ** Priority

    [takes fl r x y]: from [x] the matcher reaches [y] first, so that a
    continuation that accepts [y] decides the result.  [fails fl r x]:
    the pattern does not match at [x], whatever follows it. *)

Definition takes (fl : flags) (r : regex) (x y : mstate) : Prop :=
  forall k z, k y = Some z -> m fl r x k = Some z.

Definition fails (fl : flags) (r : regex) (x : mstate) : Prop :=
  forall k, m fl r x k = None.

(** The state after the text [s] has been consumed from [x], [t] being
    what remains. *)
Definition after (s : jstring) (x : mstate) (t : jstring) : mstate :=
  MState (fold_left (fun _ c => Some c) s (ms_prev x)) t (ms_caps x).

(** [t] does not start with a character accepted by [p]. *)
Definition stops (p : char -> bool) (t : jstring) : Prop :=
  match t with
  | [] => True
  | c :: _ => p c = false
  end.

End Regex.

Import Regex.

(* ================================================================== *)
(** * JavaScript numbers *)
(* ================================================================== *)

Module JsNumber.

(** A JavaScript number is an IEEE 754 binary64 value. *)
Definition number := float.

Definition NaN : number := PrimFloat.nan.

Definition isNaN (x : number) : bool := PrimFloat.is_nan x.

(** The binary64 value nearest to [m * 10^e10] (ties to even), for
    [m >= 0]; the exponents that overflow or underflow whatever the
    mantissa are cut off before any power is computed. *)
Definition of_decimal (neg : bool) (m : Z) (ndigits : nat) (e10 : Z) : number :=
  match m with
  | Zpos p =>
      if (400 <? e10)%Z then (if neg then neg_infinity else infinity)
      else if (e10 <? - (Z.of_nat ndigits + 400))%Z then (if neg then neg_zero else zero)
      else if (0 <=? e10)%Z
      then SF2Prim (SFdiv prec emax
                      (S754_finite neg (p * Z.to_pos (10 ^ e10)) 0)
                      (S754_finite false 1 0))
      else SF2Prim (SFdiv prec emax
                      (S754_finite neg p 0)
                      (S754_finite false (Z.to_pos (10 ^ (- e10))) 0))
  | _ => if neg then neg_zero else zero
  end.

Fixpoint span_digits (s : jstring) : jstring * jstring :=
  match s with
  | c :: s' =>
      if is_digit c then let (d, r) := span_digits s' in (c :: d, r)
      else ([], s)
  | [] => ([], [])
  end.

Definition digits_value (ds : jstring) : Z :=
  fold_left (fun acc c => (10 * acc + Z.of_N (c - 48))%Z) ds 0%Z.

(** Sign prefix of a numeric literal. *)
Definition read_sign (s : jstring) : bool * jstring :=
  match s with
  | 45%N :: r => (true, r)
  | 43%N :: r => (false, r)
  | _ => (false, s)
  end.

(** Exponent part [e], [e+] or [e-] followed by digits; absent = 0. *)
Definition read_exponent (s : jstring) : Z :=
  match s with
  | c :: r =>
      if (N.eqb c 101 || N.eqb c 69)%N then
        let (neg, r1) := read_sign r in
        match span_digits r1 with
        | ([], _) => 0%Z
        | (ds, _) => if neg then (- digits_value ds)%Z else digits_value ds
        end
      else 0%Z
  | [] => 0%Z
  end.

(** [parseFloat]: leading white space is skipped and the longest prefix
    that is a decimal literal is converted; [NaN] when there is none. *)
Definition parseFloat (s : jstring) : number :=
  let (neg, t) := read_sign (trimStart s) in
  if starts_with (str "Infinity") t then (if neg then neg_infinity else infinity)
  else
    let (ip, t2) := span_digits t in
    let (fp, t3) :=
      match t2 with
      | 46%N :: r => span_digits r
      | _ => ([], t2)
      end in
    match ip ++ fp with
    | [] => NaN
    | ds =>
        of_decimal neg (digits_value ds) (List.length ds)
          (read_exponent t3 - Z.of_nat (List.length fp))
    end.

Definition hex_digit (c : char) : option N :=
  (if is_digit c then Some (c - 48)
   else if in_range 65 70 c then Some (c - 55)
   else if in_range 97 102 c then Some (c - 87)
   else None)%N.

Fixpoint hex_value (s : jstring) (acc : option Z) : option Z :=
  match s with
  | c :: s' =>
      match hex_digit c with
      | Some v => hex_value s' (Some (16 * match acc with Some a => a | None => 0 end + Z.of_N v)%Z)
      | None => acc
      end
  | [] => acc
  end.

(** [parseInt] without a radix: decimal, or hexadecimal after [0x]. *)
Definition parseInt (s : jstring) : number :=
  let (neg, t) := read_sign (trimStart s) in
  match t with
  | 48%N :: x :: r =>
      if (N.eqb x 120 || N.eqb x 88)%N then
        match hex_value r None with
        | Some v => of_decimal neg v 0 0
        | None => NaN
        end
      else
        match span_digits t with
        | ([], _) => NaN
        | (ds, _) => of_decimal neg (digits_value ds) 0 0
        end
  | _ =>
      match span_digits t with
      | ([], _) => NaN
      | (ds, _) => of_decimal neg (digits_value ds) 0 0
      end
  end.

Definition of_Z (z : Z) : number :=
  match z with
  | Z0 => zero
  | Zpos _ => PrimFloat.of_uint63 (Uint63.of_Z z)
  | Zneg _ => PrimFloat.opp (PrimFloat.of_uint63 (Uint63.of_Z (- z)))
  end.

(** [Math.round]: the nearest integer, a tie going toward plus
    infinity; a value with no fractional bits is returned as it is. *)
Definition Math_round (x : number) : number :=
  match Prim2SF x with
  | S754_finite s mant e =>
      if (0 <=? e)%Z then x
      else
        let d := (2 ^ (- e))%Z in
        let sm := if s then Zneg mant else Zpos mant in
        let n := ((2 * sm + d) / (2 * d))%Z in
        if (n =? 0)%Z then (if s then neg_zero else zero) else of_Z n
  | _ => x
  end.

End JsNumber.

Import JsNumber.

(* ================================================================== *)
(** * The parser (extract_comments.ts) *)
(* ================================================================== *)

(** ** Outcomes

    A function of the source returns a value, raises (a [TypeError] on a
    property of [undefined]), or runs a loop that does not stop. *)

Inductive outcome (A : Type) : Type :=
| Ok (a : A)
| Throw (e : string)
| Diverge.

Arguments Ok {A} a.
Arguments Throw {A} e.
Arguments Diverge {A}.

Definition bind {A B : Type} (o : outcome A) (f : A -> outcome B) : outcome B :=
  match o with
  | Ok a => f a
  | Throw e => Throw e
  | Diverge => Diverge
  end.

Declare Scope outcome_scope.
Delimit Scope outcome_scope with outcome.
Notation "x <- a ;; b" := (bind a (fun x => b))
  (at level 61, a at next level, right associativity) : outcome_scope.

(** A property is read or a method called on [v]: a [TypeError] when [v]
    is [undefined]. *)
Definition defined {A : Type} (v : option A) : outcome A :=
  match v with
  | Some a => Ok a
  | None => Throw "TypeError: cannot read properties of undefined"
  end.

(** [ToString] of a string that may be [undefined]. *)
Definition to_string (v : option jstring) : jstring :=
  match v with
  | Some s => s
  | None => str "undefined"
  end.

(** [v || null] and [v || ""] on a string that may be [undefined] or
    [null]: the empty string is falsy. *)
Definition or_null (v : option jstring) : option jstring :=
  match v with
  | Some (_ :: _) => v
  | _ => None
  end.

Definition or_empty (v : option jstring) : jstring :=
  match v with
  | Some s => s
  | None => []
  end.

(** [m?.[i]] on the result of [match]. *)
Definition opt_group (i : nat) (mt : option match_result) : option jstring :=
  match mt with
  | Some r => group i r
  | None => None
  end.

(** ** Types *)

Module Application.
Record t : Type := mk {
  number : jstring;
  status : jstring;
  date_submitted : option jstring;
  date_issued : option jstring
}.
End Application.

Module Property.
Record t : Type := mk {
  address : jstring;
  parcel : option jstring;
  zoning : option jstring;
  subdivision : option jstring;
  lot : option jstring;
  block : option jstring
}.
End Property.

Module Party.
Record t : Type := mk {
  name : option jstring;
  address : option jstring;
  phone : option jstring
}.
End Party.

Module BuildingClass.
Record t : Type := mk {
  occupancy_class : jstring;
  construction_type : jstring;
  square_feet : option number;
  occupancy_load : option number;
  use_description : jstring
}.
End BuildingClass.

Module DimensionalValue.
Record t : Type := mk {
  maximum : option number;
  provided : option number
}.
End DimensionalValue.

Module Setbacks.
Record t : Type := mk {
  front : option DimensionalValue.t;
  side_left : option DimensionalValue.t;
  side_right : option DimensionalValue.t;
  rear : option DimensionalValue.t
}.
End Setbacks.

Module Parking.
Record t : Type := mk {
  bedrooms : option number;
  required : option number;
  provided : option number
}.
End Parking.

Module ZoningReview.
Record t : Type := mk {
  zoning_district : option jstring;
  plat_name : option jstring;
  plat_number : option jstring;
  slab_sf : option number;
  lot_area_sf : option number;
  lot_coverage : option DimensionalValue.t;
  height : option DimensionalValue.t;
  lot_width : option DimensionalValue.t;
  driveway_coverage : option DimensionalValue.t;
  setbacks : option Setbacks.t;
  parking : option Parking.t;
  ufc_permit : option jstring
}.
End ZoningReview.

Module Reviewer.
Record t : Type := mk {
  name : option jstring;
  email : option jstring;
  phone : option jstring
}.
End Reviewer.

Module CorrectionItem.
Record t : Type := mk {
  number : JsNumber.number;
  date : option jstring;
  text : jstring
}.
End CorrectionItem.

Module CorrectionBlock.
Record t : Type := mk {
  department : jstring;
  reviewer : Reviewer.t;
  items : list CorrectionItem.t
}.
End CorrectionBlock.

Module ApprovalTask.
Record t : Type := mk {
  task_name : jstring;
  status : jstring;
  completed_date : option jstring;
  reviewer_name : option jstring
}.
End ApprovalTask.

Module ThirdPartyReview.
Record t : Type := mk {
  company : option jstring;
  plan_review_date : option jstring;
  reviewed_by : option jstring;
  tenant_builder : option jstring
}.
End ThirdPartyReview.

Module PermitComments.
Record t : Type := mk {
  application : Application.t;
  property : Property.t;
  description_of_work : option jstring;
  applicant : Party.t;
  owner : Party.t;
  building_classification : list BuildingClass.t;
  corrections : list CorrectionBlock.t;
  approval_tasks : list ApprovalTask.t;
  zoning_review : option ZoningReview.t;
  third_party_review : option ThirdPartyReview.t;
  raw_text : option jstring
}.
End PermitComments.

Module Parse.

Local Open Scope outcome_scope.
Local Open Scope string_scope.
Local Open Scope list_scope.

(** The flag sets that occur in the source. *)
Definition no_flags : flags := Flags false false false.
Definition flag_i : flags := Flags true false false.
Definition flag_is : flags := Flags true false true.
Definition flag_m : flags := Flags false true false.

(** ** Parsing helpers *)

Definition re_whitespace : regex :=
  Eval vm_compute in the (parse_pattern "\s+").

(** [text.replace(/\s+/g, " ").trim()] *)
Definition cleanText (text : jstring) : jstring :=
  trim (replace_all no_flags re_whitespace (str " ") text).

Definition re_date : regex :=
  Eval vm_compute in the (parse_pattern "(\d{1,2})\/(\d{1,2})\/(\d{4})").

Definition parseDate (text : option jstring) : outcome (option jstring) :=
  match text with
  | None | Some [] => Ok None
  | Some t =>
      match js_match no_flags re_date t with
      | Some mt =>
          let year := to_string (group 3 mt) in
          month <- defined (group 1 mt) ;;
          day <- defined (group 2 mt) ;;
          Ok (Some (year ++ str "-" ++ padStart0 2 month ++ str "-" ++ padStart0 2 day))
      | None => Ok None
      end
  end.

Definition re_comma_percent : regex :=
  Eval vm_compute in the (parse_pattern "[,%]").

Definition parseNumber (text : option jstring) : option number :=
  match text with
  | None | Some [] => None
  | Some t =>
      let cleaned := trim (replace_all no_flags re_comma_percent [] t) in
      let num := parseFloat cleaned in
      if isNaN num then None else Some num
  end.

Definition re_feet : regex :=
  Eval vm_compute in
    the (parse_pattern "(\d+(?:\.\d+)?)\s*['']?\s*(\d+(?:\.\d+)?)?\s*[\x22\x22]?").

Definition parseFeet (text : option jstring) : option number :=
  match text with
  | None | Some [] => None
  | Some t =>
      match js_match no_flags re_feet t with
      | Some mt =>
          let feet := parseFloat (to_string (group 1 mt)) in
          let feet :=
            match group 2 mt with
            | Some ((_ :: _) as inches) =>
                PrimFloat.add feet (PrimFloat.div (parseFloat inches) 12)
            | _ => feet
            end in
          Some (PrimFloat.div (Math_round (PrimFloat.mul feet 100)) 100)
      | None => None
      end
  end.

Definition re_percent : regex :=
  Eval vm_compute in the (parse_pattern "(\d+(?:\.\d+)?)\s*%").

Definition parsePercent (text : option jstring) : option number :=
  match text with
  | None | Some [] => None
  | Some t =>
      match js_match no_flags re_percent t with
      | Some mt => Some (parseFloat (to_string (group 1 mt)))
      | None =>
          let num := parseFloat t in
          if isNaN num then None else Some num
      end
  end.

(** ** Header *)

Definition re_application : regex :=
  Eval vm_compute in the (parse_pattern "Application:\s*(PB\d+-\d+)").
Definition re_status : regex :=
  Eval vm_compute in the (parse_pattern "Status:\s*([A-Za-z\s]+?)(?:\s{2,}|Date|$)").
Definition re_submitted : regex :=
  Eval vm_compute in
    the (parse_pattern "Date Submitted:\s*(\d{1,2}\/\d{1,2}\/\d{4})").
Definition re_issued : regex :=
  Eval vm_compute in
    the (parse_pattern "Date Issued:\s*(\d{1,2}\/\d{1,2}\/\d{4})").
Definition re_address : regex :=
  Eval vm_compute in the (parse_pattern "Address:\s*(.+?)(?:\n|Parcel)").
Definition re_parcel : regex :=
  Eval vm_compute in the (parse_pattern "Parcel:\s*(\d+)").
Definition re_zoning : regex :=
  Eval vm_compute in the (parse_pattern "Zoning:\s*([A-Z0-9-]+)").
Definition re_subdivision : regex :=
  Eval vm_compute in
    the (parse_pattern
           "Subdivision:\s*([A-Za-z][A-Za-z0-9\s]+?)(?:\s{2,}|Lot\/Block|\n)").
Definition re_lotBlock : regex :=
  Eval vm_compute in
    the (parse_pattern "Lot\/Block:\s*([^\/\s]+)\s*\/\s*([^\s\n]+)").

(** The unused [lines] of the source is left out. *)
Definition parseHeader (content : jstring)
  : outcome (Application.t * Property.t) :=
  let appMatch := js_match flag_i re_application content in
  let statusMatch := js_match flag_i re_status content in
  let submittedMatch := js_match flag_i re_submitted content in
  let issuedMatch := js_match flag_i re_issued content in
  let addressMatch := js_match flag_is re_address content in
  let parcelMatch := js_match flag_i re_parcel content in
  let zoningMatch := js_match flag_i re_zoning content in
  let subdivisionMatch := js_match flag_i re_subdivision content in
  let lotBlockMatch := js_match flag_i re_lotBlock content in
  date_submitted <- parseDate (or_null (opt_group 1 submittedMatch)) ;;
  date_issued <- parseDate (or_null (opt_group 1 issuedMatch)) ;;
  Ok (Application.mk
        (or_empty (opt_group 1 appMatch))
        (cleanText (or_empty (opt_group 1 statusMatch)))
        date_submitted
        date_issued,
      Property.mk
        (cleanText (or_empty (opt_group 1 addressMatch)))
        (or_null (opt_group 1 parcelMatch))
        (or_null (opt_group 1 zoningMatch))
        (or_null (Some (cleanText (or_empty (opt_group 1 subdivisionMatch)))))
        (or_null (opt_group 1 lotBlockMatch))
        (or_null (opt_group 2 lotBlockMatch))).

(** ** Description of work *)

Definition re_description : regex :=
  Eval vm_compute in
    the (parse_pattern "Description of Work:\s*(.+?)(?:\n\s*\n|ADA TDLR)").

Definition parseDescriptionOfWork (content : jstring) : outcome (option jstring) :=
  match js_match flag_is re_description content with
  | Some mt =>
      text <- defined (group 1 mt) ;;
      Ok (Some (cleanText text))
  | None => Ok None
  end.

(** ** Applicant and owner *)

Definition re_applicant : regex :=
  Eval vm_compute in the (parse_pattern "Applicant:\s*(.+?)(?:\s{2,}Owner:|$)").
Definition re_owner : regex :=
  Eval vm_compute in
    the (parse_pattern "Owner:\s*(.+?)(?:\n[A-Z][a-z]+:|Building Classification)").
Definition re_party_phone : regex :=
  Eval vm_compute in
    the (parse_pattern "(\d{10}|\d{3}-\d{3}-\d{4}|\(\d{3}\)\s*\d{3}-\d{4})").
Definition re_ten_digits : regex :=
  Eval vm_compute in the (parse_pattern "^\d{10}$").

Definition nonempty (s : jstring) : bool :=
  match s with [] => false | _ :: _ => true end.

Definition parseParty (text : option jstring) : Party.t :=
  match text with
  | None | Some [] => Party.mk None None None
  | Some t =>
      let lines := filter nonempty (List.map trim (split_char NL t)) in
      let phoneMatch := js_match no_flags re_party_phone t in
      Party.mk
        (or_null (hd_error lines))
        (or_null (Some (join (str ", ")
           (filter (fun l => match js_match no_flags re_ten_digits l with
                             | Some _ => false
                             | None => true
                             end)
                   (tl lines)))))
        (or_null (opt_group 1 phoneMatch))
  end.

Definition parseApplicantOwner (content : jstring) : Party.t * Party.t :=
  let applicantMatch := js_match flag_is re_applicant content in
  let ownerMatch := js_match flag_is re_owner content in
  (parseParty (or_null (opt_group 1 applicantMatch)),
   parseParty (or_null (opt_group 1 ownerMatch))).

(** ** Building classification *)

Definition re_building_table : regex :=
  Eval vm_compute in
    the (parse_pattern
           "Building Classification:[\s\S]*?Occ Class\s+Const Type\s+Square Feet\s+Occ Load\s+Use Description([\s\S]*?)(?:Sprinkler|Comment:|Required Corrections)").
Definition rowRegex : regex :=
  Eval vm_compute in
    the (parse_pattern
           "([RU]-?\d*|U)\s+(VB|VA|IIIA|IIIB|IIA|IIB|IA|IB)\s+(\d+)\s*(\d*)\s+([A-Za-z\s\/]+)").

(** [while ((match = rowRegex.exec(tableContent)) !== null) ...]: each
    turn resumes at [lastIndex], the end of the previous match.  The
    loop takes at most one turn per position when every match consumes
    text; [fuel] is that bound, and running out of it is [Diverge]. *)
Fixpoint rows_loop (fuel : nat) (tableContent : jstring) (lastIndex : nat)
    (classes : list BuildingClass.t) : outcome (list BuildingClass.t) :=
  match fuel with
  | 0 => Diverge
  | S fuel' =>
      match exec_from no_flags rowRegex tableContent lastIndex with
      | None => Ok classes
      | Some mt =>
          occ <- defined (group 1 mt) ;;
          const <- defined (group 2 mt) ;;
          use <- defined (group 5 mt) ;;
          rows_loop fuel' tableContent (mr_end mt)
            (classes ++
             [BuildingClass.mk
                (trim occ)
                (trim const)
                (parseNumber (group 3 mt))
                (match group 4 mt with
                 | Some (_ :: _) => parseNumber (group 4 mt)
                 | _ => None
                 end)
                (cleanText use)])
      end
  end.

Definition parseBuildingClassification (content : jstring)
  : outcome (list BuildingClass.t) :=
  match js_match flag_i re_building_table content with
  | Some tableMatch =>
      let tableContent := to_string (group 1 tableMatch) in
      rows_loop (S (List.length tableContent)) tableContent 0 []
  | None => Ok []
  end.

(** ** Corrections *)

Definition re_corrections : regex :=
  Eval vm_compute in
    the (parse_pattern
           "Required Corrections:([\s\S]*?)(?:Approval Table:|General Comments)").
Definition re_block_split : regex :=
  Eval vm_compute in the (parse_pattern "(?=^[A-Za-z][A-Za-z\s]*\nReviewer:)").
Definition re_department : regex :=
  Eval vm_compute in
    the (parse_pattern "^([A-Za-z][A-Za-z\s]*)\nReviewer:\s*(.+)").
Definition re_email : regex :=
  Eval vm_compute in the (parse_pattern "Email:\s*(.+?)(?:\n|$)").
Definition re_phone : regex :=
  Eval vm_compute in the (parse_pattern "Phone:\s*(.+?)(?:\n|$)").
Definition itemRegex : regex :=
  Eval vm_compute in
    the (parse_pattern
           "^\s*(\d+)\.\s*(?:(\d{1,2}\/\d{1,2}\/\d{2,4})\s*[-\u2013\u2014]?\s*)?([\s\S]*?)(?=^\s*\d+\.|^[A-Za-z]+\nReviewer:|$)").

(** The item made from one match of [itemRegex], when its text is not
    empty. *)
Definition item_of_match (itemMatch : match_result)
  : outcome (option CorrectionItem.t) :=
  body <- defined (group 3 itemMatch) ;;
  let itemText := cleanText body in
  match itemText with
  | [] => Ok None
  | _ :: _ =>
      date <- match group 2 itemMatch with
              | Some (_ :: _) => parseDate (group 2 itemMatch)
              | _ => Ok None
              end ;;
      Ok (Some (CorrectionItem.mk
                  (parseInt (to_string (group 1 itemMatch)))
                  date
                  itemText))
  end.

(** [while ((itemMatch = itemRegex.exec(block)) !== null) ...] *)
Fixpoint items_loop (fuel : nat) (block : jstring) (lastIndex : nat)
    (items : list CorrectionItem.t) : outcome (list CorrectionItem.t) :=
  match fuel with
  | 0 => Diverge
  | S fuel' =>
      match exec_from flag_m itemRegex block lastIndex with
      | None => Ok items
      | Some itemMatch =>
          it <- item_of_match itemMatch ;;
          items_loop fuel' block (mr_end itemMatch)
            (match it with
             | Some i => items ++ [i]
             | None => items
             end)
      end
  end.

(** One turn of [for (const block of blocks)]: the block that is pushed,
    if any. *)
Definition parseBlock (block : jstring) : outcome (option CorrectionBlock.t) :=
  match trim block with
  | [] => Ok None
  | _ :: _ =>
      match js_match flag_m re_department block with
      | None => Ok None
      | Some deptMatch =>
          d <- defined (group 1 deptMatch) ;;
          let department := cleanText d in
          r <- defined (group 2 deptMatch) ;;
          let reviewerName := cleanText r in
          let emailMatch := js_match flag_i re_email block in
          let phoneMatch := js_match flag_i re_phone block in
          items <- items_loop (S (List.length block)) block 0 [] ;;
          if Nat.ltb 0 (List.length items) || nonempty department
          then Ok (Some (CorrectionBlock.mk
                           department
                           (Reviewer.mk
                              (or_null (Some reviewerName))
                              (or_null (Some (cleanText (or_empty (opt_group 1 emailMatch)))))
                              (or_null (Some (cleanText (or_empty (opt_group 1 phoneMatch))))))
                           items))
          else Ok None
      end
  end.

Fixpoint blocks_loop (blocks : list jstring) (corrections : list CorrectionBlock.t)
  : outcome (list CorrectionBlock.t) :=
  match blocks with
  | [] => Ok corrections
  | block :: blocks' =>
      b <- parseBlock block ;;
      blocks_loop blocks'
        (match b with
         | Some cb => corrections ++ [cb]
         | None => corrections
         end)
  end.

(** The source also declares [deptRegex], which it never uses. *)
Definition parseCorrections (content : jstring) : outcome (list CorrectionBlock.t) :=
  match js_match flag_i re_corrections content with
  | None => Ok []
  | Some correctionsMatch =>
      correctionsContent <- defined (group 1 correctionsMatch) ;;
      let blocks := split_re flag_m re_block_split correctionsContent in
      blocks_loop blocks []
  end.

(** ** Approval table *)

Definition re_approval_table : regex :=
  Eval vm_compute in
    the (parse_pattern
           "Approval Table:[\s\S]*?Task Name\s+Task Status\s+Completed Date\s+Task Rev Name([\s\S]*?)(?:General Comments|$)").
Definition taskRegex : regex :=
  Eval vm_compute in
    the (parse_pattern
           "^([A-Za-z][A-Za-z\s&\/]+?)\s{2,}(Approved|Not Required|Routed for Electronic Review|Issued|Opt-Out|Corrections Required|Finaled|Close|Pending)\s+(\d{1,2}\/\d{1,2}\/\d{4})?\s*(.*)$").

Definition parseTaskLine (line : jstring) : outcome (option ApprovalTask.t) :=
  match js_match no_flags taskRegex line with
  | Some mt =>
      n <- defined (group 1 mt) ;;
      s <- defined (group 2 mt) ;;
      completed <- parseDate (or_null (group 3 mt)) ;;
      r <- defined (group 4 mt) ;;
      Ok (Some (ApprovalTask.mk (cleanText n) (cleanText s) completed
                  (or_null (Some (cleanText r)))))
  | None => Ok None
  end.

Fixpoint lines_loop (lines : list jstring) (tasks : list ApprovalTask.t)
  : outcome (list ApprovalTask.t) :=
  match lines with
  | [] => Ok tasks
  | line :: lines' =>
      t <- parseTaskLine line ;;
      lines_loop lines'
        (match t with
         | Some task => tasks ++ [task]
         | None => tasks
         end)
  end.

Definition parseApprovalTable (content : jstring) : outcome (list ApprovalTask.t) :=
  match js_match flag_i re_approval_table content with
  | None => Ok []
  | Some tableMatch =>
      tableContent <- defined (group 1 tableMatch) ;;
      lines_loop (split_char NL tableContent) []
  end.

(** ** Zoning review *)

Definition re_zoning_section : regex :=
  Eval vm_compute in
    the (parse_pattern
           "Zoning Plans Exam([\s\S]*?)(?:INFORMATION BLOCK|end ZONING|Planning Development Department[\s\S]{0,100}Planning Development Department|$)").
Definition re_zoning_district : regex :=
  Eval vm_compute in
    the (parse_pattern
           "Zoning district:\s*[\x22\x22]?([A-Z0-9\s-]+?)(?:[\x22\x22]|\s+Type of|\n)").
Definition re_plat_name : regex :=
  Eval vm_compute in the (parse_pattern "Official Plat:.*?\(([^)]+)\)").
Definition re_plat_number : regex :=
  Eval vm_compute in the (parse_pattern "(FP-\d+-\d+)").
Definition re_slab : regex :=
  Eval vm_compute in the (parse_pattern "Slab SF:\s*([\d,]+)").
Definition re_lot_area : regex :=
  Eval vm_compute in the (parse_pattern "Lot Area(?:\s*SF)?:\s*([\d,.]+)").

Definition lotCov1 : regex :=
  Eval vm_compute in
    the (parse_pattern
           "Lot coverage:\s*(\d+)%?\s*maximum[\s\S]*?\(Provided\s*([\d.]+)%?\)").
Definition lotCov2 : regex :=
  Eval vm_compute in
    the (parse_pattern "Lot coverage:\s*(\d+)%?\s*maximum[:\s\x22]*([\d.]+)%").
Definition lotCov3 : regex :=
  Eval vm_compute in
    the (parse_pattern
           "coverage[:\s]+(\d+)%?\s*maximum[\s\S]*?(?:Provided|at)\s*([\d.]+)%").

Definition height1 : regex :=
  Eval vm_compute in
    the (parse_pattern
           "Height:\s*(\d+)['']?\s*maximum[\s\S]*?\(Provided[:\s]*([\d'\x22\s.]+)\)").
Definition height2 : regex :=
  Eval vm_compute in
    the (parse_pattern
           "Height:\s*(\d+)['']?\s*maximum[:\s\x22]+(?:Provided\s*)?([\d'\x22\s.]+)").

Definition lotWidth1 : regex :=
  Eval vm_compute in
    the (parse_pattern
           "Lot Width:\s*(\d+)['']?\s*minimum[\s\S]*?\(Provided\s*([\d'.]+)\)").
Definition lotWidth2 : regex :=
  Eval vm_compute in
    the (parse_pattern "Lot Width:\s*(\d+)['']?\s*minimum[^:]*:[:\s_]*([\d'.]+)").

Definition driveway1 : regex :=
  Eval vm_compute in
    the (parse_pattern
           "driveway coverage:\s*(\d+)%?\s*maximum[\s\S]*?\(Provided\s*([\d.]+)%?\)").
Definition driveway2 : regex :=
  Eval vm_compute in
    the (parse_pattern
           "driveway coverage:\s*(\d+)%?\s*maximum[:\s\x22]*([\d.]+)%?").

Definition front1 : regex :=
  Eval vm_compute in
    the (parse_pattern
           "Front:\s*(\d+)['']?\s*(?:minimum|platted)[^(]*\(Provided[:\s_]*([\d'\x22\s.\u00BD]+)\)").
Definition front2 : regex :=
  Eval vm_compute in
    the (parse_pattern
           "Front:\s*(\d+)['']?\s*(?:minimum|platted)[^:]*:[:\s_]*([\d'\x22\s.\u00BD]+)").

Definition sides1 : regex :=
  Eval vm_compute in
    the (parse_pattern
           "Sides?:\s*(\d+)['']?\s*minimum[^(]*\(Provided\s*([\d'\x22\s.\u00BD]+)\s*[&,]\s*([\d'\x22\s.\u00BD]+)\)").
Definition sides2 : regex :=
  Eval vm_compute in
    the (parse_pattern
           "Sides?:\s*(\d+)['']?\s*minimum[^L]*Left[:\s]*([\d'\x22\s.\u00BD]+)[^R]*Right[:\s]*([\d'\x22\s.\u00BD]+)").

Definition rear1 : regex :=
  Eval vm_compute in
    the (parse_pattern
           "Rear:\s*(\d+)['']?\s*minimum[^(]*\(Provided[:\s_]*([\d'\x22\s.\u00BD]+)\)").
Definition rear2 : regex :=
  Eval vm_compute in
    the (parse_pattern "Rear:\s*(\d+)['']?\s*minimum[:\s_]*([\d'\x22\s.\u00BD]+)").

Definition re_bedrooms : regex :=
  Eval vm_compute in the (parse_pattern "#\s*[Bb]edrooms?:\s*[_]?(\d+)").
Definition re_parking_required : regex :=
  Eval vm_compute in
    the (parse_pattern "(?:parking\s+)?spaces\s+required[:\s_]*(\d+)").
Definition re_parking_provided : regex :=
  Eval vm_compute in
    the (parse_pattern "(?:parking\s+)?spaces\s+provided[:\s_]*(\d+)").
Definition re_ufc : regex :=
  Eval vm_compute in the (parse_pattern "UFC[#\s-]*(\d+-\d+)").

(** [(a !== null || b !== null) ? { maximum: a, provided: b } : null],
    the expression the source writes out for each dimensional field. *)
Definition dimensional (a b : option number) : option DimensionalValue.t :=
  match a, b with
  | None, None => None
  | _, _ => Some (DimensionalValue.mk a b)
  end.

(** A two-value cascade step: the captures of a match through a value
    normalizer. *)
Definition pair_of (norm : option jstring -> option number) (mt : match_result)
  : option number * option number :=
  (norm (group 1 mt), norm (group 2 mt)).

(** The lot coverage variables after the [if / else if] chain. *)
Definition lotCoverage (zoningContent : jstring) : option number * option number :=
  let lotCovMatch1 := js_match flag_i lotCov1 zoningContent in
  let lotCovMatch2 := js_match flag_i lotCov2 zoningContent in
  let lotCovMatch3 := js_match flag_i lotCov3 zoningContent in
  match lotCovMatch1 with
  | Some m1 => pair_of parsePercent m1
  | None =>
      match lotCovMatch2 with
      | Some m2 => pair_of parsePercent m2
      | None =>
          match lotCovMatch3 with
          | Some m3 => pair_of parsePercent m3
          | None => (None, None)
          end
      end
  end.

(** The same chain with two variants (height, lot width, driveway, front
    and rear setbacks). *)
Definition cascade2 (norm : option jstring -> option number)
    (match1 match2 : option match_result) : option number * option number :=
  match match1 with
  | Some m1 => pair_of norm m1
  | None =>
      match match2 with
      | Some m2 => pair_of norm m2
      | None => (None, None)
      end
  end.

(** Side setbacks: one minimum and two provided values. *)
Definition sides (zoningContent : jstring)
  : option number * option number * option number :=
  let sidesMatch1 := js_match flag_i sides1 zoningContent in
  let sidesMatch2 := js_match flag_i sides2 zoningContent in
  match sidesMatch1 with
  | Some m1 => (parseFeet (group 1 m1), parseFeet (group 2 m1), parseFeet (group 3 m1))
  | None =>
      match sidesMatch2 with
      | Some m2 => (parseFeet (group 1 m2), parseFeet (group 2 m2), parseFeet (group 3 m2))
      | None => (None, None, None)
      end
  end.

(** The body of [parseZoningReview] once the section is located. *)
Definition zoningFields (zoningContent : jstring) : ZoningReview.t :=
  let zoningDistrictMatch := js_match flag_i re_zoning_district zoningContent in
  let platNameMatch := js_match flag_i re_plat_name zoningContent in
  let platNumberMatch := js_match flag_i re_plat_number zoningContent in
  let slabMatch := js_match flag_i re_slab zoningContent in
  let lotAreaMatch := js_match flag_i re_lot_area zoningContent in
  let '(lotCoverageMax, lotCoverageProv) := lotCoverage zoningContent in
  let '(heightMax, heightProv) :=
    cascade2 parseFeet (js_match flag_i height1 zoningContent)
                       (js_match flag_i height2 zoningContent) in
  let '(lotWidthMin, lotWidthProv) :=
    cascade2 parseFeet (js_match flag_i lotWidth1 zoningContent)
                       (js_match flag_i lotWidth2 zoningContent) in
  let '(drivewayMax, drivewayProv) :=
    cascade2 parsePercent (js_match flag_i driveway1 zoningContent)
                          (js_match flag_i driveway2 zoningContent) in
  let '(frontMin, frontProv) :=
    cascade2 parseFeet (js_match flag_i front1 zoningContent)
                       (js_match flag_i front2 zoningContent) in
  let '(sideMin, sideLeftProv, sideRightProv) := sides zoningContent in
  let '(rearMin, rearProv) :=
    cascade2 parseFeet (js_match flag_i rear1 zoningContent)
                       (js_match flag_i rear2 zoningContent) in
  let bedroomsMatch := js_match flag_i re_bedrooms zoningContent in
  let parkingReqMatch := js_match flag_i re_parking_required zoningContent in
  let parkingProvMatch := js_match flag_i re_parking_provided zoningContent in
  let ufcMatch := js_match flag_i re_ufc zoningContent in
  ZoningReview.mk
    (or_null (Some (cleanText (or_empty (opt_group 1 zoningDistrictMatch)))))
    (or_null (Some (cleanText (or_empty (opt_group 1 platNameMatch)))))
    (or_null (opt_group 1 platNumberMatch))
    (parseNumber (or_null (opt_group 1 slabMatch)))
    (parseNumber (or_null (opt_group 1 lotAreaMatch)))
    (dimensional lotCoverageMax lotCoverageProv)
    (dimensional heightMax heightProv)
    (dimensional lotWidthMin lotWidthProv)
    (dimensional drivewayMax drivewayProv)
    (Some (Setbacks.mk
             (dimensional frontMin frontProv)
             (dimensional sideMin sideLeftProv)
             (dimensional sideMin sideRightProv)
             (dimensional rearMin rearProv)))
    (Some (Parking.mk
             (parseNumber (or_null (opt_group 1 bedroomsMatch)))
             (parseNumber (or_null (opt_group 1 parkingReqMatch)))
             (parseNumber (or_null (opt_group 1 parkingProvMatch)))))
    (or_null (opt_group 1 ufcMatch)).

Definition parseZoningReview (content : jstring) : outcome (option ZoningReview.t) :=
  match js_match flag_i re_zoning_section content with
  | None => Ok None
  | Some zoningMatch =>
      zoningContent <- defined (group 1 zoningMatch) ;;
      Ok (Some (zoningFields zoningContent))
  end.

(** ** Third-party review *)

Definition re_information_block : regex :=
  Eval vm_compute in
    the (parse_pattern "INFORMATION BLOCK([\s\S]*?)(?:BUILDING|ELECTRICAL|$)").
Definition re_plan_review_date : regex :=
  Eval vm_compute in
    the (parse_pattern "Plan Review Performed On:\s*(\d{1,2}\/\d{1,2}\/\d{4})").
Definition re_reviewed_by : regex :=
  Eval vm_compute in the (parse_pattern "By:\s*([^\d\n]+)").
Definition re_tenant : regex :=
  Eval vm_compute in the (parse_pattern "Name of Tenant:\s*(.+?)(?:\n|$)").

Definition parseThirdPartyReview (content : jstring)
  : outcome (option ThirdPartyReview.t) :=
  match js_match flag_i re_information_block content with
  | None => Ok None
  | Some infoMatch =>
      infoContent <- defined (group 1 infoMatch) ;;
      let dateMatch := js_match flag_i re_plan_review_date infoContent in
      let byMatch := js_match flag_i re_reviewed_by infoContent in
      let tenantMatch := js_match flag_i re_tenant infoContent in
      let company :=
        if includes (str "METRO CODE") content || includes (str "metrocode.com") content
        then Some (str "Metro Code Analysis")
        else if includes (str "NORTH TEXAS") content || includes (str "ntispros.com") content
        then Some (str "North Texas Inspection Services")
        else None in
      match dateMatch, byMatch, tenantMatch with
      | None, None, None => Ok None
      | _, _, _ =>
          plan_review_date <- parseDate (or_null (opt_group 1 dateMatch)) ;;
          Ok (Some (ThirdPartyReview.mk
                      company
                      plan_review_date
                      (or_null (Some (cleanText (or_empty (opt_group 1 byMatch)))))
                      (or_null (Some (cleanText (or_empty (opt_group 1 tenantMatch)))))))
      end
  end.

(** ** The record *)

Definition parsePermitComments (content : jstring) (includeRaw : bool)
  : outcome PermitComments.t :=
  h <- parseHeader content ;;
  let '(application, property) := h in
  let '(applicant, owner) := parseApplicantOwner content in
  description_of_work <- parseDescriptionOfWork content ;;
  building_classification <- parseBuildingClassification content ;;
  corrections <- parseCorrections content ;;
  approval_tasks <- parseApprovalTable content ;;
  zoning_review <- parseZoningReview content ;;
  third_party_review <- parseThirdPartyReview content ;;
  Ok (PermitComments.mk
        application property description_of_work applicant owner
        building_classification corrections approval_tasks
        zoning_review third_party_review
        (if includeRaw then Some content else None)).

(** ** CSV export *)

(** A value of a row before it is written out. *)
Inductive cell : Type :=
| CellNull                      (* null or undefined *)
| CellStr (s : jstring)
| CellNum (n : number)
| CellCount (n : nat)           (* a sum of array lengths *)
| CellBool (b : bool).

Definition cell_str (v : option jstring) : cell :=
  match v with Some s => CellStr s | None => CellNull end.

Definition cell_num (v : option number) : cell :=
  match v with Some n => CellNum n | None => CellNull end.

Definition headers : list string :=
  [ "application_number"; "status"; "date_submitted"; "date_issued";
    "address"; "parcel"; "zoning"; "subdivision"; "lot"; "block";
    "description_of_work"; "applicant_name"; "owner_name";
    "living_sqft"; "garage_sqft"; "zoning_district"; "plat_number";
    "slab_sf"; "lot_area_sf"; "lot_coverage_max"; "lot_coverage_provided";
    "height_max"; "height_provided"; "lot_width_min"; "lot_width_provided";
    "driveway_coverage_max"; "driveway_coverage_provided";
    "setback_front_min"; "setback_front_provided"; "setback_side_min";
    "setback_side_left_provided"; "setback_side_right_provided";
    "setback_rear_min"; "setback_rear_provided"; "bedrooms";
    "parking_required"; "parking_provided"; "ufc_permit";
    "third_party_company"; "builder"; "correction_count";
    "has_water_corrections"; "has_zoning_corrections"; "has_pard_corrections" ].

(** [a?.f] through one or two optional levels. *)
Definition opt {A B : Type} (f : A -> option B) (a : option A) : option B :=
  match a with Some x => f x | None => None end.

(** [correctionDepts.includes(name)] *)
Definition depts_include (name : string) (correctionDepts : list jstring) : bool :=
  existsb (jeqb (str name)) correctionDepts.

(** The array built for one permit by the callback of [permits.map],
    before [.map(escapeCSV)]. *)
Definition csvRow (p : PermitComments.t) : list cell :=
  let living :=
    find (fun c => jeqb (BuildingClass.occupancy_class c) (str "R-3"))
         (PermitComments.building_classification p) in
  let garage :=
    find (fun c => jeqb (BuildingClass.occupancy_class c) (str "U"))
         (PermitComments.building_classification p) in
  let correctionDepts :=
    List.map (fun c => toLowerCase (CorrectionBlock.department c))
             (PermitComments.corrections p) in
  let totalCorrectionItems :=
    fold_left (fun sum c => sum + List.length (CorrectionBlock.items c))
              (PermitComments.corrections p) 0 in
  let zr := PermitComments.zoning_review p in
  let dim (f : ZoningReview.t -> option DimensionalValue.t)
          (g : DimensionalValue.t -> option number) :=
    cell_num (opt g (opt f zr)) in
  let sb (f : Setbacks.t -> option DimensionalValue.t)
         (g : DimensionalValue.t -> option number) :=
    cell_num (opt g (opt f (opt ZoningReview.setbacks zr))) in
  let pk (g : Parking.t -> option number) :=
    cell_num (opt g (opt ZoningReview.parking zr)) in
  [ CellStr (Application.number (PermitComments.application p));
    CellStr (Application.status (PermitComments.application p));
    cell_str (Application.date_submitted (PermitComments.application p));
    cell_str (Application.date_issued (PermitComments.application p));
    CellStr (Property.address (PermitComments.property p));
    cell_str (Property.parcel (PermitComments.property p));
    cell_str (Property.zoning (PermitComments.property p));
    cell_str (Property.subdivision (PermitComments.property p));
    cell_str (Property.lot (PermitComments.property p));
    cell_str (Property.block (PermitComments.property p));
    cell_str (PermitComments.description_of_work p);
    cell_str (Party.name (PermitComments.applicant p));
    cell_str (Party.name (PermitComments.owner p));
    cell_num (opt BuildingClass.square_feet living);
    cell_num (opt BuildingClass.square_feet garage);
    cell_str (opt ZoningReview.zoning_district zr);
    cell_str (opt ZoningReview.plat_number zr);
    cell_num (opt ZoningReview.slab_sf zr);
    cell_num (opt ZoningReview.lot_area_sf zr);
    dim ZoningReview.lot_coverage DimensionalValue.maximum;
    dim ZoningReview.lot_coverage DimensionalValue.provided;
    dim ZoningReview.height DimensionalValue.maximum;
    dim ZoningReview.height DimensionalValue.provided;
    dim ZoningReview.lot_width DimensionalValue.maximum;
    dim ZoningReview.lot_width DimensionalValue.provided;
    dim ZoningReview.driveway_coverage DimensionalValue.maximum;
    dim ZoningReview.driveway_coverage DimensionalValue.provided;
    sb Setbacks.front DimensionalValue.maximum;
    sb Setbacks.front DimensionalValue.provided;
    sb Setbacks.side_left DimensionalValue.maximum;
    sb Setbacks.side_left DimensionalValue.provided;
    sb Setbacks.side_right DimensionalValue.provided;
    sb Setbacks.rear DimensionalValue.maximum;
    sb Setbacks.rear DimensionalValue.provided;
    pk Parking.bedrooms;
    pk Parking.required;
    pk Parking.provided;
    cell_str (opt ZoningReview.ufc_permit zr);
    cell_str (opt ThirdPartyReview.company (PermitComments.third_party_review p));
    cell_str (opt ThirdPartyReview.tenant_builder (PermitComments.third_party_review p));
    CellCount totalCorrectionItems;
    CellBool (depts_include "water" correctionDepts);
    CellBool (depts_include "zoning" correctionDepts);
    CellBool (depts_include "pard" correctionDepts) ].

(** The column of a row under a given header. *)
Fixpoint column_of (hs : list string) (row : list cell) (name : string)
  : option cell :=
  match hs, row with
  | h :: hs', c :: row' =>
      if String.eqb h name then Some c else column_of hs' row' name
  | _, _ => None
  end.

Definition column (name : string) (p : PermitComments.t) : option cell :=
  column_of headers (csvRow p) name.

Section Render.

(** [String(n)] for a number is the shortest decimal text that reads
    back as [n]; it belongs to the runtime and is left as a parameter. *)
Variable number_to_string : number -> jstring.

Definition nat_to_string (n : nat) : jstring :=
  str (DecimalString.NilEmpty.string_of_uint (Nat.to_uint n)).

Definition cell_to_string (c : cell) : jstring :=
  match c with
  | CellNull => []
  | CellStr s => s
  | CellNum n => number_to_string n
  | CellCount n => nat_to_string n
  | CellBool true => str "true"
  | CellBool false => str "false"
  end.

Definition re_dquote : regex :=
  Eval vm_compute in the (parse_pattern "\x22").

Definition escapeCSV (val : cell) : jstring :=
  match val with
  | CellNull => []
  | _ =>
      let s := cell_to_string val in
      if includes (str ",") s || includes [DQ] s || includes [NL] s
      then [DQ] ++ replace_all no_flags re_dquote [DQ; DQ] s ++ [DQ]
      else s
  end.

Definition toCSV (permits : list PermitComments.t) : jstring :=
  let rows := List.map (fun p => List.map escapeCSV (csvRow p)) permits in
  join [NL] (join (str ",") (List.map str headers)
             :: List.map (fun r => join (str ",") r) rows).

End Render.

End Parse.

(* ================================================================== *)
(** * Vocabulary of the specification *)
(* ================================================================== *)

Module Spec.

Import Parse.

(** A run of decimal digits. *)
Definition digits (s : jstring) : Prop := Forall (fun c => is_digit c = true) s.

Definition spaces (s : jstring) : Prop := Forall (fun c => is_space c = true) s.

(** [F]: digits, with an optional fraction ([20], [20.5]). *)
Definition decimal (s : jstring) : Prop :=
  exists ip fp,
    s = ip ++ fp /\ digits ip /\ ip <> [] /\
    (fp = [] \/ exists fd, fp = 46%N :: fd /\ digits fd /\ fd <> []).

(** The sub-pattern [\d+(?:\.\d+)?] of the feet pattern, and the
    characters that could continue a text it has matched. *)
Definition dec_pat : regex :=
  Seq (Rep 1 None true (Cls false [CDigit]))
      (Rep 0 (Some 1) true
         (Seq (Chr 46%N) (Rep 1 None true (Cls false [CDigit])))).

Definition number_char (c : char) : bool := is_digit c || N.eqb c 46.

(** Rounded to two decimal places, as the source computes it. *)
Definition two_decimals (x : number) : number :=
  PrimFloat.div (Math_round (PrimFloat.mul x 100)) 100.

(** The same in exact arithmetic, for whole feet and whole inches.
    [F] feet [I] inches are [(300 F + 25 I) / 3] hundredths of a foot;
    [hundredths] is the nearest integer (no tie arises, the fraction
    being 0, 1/3 or 2/3) and [of_hundredths] the number nearest to that
    many hundredths. *)
Definition hundredths (F I : Z) : Z := ((2 * (300 * F + 25 * I) + 3) / 6)%Z.

Definition of_hundredths (h : Z) : number := of_decimal false h 0 (-2).

(** The number that a run of digits of value [n] is read as. *)
Definition whole (n : Z) : number := of_decimal false n 0 0.

(** The computation of the source gives the exact rounding on [F] feet
    and on [F] feet [I] inches; [exact_below] checks it on a range. *)
Definition exact_at (F I : Z) : bool :=
  PrimFloat.Leibniz.eqb (two_decimals (whole F)) (of_hundredths (hundredths F 0)) &&
  PrimFloat.Leibniz.eqb
    (two_decimals (PrimFloat.add (whole F) (PrimFloat.div (whole I) 12)))
    (of_hundredths (hundredths F I)).

Definition exact_below (nf ni : nat) : bool :=
  forallb (fun f => forallb (fun i => exact_at (Z.of_nat f) (Z.of_nat i)) (seq 0 ni))
          (seq 0 nf).

(** The number of hundredths nearest to [num / 10 ^ k], a tie going
    up. *)
Definition nearest_hundredth (num : Z) (k : nat) : Z :=
  ((200 * num + 10 ^ Z.of_nat k) / (2 * 10 ^ Z.of_nat k))%Z.


(** The computation of the source leaves a number of hundredths as it
    is, and a number of tenths is read as ten times as many hundredths;
    [all_from] checks such a fact on a range. *)
Definition fixed_at (n : Z) : bool :=
  let x := of_hundredths n in PrimFloat.Leibniz.eqb (two_decimals x) x.

Definition tenth_at (n : Z) : bool :=
  PrimFloat.Leibniz.eqb (of_decimal false n 0 (-1)) (of_hundredths (10 * n)).

Fixpoint all_from (f : Z -> bool) (z : Z) (n : nat) : bool :=
  match n with
  | 0 => true
  | S k => f z && all_from f (z + 1) k
  end.

(** [M/D/YYYY] or [MM/DD/YYYY]. *)
Definition date_text (mo d y : jstring) : jstring :=
  mo ++ 47%N :: d ++ 47%N :: y.

Definition date_parts (mo d y : jstring) : Prop :=
  digits mo /\ digits d /\ digits y /\
  1 <= List.length mo <= 2 /\ 1 <= List.length d <= 2 /\ List.length y = 4.

(** The text contains a date with a four-digit year. *)
Definition contains_date (text : jstring) : Prop :=
  exists pre mo d y post,
    text = pre ++ date_text mo d y ++ post /\ date_parts mo d y.

(** [YYYY-MM-DD] with zero-padded month and day. *)
Definition canonical_date (mo d y : jstring) : jstring :=
  y ++ str "-" ++ padStart0 2 mo ++ str "-" ++ padStart0 2 d.

(** A section anchor is absent from the document; the anchors are
    matched under the [i] flag, so the case of the letters is ignored. *)
Definition anchor_absent (anchor : string) (content : jstring) : Prop :=
  occurs flag_i (str anchor) content = false.

(** A dimensional value with at least one side. *)
Definition side_known (d : option DimensionalValue.t) : Prop :=
  forall v, d = Some v ->
    DimensionalValue.maximum v <> None \/ DimensionalValue.provided v <> None.

Definition all_null_setbacks (s : Setbacks.t) : Prop :=
  Setbacks.front s = None /\ Setbacks.side_left s = None /\
  Setbacks.side_right s = None /\ Setbacks.rear s = None.

Definition all_null_parking (k : Parking.t) : Prop :=
  Parking.bedrooms k = None /\ Parking.required k = None /\
  Parking.provided k = None.





(** The sequence numbers of the items of a block, in order. *)
Definition item_numbers (cb : CorrectionBlock.t) : list number :=
  List.map CorrectionItem.number (CorrectionBlock.items cb).


(** [c] is a piece of the text [s]. *)
Definition substring (c s : jstring) : Prop := exists p q, s = p ++ c ++ q.






(** No parent holds only null children: the setbacks and the parking of
    a zoning review are absent when none of their fields was recovered. *)
Definition no_hollow_parent (p : PermitComments.t) : Prop :=
  forall zr, PermitComments.zoning_review p = Some zr ->
    (forall s, ZoningReview.setbacks zr = Some s -> ~ all_null_setbacks s) /\
    (forall k, ZoningReview.parking zr = Some k -> ~ all_null_parking k).


(** The zoning section of a document: what the section pattern
    captures. *)
Definition zoning_section (content zc : jstring) : Prop :=
  exists zm,
    js_match flag_i re_zoning_section content = Some zm /\ group 1 zm = Some zc.

(** The lot coverage that a match of a variant supplies: its two
    captures read as percentages, and no value at all when neither
    reads as a number. *)
Definition captured_coverage (mt : match_result) : option DimensionalValue.t :=
  match parsePercent (group 1 mt), parsePercent (group 2 mt) with
  | None, None => None
  | maximum, provided => Some (DimensionalValue.mk maximum provided)
  end.

(** The field of a row of texts under a given header of the flat
    output. *)
Fixpoint field_of (hs : list string) (row : list jstring) (name : string)
  : option jstring :=
  match hs, row with
  | h :: hs', c :: row' =>
      if String.eqb h name then Some c else field_of hs' row' name
  | _, _ => None
  end.

Definition field (name : string) (row : list jstring) : option jstring :=
  field_of headers row name.


End Spec.

(* ================================================================== *)
(** * Example documents *)
(* ================================================================== *)

Module Examples.

Local Open Scope string_scope.

(** A zoning section with no recognizable field. *)
Definition doc_zoning_only : jstring := str "Zoning Plans Exam".

(** A zoning section with one front-setback line. *)
Definition doc_front_setback : jstring :=
  (str "Zoning Plans Exam" ++ [NL] ++
   str "Front: 20' minimum (Provided 26' 8" ++ [DQ] ++ str ")")%list.

(** A department block that prints item 2 before item 1. *)
Definition doc_out_of_order : jstring :=
  text_of_lines
    [ "Required Corrections:"; "Water"; "Reviewer: Bob";
      "2. second"; "1. first"; "Approval Table:" ].


(** Two department blocks of two items each. *)
Definition doc_two_departments : jstring :=
  text_of_lines
    [ "Required Corrections:";
      "Water"; "Reviewer: John Smith"; "Email: js@fw.gov"; "Phone: 817-392-1234";
      "1. Fix pipe"; "2. Add meter";
      "Zoning"; "Reviewer: Jane Doe"; "Email: jd@fw.gov"; "Phone: 817-392-0000";
      "1. Setback"; "2. Height";
      "Approval Table:" ].

(** A header and nothing else. *)
Definition doc_no_sections : jstring :=
  text_of_lines [ "Application: PB25-16985"; "Address: 123 MAIN ST" ].

(** A lot coverage line that the first two variants both match. *)
Definition text_lot_coverage : jstring :=
  str "Lot coverage: 55% maximum: 30% (Provided 19%)".

(** A zoning section made of that line. *)
Definition doc_lot_coverage : jstring :=
  (str "Zoning Plans Exam" ++ [NL] ++ text_lot_coverage)%list.

(** Patterns and results from the notes of the ECMAScript
    specification, against which the matcher is checked. *)
Definition re_note_alternatives : regex :=
  Eval vm_compute in the (parse_pattern "((a)|(ab))((c)|(bc))").
Definition re_note_greedy : regex :=
  Eval vm_compute in the (parse_pattern "a[a-z]{2,4}").
Definition re_note_lazy : regex :=
  Eval vm_compute in the (parse_pattern "a[a-z]{2,4}?").
Definition re_note_choice_star : regex :=
  Eval vm_compute in the (parse_pattern "(aa|aabaac|ba|b|c)*").
Definition re_note_reset : regex :=
  Eval vm_compute in the (parse_pattern "(z)((a+)?(b+)?(c))*").
Definition re_note_empty_star : regex :=
  Eval vm_compute in the (parse_pattern "(a*)*").
Definition re_note_lookahead : regex :=
  Eval vm_compute in the (parse_pattern "(?=(a+))a*b").
Definition re_not_l : regex :=
  Eval vm_compute in the (parse_pattern "[^l]").
Definition re_line_start : regex :=
  Eval vm_compute in the (parse_pattern "^b$").
Definition re_x_star : regex :=
  Eval vm_compute in the (parse_pattern "x*").
Definition re_comma : regex :=
  Eval vm_compute in the (parse_pattern ",").
Definition re_before_b : regex :=
  Eval vm_compute in the (parse_pattern "(?=b)").

(** A document whose applicant name holds a carriage return. *)
Definition doc_cr_name : jstring := str "Applicant: A" ++ 13%N :: str "B".

End Examples.

Unset Implicit Arguments.

(* ================================================================== *)
(** * Properties of texts and of records *)
(* ================================================================== *)

(** ** What a pattern can consume *)

Module Shape.

(** The bodies of the groups numbered [i] of a pattern. *)
Fixpoint bodies (i : nat) (r : regex) : list regex :=
  match r with
  | Seq a b | Alt a b => bodies i a ++ bodies i b
  | Grp j a => (if Nat.eqb i j then [a] else []) ++ bodies i a
  | Rep _ _ _ a | Look a => bodies i a
  | _ => []
  end.

(** [n] texts of [L] one after the other. *)
Fixpoint lang_iter (L : jstring -> Prop) (n : nat) (s : jstring) : Prop :=
  match n with
  | 0 => s = []
  | S n' => exists s1 s2, s = s1 ++ s2 /\ L s1 /\ lang_iter L n' s2
  end.

(** The texts a pattern can consume, whatever stands around them. *)
Fixpoint lang (fl : flags) (r : regex) (s : jstring) : Prop :=
  match r with
  | Eps | Bol | Eol | Look _ => s = []
  | Chr p => exists c, s = [c] /\ chr_match fl p c = true
  | Dot => exists c, s = [c] /\ dot_match fl c = true
  | Cls neg items => exists c, s = [c] /\ cls_match fl neg items c = true
  | Seq a b => exists s1 s2, s = s1 ++ s2 /\ lang fl a s1 /\ lang fl b s2
  | Alt a b => lang fl a s \/ lang fl b s
  | Grp _ a => lang fl a s
  | Rep mn mx _ a => exists n, within n mn mx /\ lang_iter (lang fl a) n s
  end.

End Shape.

(** ** Shapes of the fields *)

Module Props.

Import Parse.
Import Spec.

(** Runs of white space replaced by one space; [sp] tells that the
    character before was white space. *)
Fixpoint squeeze (sp : bool) (s : jstring) : jstring :=
  match s with
  | [] => []
  | c :: t =>
      if is_space c then (if sp then squeeze true t else 32%N :: squeeze true t)
      else c :: squeeze false t
  end.

Definition starts_word (t : jstring) : bool :=
  match t with
  | c :: _ => negb (is_space c)
  | [] => false
  end.

(** The words of a text: its maximal runs of characters that are not
    white space. *)
Fixpoint words (s : jstring) : list jstring :=
  match s with
  | [] => []
  | c :: t =>
      if is_space c then words t
      else if starts_word t then
        match words t with
        | w :: ws => (c :: w) :: ws
        | [] => [[c]]
        end
      else [c] :: words t
  end.

Definition word (w : jstring) : Prop :=
  w <> [] /\ Forall (fun c => is_space c = false) w.

(** The texts of a pattern made of characters, sequences and
    alternatives only. *)
Fixpoint literals (r : regex) : option (list jstring) :=
  match r with
  | Eps => Some [[]]
  | Chr c => Some [[c]]
  | Seq a b =>
      match literals a, literals b with
      | Some la, Some lb => Some (flat_map (fun x => List.map (app x) lb) la)
      | _, _ => None
      end
  | Alt a b =>
      match literals a, literals b with
      | Some la, Some lb => Some (la ++ lb)
      | _, _ => None
      end
  | Grp _ a => literals a
  | _ => None
  end.

(** The values of the status column that the task pattern accepts. *)
Definition task_statuses : list jstring :=
  List.map str
    [ "Approved"; "Not Required"; "Routed for Electronic Review"; "Issued";
      "Opt-Out"; "Corrections Required"; "Finaled"; "Close"; "Pending" ]%string.

(** The construction types that the row pattern accepts. *)
Definition construction_types : list jstring :=
  List.map str [ "VB"; "VA"; "IIIA"; "IIIB"; "IIA"; "IIB"; "IA"; "IB" ]%string.

Definition is_letter (c : char) : bool := is_upper c || is_lower c.

(** [R] or [U], an optional hyphen, digits: [R-3], [U], [R3]. *)
Definition occupancy_code (s : jstring) : Prop :=
  exists c dash ds,
    s = c :: dash ++ ds /\ (c = 82%N \/ c = 85%N) /\
    (dash = [] \/ dash = [45%N]) /\ digits ds.

(** [YYYY-MM-DD]: four, two and two digits. *)
Definition iso_date (s : jstring) : Prop :=
  exists y mo d,
    s = y ++ str "-" ++ mo ++ str "-" ++ d /\
    digits y /\ digits mo /\ digits d /\
    List.length y = 4 /\ List.length mo = 2 /\ List.length d = 2.

Definition iso_or_null (o : option jstring) : Prop :=
  forall s, o = Some s -> iso_date s.

(** Every date of a record. *)
Definition dates_of (p : PermitComments.t) : list (option jstring) :=
  [ Application.date_submitted (PermitComments.application p);
    Application.date_issued (PermitComments.application p) ]
  ++ flat_map (fun cb => List.map CorrectionItem.date (CorrectionBlock.items cb))
              (PermitComments.corrections p)
  ++ List.map ApprovalTask.completed_date (PermitComments.approval_tasks p)
  ++ match PermitComments.third_party_review p with
     | Some t => [ThirdPartyReview.plan_review_date t]
     | None => []
     end.

(** Words of letters with one space between them, at least one word. *)
Definition letter_words (s : jstring) : Prop :=
  exists ws,
    ws <> [] /\ s = join (str " ") ws /\
    Forall (fun w => w <> [] /\ Forall (fun c => is_letter c = true) w) ws.

(** [PB], digits, a hyphen, digits; the letters in either case. *)
Definition permit_number (s : jstring) : Prop :=
  exists p b d1 d2,
    s = p :: b :: d1 ++ 45%N :: d2 /\
    (p = 80%N \/ p = 112%N) /\ (b = 66%N \/ b = 98%N) /\
    digits d1 /\ d1 <> [] /\ digits d2 /\ d2 <> [].

(** Letters, digits and hyphens. *)
Definition zoning_char (c : char) : bool := is_letter c || is_digit c || N.eqb c 45.

(** The alternatives of a pattern. *)
Fixpoint alternatives (r : regex) : list regex :=
  match r with
  | Alt a b => alternatives a ++ alternatives b
  | _ => [r]
  end.

(** A dimensional value that is present has its first side, the
    required maximum or minimum. *)
Definition has_required (d : option DimensionalValue.t) : Prop :=
  forall v, d = Some v -> DimensionalValue.maximum v <> None.

(** What may stand between feet and inches: an apostrophe with white
    space around it, or white space alone. *)
Definition feet_gap (gap : jstring) : Prop :=
  exists ws1 ws2,
    spaces ws1 /\ spaces ws2 /\
    (gap = ws1 ++ 39%N :: ws2 \/ (gap = ws1 /\ ws2 = [])).

Definition feet_separator (sep : jstring) : Prop := feet_gap sep /\ sep <> [].

(** A comma or a percent sign. *)
Definition is_separator (c : char) : bool := N.eqb c 44 || N.eqb c 37.

(** The three ways a telephone number is written: ten digits,
    [ddd-ddd-dddd], or [(ddd) ddd-dddd] with optional white space after
    the parenthesis. *)
Definition phone_text (s : jstring) : Prop :=
  (digits s /\ List.length s = 10) \/
  (exists a b c,
     s = a ++ 45%N :: b ++ 45%N :: c /\ digits a /\ digits b /\ digits c /\
     List.length a = 3 /\ List.length b = 3 /\ List.length c = 4) \/
  (exists a ws b c,
     s = 40%N :: a ++ 41%N :: ws ++ b ++ 45%N :: c /\
     digits a /\ spaces ws /\ digits b /\ digits c /\
     List.length a = 3 /\ List.length b = 3 /\ List.length c = 4).

(** A party with no name has no address and no telephone either. *)
Definition named_or_empty (p : Party.t) : Prop :=
  Party.name p = None -> Party.address p = None /\ Party.phone p = None.

(** The label does not start inside [pre]: in a document [pre ++ label
    ++ ...] the occurrence after [pre] is the first one. *)
Definition first_label (label : string) (pre : jstring) : Prop :=
  occurs flag_i (str label) (pre ++ removelast (str label)) = false.

(** Words with one space between them: no white space at either end,
    no line break, no tab, no two spaces in a row. *)
Definition normal_text (s : jstring) : Prop :=
  exists ws, Forall word ws /\ s = join (str " ") ws.

Definition present (o : option jstring) : list jstring :=
  match o with
  | Some s => [s]
  | None => []
  end.

(** The texts of a record that went through [cleanText]. *)
Definition cleaned_texts_of (p : PermitComments.t) : list jstring :=
  [ Application.status (PermitComments.application p);
    Property.address (PermitComments.property p) ]
  ++ present (Property.subdivision (PermitComments.property p))
  ++ present (PermitComments.description_of_work p)
  ++ List.map BuildingClass.use_description (PermitComments.building_classification p)
  ++ flat_map (fun cb =>
                 CorrectionBlock.department cb
                 :: present (Reviewer.name (CorrectionBlock.reviewer cb))
                 ++ present (Reviewer.email (CorrectionBlock.reviewer cb))
                 ++ present (Reviewer.phone (CorrectionBlock.reviewer cb))
                 ++ List.map CorrectionItem.text (CorrectionBlock.items cb))
              (PermitComments.corrections p)
  ++ flat_map (fun t =>
                 ApprovalTask.task_name t :: ApprovalTask.status t
                 :: present (ApprovalTask.reviewer_name t))
              (PermitComments.approval_tasks p)
  ++ match PermitComments.zoning_review p with
     | Some zr => present (ZoningReview.zoning_district zr)
                  ++ present (ZoningReview.plat_name zr)
     | None => []
     end
  ++ match PermitComments.third_party_review p with
     | Some t => present (ThirdPartyReview.reviewed_by t)
                 ++ present (ThirdPartyReview.tenant_builder t)
     | None => []
     end.

Definition party_strings (q : Party.t) : list (option jstring) :=
  [Party.name q; Party.address q; Party.phone q].

(** The texts of a record that the source replaces by [null] when they
    are empty. *)
Definition optional_strings_of (p : PermitComments.t) : list (option jstring) :=
  [ Property.parcel (PermitComments.property p);
    Property.zoning (PermitComments.property p);
    Property.subdivision (PermitComments.property p);
    Property.lot (PermitComments.property p);
    Property.block (PermitComments.property p) ]
  ++ party_strings (PermitComments.applicant p)
  ++ party_strings (PermitComments.owner p)
  ++ flat_map (fun cb =>
                 [ Reviewer.name (CorrectionBlock.reviewer cb);
                   Reviewer.email (CorrectionBlock.reviewer cb);
                   Reviewer.phone (CorrectionBlock.reviewer cb) ])
              (PermitComments.corrections p)
  ++ List.map ApprovalTask.reviewer_name (PermitComments.approval_tasks p)
  ++ match PermitComments.zoning_review p with
     | Some zr => [ ZoningReview.zoning_district zr; ZoningReview.plat_name zr;
                    ZoningReview.plat_number zr; ZoningReview.ufc_permit zr ]
     | None => []
     end
  ++ match PermitComments.third_party_review p with
     | Some t => [ ThirdPartyReview.reviewed_by t; ThirdPartyReview.tenant_builder t ]
     | None => []
     end.

(** The pattern [p] starts at a position inside [body], in the text
    [body ++ tail]. *)
Fixpoint starts_inside (fl : flags) (p body tail : jstring) : bool :=
  match body with
  | [] => false
  | _ :: b => starts_with_pattern fl p (body ++ tail) || starts_inside fl p b tail
  end.

(** The texts that end the corrections section. *)
Definition corrections_terminators : list string :=
  [ "Approval Table:"; "General Comments" ]%string.

(** [t] is the first terminator after [body]: it is one of the
    terminators, and none of them starts inside [body], in any case. *)
Definition closes (terminators : list string) (body : jstring) (t : string) : Prop :=
  In t terminators /\
  forall t', In t' terminators -> starts_inside flag_i (str t') body (str t) = false.

(** What follows the capture in the corrections pattern. *)
Definition corrections_end : regex := Eval vm_compute in drop_terms 22 re_corrections.

End Props.

(** ** Sample documents *)

Module Documents.

(** A corrections section that runs to the end of the document. *)
Definition doc_open_corrections : jstring :=
  text_of_lines
    [ "Required Corrections:"; "Water"; "Reviewer: Bob"; "1. Fix pipe" ]%string.

(** A building table that runs to the end of the document. *)
Definition doc_open_building : jstring :=
  text_of_lines
    [ "Building Classification:";
      "Occ Class  Const Type  Square Feet  Occ Load  Use Description";
      "R-3  VB  1604  8  LIVING SPACE" ]%string.

(** A document with every section. *)
Definition doc_sample : jstring :=
  text_of_lines
    [ "Application: PB25-16985    Status: Issued    Date Submitted: 9/3/2025";
      "Date Issued: 10/14/2025";
      "Address: 123 MAIN ST";
      "Parcel: 04629981    Zoning: A-5";
      "Subdivision: OAK HILLS  Lot/Block: 12R / 3";
      "Description of Work: New   single family";
      "residence";
      "";
      "Applicant: ACME HOMES LLC";
      "1 ELM ST";
      "8175551234  Owner: DOE JOHN";
      "2 OAK AVE";
      "(817) 555-0000";
      "Building Classification:";
      "Occ Class  Const Type  Square Feet  Occ Load  Use Description";
      "R-3  VB  1604  8  LIVING SPACE";
      "Required Corrections:";
      "Water";
      "Reviewer: John Smith";
      "Email: js@fw.gov";
      "Phone: 817-392-1234";
      "1. 9/5/2025 - Fix   pipe";
      "2. Add meter";
      "Approval Table:";
      "Task Name  Task Status  Completed Date  Task Rev Name";
      "Application Intake  Approved  9/4/2025  Ann Lee";
      "Water Review  Corrections Required  9/5/2025  John Smith";
      "General Comments";
      "Zoning Plans Exam";
      "Zoning district: A-5";
      "Height: 35' maximum (Provided 24' 6)";
      "Lot Width: 50' minimum (Provided 60.5')";
      "Front: 20' minimum (Provided 26' 8)";
      "Sides: 5' minimum (Provided 5' 6 & 7')";
      "Rear: 5' minimum (Provided 30')";
      "INFORMATION BLOCK";
      "Plan Review Performed On: 8/29/2025";
      "By: Pat Jones";
      "Name of Tenant: ACME HOMES";
      "BUILDING" ]%string.

End Documents.

(** ** A reader of CSV text *)

Module Csv.

Import Parse.

(** A reader of comma-separated text: records end at a line feed,
    fields at a comma; a field that opens with a double quote runs to
    the closing one, a doubled quote inside it standing for one.
    [field] is the current field in reverse, [row] the fields of the
    current record in reverse. *)
Inductive csv_mode : Type := AtStart | InPlain | InQuoted | AfterQuote.

Fixpoint read_csv (mode : csv_mode) (field : jstring) (row : list jstring)
    (s : jstring) : list (list jstring) :=
  match s with
  | [] => [rev (rev field :: row)]
  | c :: t =>
      match mode with
      | InQuoted =>
          if N.eqb c 34 then read_csv AfterQuote field row t
          else read_csv InQuoted (c :: field) row t
      | AtStart =>
          if N.eqb c 34 then read_csv InQuoted field row t
          else if N.eqb c 44 then read_csv AtStart [] (rev field :: row) t
          else if N.eqb c 10 then rev (rev field :: row) :: read_csv AtStart [] [] t
          else read_csv InPlain (c :: field) row t
      | InPlain =>
          if N.eqb c 44 then read_csv AtStart [] (rev field :: row) t
          else if N.eqb c 10 then rev (rev field :: row) :: read_csv AtStart [] [] t
          else read_csv InPlain (c :: field) row t
      | AfterQuote =>
          if N.eqb c 34 then read_csv InQuoted (c :: field) row t
          else if N.eqb c 44 then read_csv AtStart [] (rev field :: row) t
          else if N.eqb c 10 then rev (rev field :: row) :: read_csv AtStart [] [] t
          else read_csv InPlain (c :: field) row t
      end
  end.

Definition parse_csv (s : jstring) : list (list jstring) := read_csv AtStart [] [] s.

(** A comma, a double quote or a line feed. *)
Definition is_special (c : char) : bool := N.eqb c 44 || N.eqb c 34 || N.eqb c 10.

(** The text of a record in a CSV file: the fields, each quoted as
    [escapeCSV] quotes it, with commas between them. *)
Definition quote_field (s : jstring) : jstring :=
  if existsb is_special s
  then [DQ] ++ flat_map (fun c => if N.eqb c 34 then [DQ; DQ] else [c]) s ++ [DQ]
  else s.

(** What the reader does once a field is complete. *)
Definition finish (fields : list jstring) (rest : jstring) : list (list jstring) :=
  match rest with
  | [] => [rev fields]
  | c :: t =>
      if N.eqb c 44 then read_csv AtStart [] fields t
      else rev fields :: read_csv AtStart [] [] t
  end.

Definition field_end (rest : jstring) : Prop :=
  match rest with
  | [] => True
  | c :: _ => c = 44%N \/ c = 10%N
  end.

(** A reader that also ends a record at a carriage return, and takes a
    carriage return and a line feed together as one end of record;
    inside a quoted field both are ordinary characters.  [after_cr]
    tells that the character before was a carriage return that ended a
    record. *)
Fixpoint read_lines (mode : csv_mode) (after_cr : bool) (field : jstring)
    (row : list jstring) (s : jstring) : list (list jstring) :=
  match s with
  | [] => [rev (rev field :: row)]
  | c :: t =>
      match mode with
      | InQuoted =>
          if N.eqb c 34 then read_lines AfterQuote false field row t
          else read_lines InQuoted false (c :: field) row t
      | AtStart =>
          if N.eqb c 34 then read_lines InQuoted false field row t
          else if N.eqb c 44 then read_lines AtStart false [] (rev field :: row) t
          else if N.eqb c 10 then
            if after_cr then read_lines AtStart false field row t
            else rev (rev field :: row) :: read_lines AtStart false [] [] t
          else if N.eqb c 13 then rev (rev field :: row) :: read_lines AtStart true [] [] t
          else read_lines InPlain false (c :: field) row t
      | InPlain =>
          if N.eqb c 44 then read_lines AtStart false [] (rev field :: row) t
          else if N.eqb c 10 then rev (rev field :: row) :: read_lines AtStart false [] [] t
          else if N.eqb c 13 then rev (rev field :: row) :: read_lines AtStart true [] [] t
          else read_lines InPlain false (c :: field) row t
      | AfterQuote =>
          if N.eqb c 34 then read_lines InQuoted false (c :: field) row t
          else if N.eqb c 44 then read_lines AtStart false [] (rev field :: row) t
          else if N.eqb c 10 then rev (rev field :: row) :: read_lines AtStart false [] [] t
          else if N.eqb c 13 then rev (rev field :: row) :: read_lines AtStart true [] [] t
          else read_lines InPlain false (c :: field) row t
      end
  end.

Definition parse_csv_lines (s : jstring) : list (list jstring) :=
  read_lines AtStart false [] [] s.

(** The text holds no carriage return. *)
Definition no_cr (s : jstring) : Prop := ~ In 13%N s.

End Csv.

(** ** The file loop of [main] *)

Module Batch.

Import Parse.

Local Open Scope outcome_scope.

Section Batch.

(** [fs.readFileSync(filepath, "utf-8")]: the text of the file, or
    [None] when the read raises. *)
Variable readFileSync : jstring -> option jstring.

(** [processFile]: an exception raised while the file is read or parsed
    is caught and gives [null]. *)
Definition processFile (filepath : jstring) (includeRaw : bool)
  : outcome (option PermitComments.t) :=
  match readFileSync filepath with
  | None => Ok None
  | Some content =>
      match parsePermitComments content includeRaw with
      | Ok p => Ok (Some p)
      | Throw _ => Ok None
      | Diverge => Diverge
      end
  end.

(** The variables of the file loop of [main]. *)
Record tally : Type := Tally {
  permits : list PermitComments.t;
  successCount : nat;
  errorCount : nat
}.

(** [for (const file of files) ...] *)
Fixpoint files_loop (files : list jstring) (includeRaw : bool) (acc : tally)
  : outcome tally :=
  match files with
  | [] => Ok acc
  | file :: files' =>
      result <- processFile file includeRaw ;;
      files_loop files' includeRaw
        (match result with
         | Some p => Tally (permits acc ++ [p]) (S (successCount acc)) (errorCount acc)
         | None => Tally (permits acc) (successCount acc) (S (errorCount acc))
         end)
  end.

Definition process_files (files : list jstring) (includeRaw : bool) : outcome tally :=
  files_loop files includeRaw (Tally [] 0 0).

Definition readable (file : jstring) : bool :=
  match readFileSync file with Some _ => true | None => false end.

(** The record of a file that can be read. *)
Definition record_of (includeRaw : bool) (file : jstring) (p : PermitComments.t) : Prop :=
  exists content,
    readFileSync file = Some content /\ parsePermitComments content includeRaw = Ok p.

End Batch.

End Batch.

(* ================================================================== *)
(** * Facts about the matcher *)
(* ================================================================== *)

(** ** The matcher on known results *)

Module Conformance.

Import Examples.
Import Parse.

(** The left alternative is tried first, and the groups of the
    alternative not taken stay undefined. *)
Example note_alternatives :
  exists mr, js_match no_flags re_note_alternatives (str "abc") = Some mr /\
    mr_text mr = str "abc" /\
    group 1 mr = Some (str "a") /\ group 2 mr = Some (str "a") /\ group 3 mr = None /\
    group 4 mr = Some (str "bc") /\ group 5 mr = None /\ group 6 mr = Some (str "bc").
Proof. eexists. split; [vm_compute; reflexivity|]. repeat split. Qed.

(** A greedy bounded repetition takes its maximum, a lazy one its
    minimum. *)
Example note_greedy_lazy :
  (exists mr, js_match no_flags re_note_greedy (str "abcdefghi") = Some mr /\
              mr_text mr = str "abcde") /\
  (exists mr, js_match no_flags re_note_lazy (str "abcdefghi") = Some mr /\
              mr_text mr = str "abc").
Proof. split; eexists; (split; [vm_compute; reflexivity|reflexivity]). Qed.

(** Under a star the choice is by priority, not by length, and the
    group keeps its last iteration. *)
Example note_choice_star :
  exists mr, js_match no_flags re_note_choice_star (str "aabaac") = Some mr /\
    mr_text mr = str "aaba" /\ group 1 mr = Some (str "ba").
Proof. eexists. split; [vm_compute; reflexivity|]. repeat split. Qed.

(** Each iteration of a repetition resets the groups inside it: the
    fourth group, set in the second iteration, is undefined at the end. *)
Example note_reset :
  exists mr, js_match no_flags re_note_reset (str "zaacbbbcac") = Some mr /\
    mr_text mr = str "zaacbbbcac" /\
    group 1 mr = Some (str "z") /\ group 2 mr = Some (str "ac") /\
    group 3 mr = Some (str "a") /\ group 4 mr = None /\ group 5 mr = Some (str "c").
Proof. eexists. split; [vm_compute; reflexivity|]. repeat split. Qed.

(** An iteration that consumes nothing is rejected, so the group of a
    starred empty match stays undefined. *)
Example note_empty_star :
  exists mr, js_match no_flags re_note_empty_star (str "b") = Some mr /\
    mr_text mr = [] /\ group 1 mr = None.
Proof. eexists. split; [vm_compute; reflexivity|]. repeat split. Qed.

(** A look-ahead consumes nothing and keeps its captures. *)
Example note_lookahead :
  exists mr, js_match no_flags re_note_lookahead (str "baaabac") = Some mr /\
    mr_index mr = 1 /\ mr_text mr = str "aaab" /\ group 1 mr = Some (str "aaa").
Proof. eexists. split; [vm_compute; reflexivity|]. repeat split. Qed.

(** Under [i] a negated class rejects both cases of a letter. *)
Example negated_class_ignores_case :
  js_match flag_i re_not_l (str "Ll") = None /\
  (exists mr, js_match no_flags re_not_l (str "Ll") = Some mr /\ mr_text mr = str "L").
Proof. split; [vm_compute; reflexivity|]. eexists. split; [vm_compute; reflexivity|reflexivity]. Qed.

(** [^] and [$] see the lines only under [m]. *)
Example anchors_and_lines :
  js_match no_flags re_line_start (text_of_lines ["a"; "b"; "c"]%string) = None /\
  (exists mr, js_match flag_m re_line_start (text_of_lines ["a"; "b"; "c"]%string) = Some mr /\
              mr_index mr = 2).
Proof. split; [vm_compute; reflexivity|]. eexists. split; [vm_compute; reflexivity|reflexivity]. Qed.

(** A global replacement also replaces the empty matches, one between
    any two characters that no longer match covers. *)
Example replace_with_empty_matches :
  replace_all no_flags re_x_star (str "-") (str "abxxc") = str "-a-b--c-".
Proof. vm_compute. reflexivity. Qed.

(** [split] keeps empty pieces between separators, never splits at an
    empty match at the position it stands on, and maps the empty string
    to one empty piece unless the separator matches it. *)
Example split_examples :
  split_re no_flags re_comma (str "a,b,,c,") = [str "a"; str "b"; []; str "c"; []] /\
  split_re no_flags re_x_star (str "abxxc") = [str "a"; str "b"; str "c"] /\
  split_re no_flags re_before_b (str "abcabc") = [str "a"; str "bca"; str "bc"] /\
  split_re no_flags re_comma [] = [[]] /\
  split_re no_flags re_x_star [] = [].
Proof. repeat split; vm_compute; reflexivity. Qed.

(** [cleanText] collapses white space and trims. *)
Example cleanText_example :
  cleanText (text_of_lines ["  a   b"; "c  "]%string) = str "a b c".
Proof. vm_compute. reflexivity. Qed.

(** [parseFloat] and [parseInt] read the longest numeric prefix. *)
Example parseFloat_examples :
  parseFloat (str "26.67") = 26.67%float /\
  parseFloat (str "  -12.5e-2xyz") = (-0.125)%float /\
  parseFloat (str "1.2.3") = 1.2%float /\
  parseFloat (str ".5") = 0.5%float /\
  parseFloat (str "5.") = 5%float /\
  PrimFloat.is_nan (parseFloat (str ".")) = true /\
  PrimFloat.is_nan (parseFloat (str "abc")) = true /\
  parseFloat (str "9007199254740993") = 9007199254740992%float /\
  parseFloat (str "1e400") = infinity.
Proof. repeat split; vm_compute; reflexivity. Qed.

Example parseInt_examples :
  parseInt (str "12abc") = 12%float /\
  parseInt (str " 42") = 42%float /\
  parseInt (str "0x1F") = 31%float /\
  PrimFloat.is_nan (parseInt (str "abc")) = true /\
  PrimFloat.is_nan (parseInt (str "undefined")) = true.
Proof. repeat split; vm_compute; reflexivity. Qed.

(** [Math.round] sends a tie toward plus infinity. *)
Example Math_round_examples :
  Math_round 2.5%float = 3%float /\
  Math_round (-2.5)%float = (-2)%float /\
  Math_round 2666.666666666667%float = 2667%float /\
  Math_round 0.49999999999999994%float = 0%float /\
  Math_round 4503599627370497%float = 4503599627370497%float.
Proof. repeat split; vm_compute; reflexivity. Qed.

End Conformance.

Module RegexFacts.

Lemma first_some (A : Type) (a b : option A) (z : A) :
  match a with Some v => Some v | None => b end = Some z ->
  a = Some z \/ (a = None /\ b = Some z).
Proof. destruct a; intros H; [left; exact H | right; split; [reflexivity | exact H]]. Qed.

Section Soundness.
Variable fl : flags.

Lemma rep_sound (body : mstate -> cont -> option mstate)
    (R : mstate -> mstate -> Prop) gs greedy :
  (forall x k z, body x k = Some z -> exists y, R x y /\ k y = Some z) ->
  forall fuel mn mx x k z,
    rep body gs greedy fuel mn mx x k = Some z ->
    exists n y, within n mn mx /\
      iter (fun u v => R (with_caps u (clear_caps gs (ms_caps u))) v) n x y /\
      k y = Some z.
Proof.
  intros Hb. induction fuel as [|fuel IH]; intros mn mx x k z H; simpl in H; [discriminate|].
  destruct (is_zero mx) eqn:Hz.
  { exists 0, x. split; [|split; [reflexivity|assumption]].
    destruct mx as [[|?]|]; try discriminate. unfold within; simpl; lia. }
  assert (Hiter: forall zz,
    body (MState (ms_prev x) (ms_rest x) (clear_caps gs (ms_caps x)))
      (fun y => if Nat.eqb mn 0 && Nat.eqb (List.length (ms_rest y)) (List.length (ms_rest x))
                then None else rep body gs greedy fuel (pred mn) (option_map pred mx) y k) = Some zz ->
    exists n y, within n mn mx /\
      iter (fun u v => R (with_caps u (clear_caps gs (ms_caps u))) v) n x y /\ k y = Some zz).
  { intros zz Hzz. apply Hb in Hzz. destruct Hzz as (y1 & HR & Hk).
    destruct (Nat.eqb mn 0 && Nat.eqb (List.length (ms_rest y1)) (List.length (ms_rest x))); [discriminate|].
    apply IH in Hk. destruct Hk as (n & y & Hw & Hit & Hk).
    exists (S n), y. split; [|split; [|assumption]].
    - unfold within in *.
      destruct mx as [[|mx']|]; simpl in *; try discriminate; lia.
    - simpl. exists y1. split; assumption. }
  assert (Hzero: forall zz, mn = 0 -> k x = Some zz ->
    exists n y, within n mn mx /\
      iter (fun u v => R (with_caps u (clear_caps gs (ms_caps u))) v) n x y /\ k y = Some zz).
  { intros zz -> Hk. exists 0, x. split; [|split; [reflexivity|assumption]].
    unfold within. destruct mx; simpl; lia. }
  destruct mn as [|mn']; simpl in H, Hiter.
  - destruct greedy; apply first_some in H; destruct H as [H | [_ H]].
    + apply Hiter. exact H.
    + apply Hzero; [reflexivity|assumption].
    + apply Hzero; [reflexivity|assumption].
    + apply Hiter. exact H.
  - apply Hiter. exact H.
Qed.

(** Every state the matcher hands to its continuation is a match. *)
Theorem m_sound : forall r x k z,
  m fl r x k = Some z -> exists y, matches fl r x y /\ k y = Some z.
Proof.
  induction r; intros x k z H; simpl in H |- *.
  - eauto.
  - destruct (ms_rest x) as [|c0 rest] eqn:E; [discriminate|].
    destruct (chr_match fl c c0) eqn:Hc; [|discriminate]. eauto 10.
  - destruct (ms_rest x) as [|c rest] eqn:E; [discriminate|].
    destruct (dot_match fl c) eqn:Hc; [|discriminate]. eauto 10.
  - destruct (ms_rest x) as [|c rest] eqn:E; [discriminate|].
    destruct (cls_match fl neg items c) eqn:Hc; [|discriminate]. eauto 10.
  - apply IHr1 in H. destruct H as (y1 & H1 & H).
    apply IHr2 in H. destruct H as (y2 & H2 & H). eauto.
  - apply first_some in H. destruct H as [H | [_ H]].
    + apply IHr1 in H. destruct H as (y & ? & ?). eauto.
    + apply IHr2 in H. destruct H as (y & ? & ?). eauto.
  - apply IHr in H. destruct H as (y & ? & ?). eauto.
  - eapply rep_sound in H; [|exact IHr]. destruct H as (n & y & ? & ? & ?). eauto.
  - destruct (at_bol fl x) eqn:E; [|discriminate]. eauto.
  - destruct (at_eol fl x) eqn:E; [|discriminate]. eauto.
  - destruct (m fl r x (fun y => Some y)) eqn:E; [|discriminate].
    apply IHr in E. destruct E as (y & ? & Hy). inversion Hy; subst. eauto.
Qed.

(** ** Extent of a match *)

Lemma iter_extent_gen (R : mstate -> mstate -> Prop) (f : mstate -> mstate) (k : nat) :
  (forall u, ms_rest (f u) = ms_rest u) ->
  (forall u v, R u v -> exists s, ms_rest u = s ++ ms_rest v /\ k <= List.length s) ->
  forall n x y, iter (fun u v => R (f u) v) n x y ->
    exists s, ms_rest x = s ++ ms_rest y /\ n * k <= List.length s.
Proof.
  intros Hf HR. induction n as [|n IH]; intros x y H; simpl in H.
  - subst. exists []. split; [reflexivity|simpl; lia].
  - destruct H as (z & H1 & H2). apply HR in H1. destruct H1 as (s1 & E1 & L1).
    apply IH in H2. destruct H2 as (s2 & E2 & L2).
    exists (s1 ++ s2). rewrite <- app_assoc, <- E2, <- E1, Hf. split; [reflexivity|].
    rewrite length_app. simpl. lia.
Qed.

Theorem matches_extent : forall r x y,
  matches fl r x y ->
  exists s, ms_rest x = s ++ ms_rest y /\ min_length r <= List.length s.
Proof.
  induction r; intros x y H; simpl in H.
  - subst. exists []. split; [reflexivity|simpl; lia].
  - destruct H as (c0 & rest & E & _ & ->). exists [c0]. simpl. split; [assumption|lia].
  - destruct H as (c0 & rest & E & _ & ->). exists [c0]. simpl. split; [assumption|lia].
  - destruct H as (c0 & rest & E & _ & ->). exists [c0]. simpl. split; [assumption|lia].
  - destruct H as (z & H1 & H2). apply IHr1 in H1. apply IHr2 in H2.
    destruct H1 as (s1 & E1 & L1), H2 as (s2 & E2 & L2).
    exists (s1 ++ s2). rewrite <- app_assoc, <- E2, <- E1. split; [reflexivity|].
    rewrite length_app. simpl. lia.
  - destruct H as [H|H]; [apply IHr1 in H | apply IHr2 in H];
      destruct H as (s & E & L); exists s; (split; [assumption|simpl; lia]).
  - destruct H as (z & H1 & ->). apply IHr in H1. exact H1.
  - destruct H as (n & Hw & Hit).
    eapply iter_extent_gen with (k := min_length r) in Hit; [| reflexivity | exact IHr].
    destruct Hit as (s & E & L). exists s. split; [assumption|].
    simpl. unfold within in Hw. destruct mx as [k|].
    + assert (Nat.min mn k * min_length r <= n * min_length r) by (apply Nat.mul_le_mono_r; lia). lia.
    + assert (mn * min_length r <= n * min_length r) by (apply Nat.mul_le_mono_r; lia). lia.
  - destruct H as (_ & ->). exists []. split; [reflexivity|simpl; lia].
  - destruct H as (_ & ->). exists []. split; [reflexivity|simpl; lia].
  - destruct H as (z & _ & ->). exists []. split; [reflexivity|simpl; lia].
Qed.

Lemma consumed_app (x y : mstate) (s : jstring) :
  ms_rest x = s ++ ms_rest y -> consumed x y = s.
Proof.
  intros E. unfold consumed. rewrite E, length_app.
  replace (List.length s + List.length (ms_rest y) - List.length (ms_rest y)) with (List.length s) by lia.
  rewrite firstn_app, Nat.sub_diag, firstn_all. simpl. apply app_nil_r.
Qed.

(** ** Captures *)

Lemma get_cap_clear i gs caps :
  get_cap i (clear_caps gs caps) = if mem i gs then None else get_cap i caps.
Proof.
  induction caps as [|[j s] caps IH]; simpl.
  - destruct (mem i gs); reflexivity.
  - destruct (existsb (Nat.eqb j) gs) eqn:Ej; simpl.
    + rewrite IH. destruct (Nat.eqb i j) eqn:Eij.
      * apply Nat.eqb_eq in Eij. subst. unfold mem. rewrite Ej. reflexivity.
      * reflexivity.
    + destruct (Nat.eqb i j) eqn:Eij.
      * apply Nat.eqb_eq in Eij. subst. unfold mem. rewrite Ej. reflexivity.
      * exact IH.
Qed.

Lemma get_cap_set i j s caps :
  get_cap i (set_cap j s caps) = if Nat.eqb i j then Some s else get_cap i caps.
Proof.
  unfold set_cap. simpl. destruct (Nat.eqb i j) eqn:E; [reflexivity|].
  rewrite get_cap_clear. unfold mem. simpl. rewrite E. reflexivity.
Qed.

Lemma mem_app i l1 l2 : mem i (l1 ++ l2) = mem i l1 || mem i l2.
Proof. unfold mem. apply existsb_app. Qed.

Lemma iter_frame (R : mstate -> mstate -> Prop) gs i :
  mem i gs = false ->
  (forall u v, R u v -> get_cap i (ms_caps v) = get_cap i (ms_caps u)) ->
  forall n x y, iter (fun u v => R (with_caps u (clear_caps gs (ms_caps u))) v) n x y ->
    get_cap i (ms_caps y) = get_cap i (ms_caps x).
Proof.
  intros Hi HR. induction n as [|n IH]; intros x y H; simpl in H.
  - subst. reflexivity.
  - destruct H as (z & H1 & H2). apply IH in H2. apply HR in H1.
    rewrite H2, H1. simpl. rewrite get_cap_clear, Hi. reflexivity.
Qed.

(** A match leaves the groups outside the pattern as they were. *)
Theorem matches_frame : forall r x y,
  matches fl r x y ->
  forall i, mem i (groups r) = false ->
    get_cap i (ms_caps y) = get_cap i (ms_caps x).
Proof.
  induction r; intros x y H j Hj; simpl in H, Hj.
  - subst. reflexivity.
  - destruct H as (? & ? & _ & _ & ->). reflexivity.
  - destruct H as (? & ? & _ & _ & ->). reflexivity.
  - destruct H as (? & ? & _ & _ & ->). reflexivity.
  - rewrite mem_app in Hj. apply orb_false_iff in Hj. destruct Hj as [Hj1 Hj2].
    destruct H as (z & H1 & H2).
    rewrite (IHr2 _ _ H2 _ Hj2). apply (IHr1 _ _ H1 _ Hj1).
  - rewrite mem_app in Hj. apply orb_false_iff in Hj. destruct Hj as [Hj1 Hj2].
    destruct H as [H|H]; [apply (IHr1 _ _ H _ Hj1) | apply (IHr2 _ _ H _ Hj2)].
  - unfold mem in Hj. simpl in Hj. apply orb_false_iff in Hj. destruct Hj as [Hj1 Hj2].
    destruct H as (z & H1 & ->). unfold with_caps; cbn [ms_caps].
    rewrite get_cap_set, Hj1. apply (IHr _ _ H1 _ Hj2).
  - destruct H as (n & _ & Hit).
    eapply iter_frame in Hit; [exact Hit | exact Hj |].
    intros u v Huv. apply (IHr _ _ Huv _ Hj).
  - destruct H as (_ & ->). reflexivity.
  - destruct H as (_ & ->). reflexivity.
  - destruct H as (z & H1 & ->). simpl. apply (IHr _ _ H1 _ Hj).
Qed.

Lemma sure_length_app i l1 l2 n :
  sure_length i (l1 ++ l2) = Some n ->
  sure_length i l1 = Some n \/ sure_length i l2 = Some n.
Proof.
  induction l1 as [|[j k] l1 IH]; simpl; intros H.
  - right. exact H.
  - destruct (Nat.eqb i j); [left; exact H | apply IH; exact H].
Qed.

Lemma sure_length_filter i (g : nat -> bool) l n :
  sure_length i (filter (fun p => g (fst p)) l) = Some n ->
  g i = true /\ sure_length i l = Some n.
Proof.
  induction l as [|[j k] l IH]; simpl; intros H; [discriminate|].
  destruct (g j) eqn:Gj; simpl in H.
  - destruct (Nat.eqb i j) eqn:E.
    + apply Nat.eqb_eq in E. subst. split; assumption.
    + apply IH in H. exact H.
  - apply IH in H. destruct H as [H1 H2]. split; [assumption|].
    destruct (Nat.eqb i j) eqn:E; [|assumption].
    apply Nat.eqb_eq in E. subst. congruence.
Qed.

(** Every match sets the groups of [sure], to texts of at least the
    stated length. *)
Theorem matches_sure : forall r x y,
  matches fl r x y ->
  forall i n, sure_length i (sure r) = Some n ->
    exists c, get_cap i (ms_caps y) = Some c /\ n <= List.length c.
Proof.
  induction r; intros x y H j n Hs; simpl in Hs; try discriminate.
  - simpl in H. destruct H as (z & H1 & H2).
    apply sure_length_app in Hs. destruct Hs as [Hs|Hs].
    + apply sure_length_filter with (g := fun i => negb (mem i (groups r2))) in Hs.
      destruct Hs as [Hg Hs]. apply negb_true_iff in Hg.
      rewrite (matches_frame _ _ _ H2 _ Hg). apply (IHr1 _ _ H1 _ _ Hs).
    + apply (IHr2 _ _ H2 _ _ Hs).
  - simpl in H. destruct H as (z & H1 & ->). unfold with_caps; cbn [ms_caps].
    rewrite get_cap_set. destruct (Nat.eqb j i) eqn:E.
    + inversion Hs; subst. apply matches_extent in H1. destruct H1 as (s & E1 & L1).
      rewrite (consumed_app _ _ _ E1). eauto.
    + apply sure_length_filter with (g := fun k => negb (Nat.eqb k i)) in Hs.
      destruct Hs as [_ Hs]. apply (IHr _ _ H1 _ _ Hs).
Qed.

(** ** Literal text of a pattern *)

Theorem matches_literal_prefix : forall r x y,
  matches fl r x y ->
  starts_with_pattern fl (literal_prefix r) (ms_rest x) = true.
Proof.
  induction r; intros x y H; try reflexivity.
  - simpl in H. destruct H as (c0 & rest & E & Hc & _). simpl. rewrite E, Hc. reflexivity.
  - destruct r1; try reflexivity.
    simpl in H. destruct H as (z & (c0 & rest & E & Hc & ->) & H2).
    simpl. rewrite E, Hc. simpl. apply (IHr2 _ _ H2).
Qed.

Theorem matches_drop_terms : forall n r x y,
  matches fl r x y ->
  exists z s, ms_rest x = s ++ ms_rest z /\ matches fl (drop_terms n r) z y.
Proof.
  induction n as [|n IH]; intros r x y H.
  - exists x, []. split; [reflexivity|exact H].
  - destruct r; simpl;
      try (apply matches_extent in H; destruct H as (s & E & _);
           exists y, s; split; [assumption|reflexivity]).
    simpl in H. destruct H as (z & H1 & H2).
    apply matches_extent in H1. destruct H1 as (s1 & E1 & _).
    apply IH with (r := r2) in H2. destruct H2 as (z' & s2 & E2 & H2).
    exists z', (s1 ++ s2). rewrite <- app_assoc, <- E2. split; assumption.
Qed.

Lemma occurs_start p s : starts_with_pattern fl p s = true -> occurs fl p s = true.
Proof. intros H. destruct s; simpl; rewrite H; reflexivity. Qed.

Lemma occurs_app p s t : occurs fl p t = true -> occurs fl p (s ++ t) = true.
Proof.
  intros H. induction s as [|c s IH]; [exact H|].
  simpl. rewrite IH. apply orb_true_r.
Qed.

(** A match needs the literal text found after any number of leading
    terms of the pattern. *)
Corollary matches_occurs n r x y :
  matches fl r x y ->
  occurs fl (literal_prefix (drop_terms n r)) (ms_rest x) = true.
Proof.
  intros H. apply matches_drop_terms with (n := n) in H.
  destruct H as (z & s & E & H). rewrite E. apply occurs_app, occurs_start.
  apply (matches_literal_prefix _ _ _ H).
Qed.

(** ** [search], [exec] and [match] *)

Theorem search_sound : forall r rest prev idx mr,
  search fl r prev rest idx = Some mr ->
  exists pre prev' y,
    rest = pre ++ mr_text mr ++ ms_rest y /\
    mr_index mr = idx + List.length pre /\
    matches fl r (MState prev' (mr_text mr ++ ms_rest y) []) y /\
    mr_caps mr = ms_caps y.
Proof.
  intros r. induction rest as [|c rest IH]; intros prev idx mr H; simpl in H.
  - destruct (m fl r (MState prev [] []) (fun y => Some y)) as [y|] eqn:E; [|discriminate].
    injection H as <-. apply m_sound in E. destruct E as (y' & Hm & Hy).
    injection Hy as ->.
    destruct (matches_extent _ _ _ Hm) as (s & Es & _). cbn [ms_rest] in Es.
    exists [], prev, y. cbn [mr_text mr_index mr_caps].
    rewrite (consumed_app (MState prev [] []) y s Es). simpl.
    rewrite <- Es. repeat split; try assumption. lia.
  - destruct (m fl r (MState prev (c :: rest) []) (fun y => Some y)) as [y|] eqn:E.
    + injection H as <-. apply m_sound in E. destruct E as (y' & Hm & Hy).
      injection Hy as ->.
      destruct (matches_extent _ _ _ Hm) as (s & Es & _). cbn [ms_rest] in Es.
      exists [], prev, y. cbn [mr_text mr_index mr_caps].
      rewrite (consumed_app (MState prev (c :: rest) []) y s Es). simpl.
      rewrite <- Es. repeat split; try assumption. lia.
    + apply IH in H. destruct H as (pre & prev' & y & E1 & E2 & Hm & Hc).
      exists (c :: pre), prev', y. simpl. rewrite <- E1.
      repeat split; try assumption. lia.
Qed.

(** A match at the first position tried is the result. *)
Lemma search_first r prev rest idx y :
  m fl r (MState prev rest []) (fun z => Some z) = Some y ->
  search fl r prev rest idx =
  Some (MatchResult idx (consumed (MState prev rest []) y) (ms_caps y)).
Proof. intros H. destruct rest; cbn [search]; rewrite H; reflexivity. Qed.

Lemma js_match_first r s y :
  m fl r (MState None s []) (fun z => Some z) = Some y ->
  js_match fl r s = Some (MatchResult 0 (consumed (MState None s []) y) (ms_caps y)).
Proof. apply search_first. Qed.

Lemma seek_length : forall start s prev p rest,
  seek prev s start = Some (p, rest) ->
  exists pre, s = pre ++ rest /\ List.length pre = start.
Proof.
  induction start as [|n IH]; intros s prev p rest H; simpl in H.
  - injection H as _ ->. exists []. split; reflexivity.
  - destruct s as [|c s]; [discriminate|]. apply IH in H.
    destruct H as (pre & -> & <-). exists (c :: pre). split; reflexivity.
Qed.

(** What [exec] from [lastIndex = start] returns lies at or after
    [start], inside the text, and is a match of the pattern. *)
Theorem exec_from_sound r s start mr :
  exec_from fl r s start = Some mr ->
  exists pre prev y,
    s = pre ++ mr_text mr ++ ms_rest y /\
    mr_index mr = List.length pre /\ start <= mr_index mr /\
    matches fl r (MState prev (mr_text mr ++ ms_rest y) []) y /\
    mr_caps mr = ms_caps y.
Proof.
  unfold exec_from. intros H.
  destruct (seek None s start) as [[p rest]|] eqn:Es; [|discriminate].
  apply seek_length in Es. destruct Es as (pre0 & -> & <-).
  apply search_sound in H. destruct H as (pre & prev' & y & E1 & E2 & Hm & Hc).
  exists (pre0 ++ pre), prev', y. rewrite <- app_assoc, <- E1, length_app.
  repeat split; try assumption; lia.
Qed.

Corollary js_match_sound r s mr :
  js_match fl r s = Some mr ->
  exists pre prev y,
    s = pre ++ mr_text mr ++ ms_rest y /\
    mr_index mr = List.length pre /\
    matches fl r (MState prev (mr_text mr ++ ms_rest y) []) y /\
    mr_caps mr = ms_caps y.
Proof.
  intros H. apply search_sound in H.
  destruct H as (pre & prev' & y & E1 & E2 & Hm & Hc).
  exists pre, prev', y. repeat split; assumption.
Qed.

(** The groups of [sure] are defined in every result. *)
Corollary exec_from_group r s start mr i n :
  exec_from fl r s start = Some mr ->
  sure_length i (sure r) = Some n ->
  exists c, group i mr = Some c /\ n <= List.length c.
Proof.
  intros H Hs. apply exec_from_sound in H.
  destruct H as (pre & prev & y & _ & _ & _ & Hm & Hc).
  unfold group. rewrite Hc. eapply matches_sure; eassumption.
Qed.

Corollary js_match_group r s mr i n :
  js_match fl r s = Some mr ->
  sure_length i (sure r) = Some n ->
  exists c, group i mr = Some c /\ n <= List.length c.
Proof.
  intros H Hs. apply js_match_sound in H.
  destruct H as (pre & prev & y & _ & _ & Hm & Hc).
  unfold group. rewrite Hc. eapply matches_sure; eassumption.
Qed.

(** A result lies at or after [start], consumes at least [min_length]
    characters and ends inside the text. *)
Corollary exec_from_progress r s start mr :
  exec_from fl r s start = Some mr ->
  start <= mr_index mr /\
  mr_index mr + min_length r <= mr_end mr /\
  mr_end mr <= List.length s.
Proof.
  intros H. apply exec_from_sound in H.
  destruct H as (pre & prev & y & E & Ei & Hs & Hm & _).
  apply matches_extent in Hm. destruct Hm as (t & Et & Lt). simpl in Et.
  apply app_inv_tail in Et. subst t.
  unfold mr_end. rewrite E, !length_app. lia.
Qed.

(** No match without the literal text of the pattern. *)
Corollary js_match_occurs n r s mr :
  js_match fl r s = Some mr ->
  occurs fl (literal_prefix (drop_terms n r)) s = true.
Proof.
  intros H. apply js_match_sound in H.
  destruct H as (pre & prev & y & E & _ & Hm & _).
  rewrite E. apply occurs_app.
  apply (matches_occurs n) in Hm. exact Hm.
Qed.

Corollary js_match_none n r s :
  occurs fl (literal_prefix (drop_terms n r)) s = false ->
  js_match fl r s = None.
Proof.
  intros H. destruct (js_match fl r s) eqn:E; [|reflexivity].
  apply (js_match_occurs n) in E. congruence.
Qed.

(** A position where the pattern matches makes the search succeed, there
    or before. *)
Lemma search_finds r : forall pre suf prev idx,
  (forall p, m fl r (MState p suf []) (fun z => Some z) <> None) ->
  search fl r prev (pre ++ suf) idx <> None.
Proof.
  induction pre as [|c pre IH]; intros suf prev idx H.
  - simpl. specialize (H prev).
    destruct suf; cbn [search];
      destruct (m fl r _ (fun z => Some z)); congruence.
  - cbn [app search].
    destruct (m fl r (MState prev (c :: pre ++ suf) []) (fun z => Some z)); [discriminate|].
    apply IH. exact H.
Qed.

(** ** The bound on the iterations of a quantifier

    The fuel of [rep] is never used up: any larger amount gives the same
    result. *)

Lemma rep_cont_ext (body : mstate -> cont -> option mstate) gs greedy :
  (forall x k1 k2,
     (forall y, List.length (ms_rest y) <= List.length (ms_rest x) -> k1 y = k2 y) ->
     body x k1 = body x k2) ->
  forall fuel mn mx x k1 k2,
    (forall y, List.length (ms_rest y) <= List.length (ms_rest x) -> k1 y = k2 y) ->
    rep body gs greedy fuel mn mx x k1 = rep body gs greedy fuel mn mx x k2.
Proof.
  intros Hb. induction fuel as [|fuel IH]; intros mn mx x k1 k2 Hk; [reflexivity|].
  simpl. rewrite (Hk x (le_n _)).
  assert (Hd : body (MState (ms_prev x) (ms_rest x) (clear_caps gs (ms_caps x)))
      (fun y => if Nat.eqb mn 0 && Nat.eqb (List.length (ms_rest y)) (List.length (ms_rest x))
                then None else rep body gs greedy fuel (pred mn) (option_map pred mx) y k1) =
    body (MState (ms_prev x) (ms_rest x) (clear_caps gs (ms_caps x)))
      (fun y => if Nat.eqb mn 0 && Nat.eqb (List.length (ms_rest y)) (List.length (ms_rest x))
                then None else rep body gs greedy fuel (pred mn) (option_map pred mx) y k2)).
  { apply Hb. intros y Hy. cbn [ms_rest] in Hy.
    destruct (Nat.eqb mn 0 && _); [reflexivity|].
    apply IH. intros z Hz. apply Hk. lia. }
  rewrite Hd. reflexivity.
Qed.

(** The matcher calls its continuation on states that are not further
    back in the text. *)
Theorem m_cont_ext : forall r x k1 k2,
  (forall y, List.length (ms_rest y) <= List.length (ms_rest x) -> k1 y = k2 y) ->
  m fl r x k1 = m fl r x k2.
Proof.
  induction r; intros x k1 k2 Hk; simpl.
  - apply Hk. lia.
  - destruct (ms_rest x) as [|c0 rest] eqn:E; [reflexivity|].
    destruct (chr_match fl c c0); [|reflexivity]. apply Hk. simpl. lia.
  - destruct (ms_rest x) as [|c rest] eqn:E; [reflexivity|].
    destruct (dot_match fl c); [|reflexivity]. apply Hk. simpl. lia.
  - destruct (ms_rest x) as [|c rest] eqn:E; [reflexivity|].
    destruct (cls_match fl neg items c); [|reflexivity]. apply Hk. simpl. lia.
  - apply IHr1. intros y Hy. apply IHr2. intros z Hz. apply Hk. lia.
  - rewrite (IHr1 x k1 k2 Hk), (IHr2 x k1 k2 Hk). reflexivity.
  - apply IHr. intros y Hy. apply Hk. exact Hy.
  - apply rep_cont_ext; [exact IHr | exact Hk].
  - destruct (at_bol fl x); [apply Hk; lia | reflexivity].
  - destruct (at_eol fl x); [apply Hk; lia | reflexivity].
  - destruct (m fl r x (fun y => Some y)); [apply Hk; simpl; lia | reflexivity].
Qed.

Theorem rep_fuel_irrelevant a gs greedy : forall fuel1 fuel2 mn mx x k,
  mn + List.length (ms_rest x) < fuel1 ->
  mn + List.length (ms_rest x) < fuel2 ->
  rep (m fl a) gs greedy fuel1 mn mx x k = rep (m fl a) gs greedy fuel2 mn mx x k.
Proof.
  induction fuel1 as [|fuel1 IH]; intros fuel2 mn mx x k H1 H2; [lia|].
  destruct fuel2 as [|fuel2]; [lia|]. simpl.
  assert (Hd : m fl a (MState (ms_prev x) (ms_rest x) (clear_caps gs (ms_caps x)))
      (fun y => if Nat.eqb mn 0 && Nat.eqb (List.length (ms_rest y)) (List.length (ms_rest x))
                then None else rep (m fl a) gs greedy fuel1 (pred mn) (option_map pred mx) y k) =
    m fl a (MState (ms_prev x) (ms_rest x) (clear_caps gs (ms_caps x)))
      (fun y => if Nat.eqb mn 0 && Nat.eqb (List.length (ms_rest y)) (List.length (ms_rest x))
                then None else rep (m fl a) gs greedy fuel2 (pred mn) (option_map pred mx) y k)).
  { apply m_cont_ext. intros y Hy. cbn [ms_rest] in Hy.
    destruct (Nat.eqb mn 0) eqn:Emn; simpl.
    - apply Nat.eqb_eq in Emn. subst mn.
      destruct (Nat.eqb (List.length (ms_rest y)) (List.length (ms_rest x))) eqn:El; [reflexivity|].
      apply Nat.eqb_neq in El. apply IH; simpl; lia.
    - apply Nat.eqb_neq in Emn. apply IH; lia. }
  rewrite Hd. reflexivity.
Qed.

End Soundness.
End RegexFacts.

Import RegexFacts.
Import Parse.

(* ================================================================== *)
(** * The parser returns *)
(* ================================================================== *)

Module ParseFacts.

Local Open Scope outcome_scope.

(** [defined] on a group of [sure] does not raise. *)
Lemma defined_group fl r s mr i n :
  js_match fl r s = Some mr ->
  sure_length i (sure r) = Some n ->
  exists c, defined (group i mr) = Ok c /\ group i mr = Some c /\ n <= List.length c.
Proof.
  intros H Hs. destruct (@js_match_group fl r s mr i n H Hs) as (c & Hc & L).
  exists c. rewrite Hc. auto.
Qed.

Lemma defined_group_exec fl r s start mr i n :
  exec_from fl r s start = Some mr ->
  sure_length i (sure r) = Some n ->
  exists c, defined (group i mr) = Ok c /\ group i mr = Some c /\ n <= List.length c.
Proof.
  intros H Hs. destruct (@exec_from_group fl r s start mr i n H Hs) as (c & Hc & L).
  exists c. rewrite Hc. auto.
Qed.

Ltac sure_group H i :=
  let c := fresh "c" in
  let Hd := fresh "Hd" in
  let Hg := fresh "Hg" in
  let Hl := fresh "Hl" in
  first
    [ destruct (@defined_group _ _ _ _ i _ H eq_refl) as (c & Hd & Hg & Hl)
    | destruct (@defined_group_exec _ _ _ _ _ i _ H eq_refl) as (c & Hd & Hg & Hl) ];
  rewrite Hd; cbn [bind].

Lemma bind_ok (A B : Type) (o : outcome A) (f : A -> outcome B) :
  (exists a, o = Ok a) -> (forall a, exists b, f a = Ok b) ->
  exists b, bind o f = Ok b.
Proof. intros [a ->] Hf. apply Hf. Qed.

Lemma parseDate_ok text : exists d, parseDate text = Ok d.
Proof.
  unfold parseDate. destruct text as [[|c t]|]; eauto.
  destruct (js_match no_flags re_date (c :: t)) as [mt|] eqn:E; eauto.
  sure_group E 1. sure_group E 2. eauto.
Qed.

Lemma parseHeader_ok content : exists h, parseHeader content = Ok h.
Proof.
  unfold parseHeader.
  apply bind_ok; [apply parseDate_ok|]. intros d1.
  apply bind_ok; [apply parseDate_ok|]. intros d2. eauto.
Qed.

Lemma parseDescriptionOfWork_ok content : exists d, parseDescriptionOfWork content = Ok d.
Proof.
  unfold parseDescriptionOfWork.
  destruct (js_match flag_is re_description content) as [mt|] eqn:E; eauto.
  sure_group E 1. eauto.
Qed.

Lemma rows_loop_ok tableContent : forall fuel lastIndex classes,
  lastIndex <= List.length tableContent < lastIndex + fuel ->
  exists cs, rows_loop fuel tableContent lastIndex classes = Ok cs.
Proof.
  induction fuel as [|fuel IH]; intros lastIndex classes Hf; [lia|].
  simpl. destruct (exec_from no_flags rowRegex tableContent lastIndex) as [mt|] eqn:E; eauto.
  sure_group E 1. sure_group E 2. sure_group E 5.
  apply IH. apply exec_from_progress in E.
  assert (1 <= min_length rowRegex) by (vm_compute; lia). lia.
Qed.

Lemma parseBuildingClassification_ok content :
  exists cs, parseBuildingClassification content = Ok cs.
Proof.
  unfold parseBuildingClassification.
  destruct (js_match flag_i re_building_table content) as [mt|] eqn:E; eauto.
  apply rows_loop_ok. lia.
Qed.

Lemma item_of_match_ok block start mt :
  exec_from flag_m itemRegex block start = Some mt ->
  exists it, item_of_match mt = Ok it.
Proof.
  intros E. unfold item_of_match. sure_group E 3.
  destruct (cleanText c); eauto.
  apply bind_ok; [|eauto].
  destruct (group 2 mt) as [[|d0 ds]|]; eauto using parseDate_ok.
Qed.

Lemma items_loop_ok block : forall fuel lastIndex items,
  lastIndex <= List.length block < lastIndex + fuel ->
  exists its, items_loop fuel block lastIndex items = Ok its.
Proof.
  induction fuel as [|fuel IH]; intros lastIndex items Hf; [lia|].
  simpl. destruct (exec_from flag_m itemRegex block lastIndex) as [mt|] eqn:E; eauto.
  apply bind_ok; [eapply item_of_match_ok; eassumption|]. intros it.
  apply IH. apply exec_from_progress in E.
  assert (1 <= min_length itemRegex) by (vm_compute; lia). lia.
Qed.

Lemma parseBlock_ok block : exists b, parseBlock block = Ok b.
Proof.
  unfold parseBlock. destruct (trim block); eauto.
  destruct (js_match flag_m re_department block) as [mt|] eqn:E; eauto.
  sure_group E 1. sure_group E 2.
  apply bind_ok; [apply items_loop_ok; lia|].
  intros its. destruct (_ || _); eauto.
Qed.

Lemma blocks_loop_ok : forall blocks corrections,
  exists cs, blocks_loop blocks corrections = Ok cs.
Proof.
  induction blocks as [|b blocks IH]; intros corrections; simpl; eauto.
  apply bind_ok; [apply parseBlock_ok|]. intros ob. apply IH.
Qed.

Lemma parseCorrections_ok content : exists cs, parseCorrections content = Ok cs.
Proof.
  unfold parseCorrections.
  destruct (js_match flag_i re_corrections content) as [mt|] eqn:E; eauto.
  sure_group E 1. apply blocks_loop_ok.
Qed.

Lemma parseTaskLine_ok line : exists t, parseTaskLine line = Ok t.
Proof.
  unfold parseTaskLine.
  destruct (js_match no_flags taskRegex line) as [mt|] eqn:E; eauto.
  sure_group E 1. sure_group E 2.
  apply bind_ok; [apply parseDate_ok|]. intros d.
  sure_group E 4. eauto.
Qed.

Lemma lines_loop_ok : forall lines tasks, exists ts, lines_loop lines tasks = Ok ts.
Proof.
  induction lines as [|l lines IH]; intros tasks; simpl; eauto.
  apply bind_ok; [apply parseTaskLine_ok|]. intros t. apply IH.
Qed.

Lemma parseApprovalTable_ok content : exists ts, parseApprovalTable content = Ok ts.
Proof.
  unfold parseApprovalTable.
  destruct (js_match flag_i re_approval_table content) as [mt|] eqn:E; eauto.
  sure_group E 1. apply lines_loop_ok.
Qed.

Lemma parseZoningReview_ok content : exists z, parseZoningReview content = Ok z.
Proof.
  unfold parseZoningReview.
  destruct (js_match flag_i re_zoning_section content) as [mt|] eqn:E; eauto.
  sure_group E 1. eauto.
Qed.

Lemma parseThirdPartyReview_ok content : exists t, parseThirdPartyReview content = Ok t.
Proof.
  unfold parseThirdPartyReview.
  destruct (js_match flag_i re_information_block content) as [mt|] eqn:E; eauto.
  sure_group E 1.
  destruct (js_match flag_i re_plan_review_date c), (js_match flag_i re_reviewed_by c),
    (js_match flag_i re_tenant c); eauto; (apply bind_ok; [apply parseDate_ok|eauto]).
Qed.

(** The record is assembled from the results of the section parsers. *)
Lemma parsePermitComments_fields content includeRaw p :
  parsePermitComments content includeRaw = Ok p <->
  exists h d,
    parseHeader content = Ok h /\
    parseDescriptionOfWork content = Ok d /\
    parseBuildingClassification content = Ok (PermitComments.building_classification p) /\
    parseCorrections content = Ok (PermitComments.corrections p) /\
    parseApprovalTable content = Ok (PermitComments.approval_tasks p) /\
    parseZoningReview content = Ok (PermitComments.zoning_review p) /\
    parseThirdPartyReview content = Ok (PermitComments.third_party_review p) /\
    p = PermitComments.mk (fst h) (snd h) d
          (fst (parseApplicantOwner content)) (snd (parseApplicantOwner content))
          (PermitComments.building_classification p) (PermitComments.corrections p)
          (PermitComments.approval_tasks p) (PermitComments.zoning_review p)
          (PermitComments.third_party_review p)
          (if includeRaw then Some content else None).
Proof.
  unfold parsePermitComments. split.
  - intros H.
    destruct (parseHeader content) as [[a pr]| |]; cbn [bind] in H; try discriminate.
    destruct (parseApplicantOwner content) as [ap ow].
    destruct (parseDescriptionOfWork content) as [d| |]; cbn [bind] in H; try discriminate.
    destruct (parseBuildingClassification content) as [bc| |]; cbn [bind] in H; try discriminate.
    destruct (parseCorrections content) as [co| |]; cbn [bind] in H; try discriminate.
    destruct (parseApprovalTable content) as [at_| |]; cbn [bind] in H; try discriminate.
    destruct (parseZoningReview content) as [zr| |]; cbn [bind] in H; try discriminate.
    destruct (parseThirdPartyReview content) as [tp| |]; cbn [bind] in H; try discriminate.
    injection H as <-. exists (a, pr), d. cbn. repeat split; reflexivity.
  - intros (h & d & -> & -> & -> & -> & -> & -> & -> & E). cbn [bind].
    destruct h as [a pr]. destruct (parseApplicantOwner content) as [ap ow].
    cbn [fst snd] in E. rewrite E at 6. reflexivity.
Qed.

Lemma parsePermitComments_ok content includeRaw :
  exists p, parsePermitComments content includeRaw = Ok p.
Proof.
  unfold parsePermitComments.
  destruct (parseHeader_ok content) as [[a pr] ->]. cbn [bind].
  destruct (parseApplicantOwner content) as [ap ow].
  destruct (parseDescriptionOfWork_ok content) as [d ->]. cbn [bind].
  destruct (parseBuildingClassification_ok content) as [bc ->]. cbn [bind].
  destruct (parseCorrections_ok content) as [co ->]. cbn [bind].
  destruct (parseApprovalTable_ok content) as [at_ ->]. cbn [bind].
  destruct (parseZoningReview_ok content) as [zr ->]. cbn [bind].
  destruct (parseThirdPartyReview_ok content) as [tp ->]. cbn [bind].
  eauto.
Qed.

End ParseFacts.

Import ParseFacts.

(* ================================================================== *)
(** * Priority of greedy matching *)
(* ================================================================== *)

Module Priority.
Section Priority.
Variable fl : flags.

Lemma clear_caps_nil caps : clear_caps [] caps = caps.
Proof.
  unfold clear_caps. induction caps as [|p caps IH]; simpl; [reflexivity|].
  f_equal. exact IH.
Qed.

Lemma after_nil x : after [] x (ms_rest x) = x.
Proof. destruct x. reflexivity. Qed.

Lemma after_app s1 s2 x t1 t2 :
  after s2 (after s1 x t1) t2 = after (s1 ++ s2) x t2.
Proof. unfold after. simpl. rewrite fold_left_app. reflexivity. Qed.

Lemma after_rest s x t : ms_rest (after s x t) = t.
Proof. reflexivity. Qed.

Lemma after_caps s x t : ms_caps (after s x t) = ms_caps x.
Proof. reflexivity. Qed.

Lemma takes_eps x : takes fl Eps x x.
Proof. intros k z H. exact H. Qed.

Lemma takes_chr p c t x :
  ms_rest x = c :: t -> chr_match fl p c = true ->
  takes fl (Chr p) x (after [c] x t).
Proof. intros E Hc k z H. simpl. rewrite E, Hc. exact H. Qed.

Lemma takes_cls neg items c t x :
  ms_rest x = c :: t -> cls_match fl neg items c = true ->
  takes fl (Cls neg items) x (after [c] x t).
Proof. intros E Hc k z H. simpl. rewrite E, Hc. exact H. Qed.

Lemma takes_seq a b x y z :
  takes fl a x y -> takes fl b y z -> takes fl (Seq a b) x z.
Proof. intros Ha Hb k w H. simpl. apply Ha. apply Hb. exact H. Qed.

Lemma takes_alt_left a b x y : takes fl a x y -> takes fl (Alt a b) x y.
Proof. intros Ha k z H. simpl. rewrite (Ha k z H). reflexivity. Qed.

Lemma takes_grp i a x y :
  takes fl a x y ->
  takes fl (Grp i a) x (with_caps y (set_cap i (consumed x y) (ms_caps y))).
Proof. intros Ha k z H. simpl. apply Ha. exact H. Qed.

Lemma takes_grp_text i a x y s :
  takes fl a x y -> ms_rest x = s ++ ms_rest y ->
  takes fl (Grp i a) x (with_caps y (set_cap i s (ms_caps y))).
Proof.
  intros Ha E. rewrite <- (consumed_app _ _ _ E). apply takes_grp. exact Ha.
Qed.

Lemma fails_chr p x :
  stops (chr_match fl p) (ms_rest x) -> fails fl (Chr p) x.
Proof.
  intros H k. simpl. destruct (ms_rest x) as [|c t]; [reflexivity|].
  simpl in H. rewrite H. reflexivity.
Qed.

Lemma fails_cls neg items x :
  stops (cls_match fl neg items) (ms_rest x) -> fails fl (Cls neg items) x.
Proof.
  intros H k. simpl. destruct (ms_rest x) as [|c t]; [reflexivity|].
  simpl in H. rewrite H. reflexivity.
Qed.

Lemma fails_seq a b x : fails fl a x -> fails fl (Seq a b) x.
Proof. intros H k. simpl. apply H. Qed.

Lemma fails_grp i a x : fails fl a x -> fails fl (Grp i a) x.
Proof. intros H k. simpl. apply H. Qed.

Lemma fails_rep_min mn mx g a x :
  0 < mn -> is_zero mx = false ->
  fails fl a (with_caps x (clear_caps (groups a) (ms_caps x))) ->
  fails fl (Rep mn mx g a) x.
Proof.
  intros Hmn Hz H k. simpl. rewrite Nat.add_1_r. simpl. rewrite Hz.
  destruct mn as [|mn]; [lia|]. simpl. apply H.
Qed.

Lemma rep_step body gs greedy fuel mn mx x k :
  rep body gs greedy (S fuel) mn mx x k =
  if is_zero mx then k x
  else
    let d := fun y : mstate =>
      if Nat.eqb mn 0 && Nat.eqb (List.length (ms_rest y)) (List.length (ms_rest x))
      then None
      else rep body gs greedy fuel (pred mn) (option_map pred mx) y k in
    let xr := MState (ms_prev x) (ms_rest x) (clear_caps gs (ms_caps x)) in
    if negb (Nat.eqb mn 0) then body xr d
    else if greedy then
      match body xr d with
      | Some z => Some z
      | None => k x
      end
    else
      match k x with
      | Some z => Some z
      | None => body xr d
      end.
Proof. reflexivity. Qed.

(** A greedy quantifier on a one-character pattern takes a run of
    accepted characters that ends at the bound of the quantifier, at the
    end of the text or before a character that is rejected. *)
Lemma rep_takes_run (body : mstate -> cont -> option mstate) (P : char -> bool) :
  (forall x k, body x k =
     match ms_rest x with
     | [] => None
     | c :: rest => if P c then k (advance c rest x) else None
     end) ->
  forall s x t mn mx fuel k z,
  ms_rest x = s ++ t ->
  Forall (fun c => P c = true) s ->
  List.length s < fuel ->
  mn <= List.length s ->
  match mx with
  | Some b => List.length s <= b /\ (List.length s = b \/ stops P t)
  | None => stops P t
  end ->
  k (after s x t) = Some z ->
  rep body [] true fuel mn mx x k = Some z.
Proof.
  intros Hbody.
  induction s as [|c s IH]; intros x t mn mx fuel k z E Hs Hf Hmn Hmx Hk.
  - simpl in E. destruct fuel as [|fuel]; [simpl in Hf; lia|]. rewrite rep_step.
    rewrite <- E, after_nil in Hk.
    destruct (is_zero mx) eqn:Hz; [exact Hk|].
    assert (mn = 0) by (simpl in Hmn; lia). subst mn. cbn zeta. simpl negb. cbv iota.
    assert (Hstop : stops P t).
    { destruct mx as [[|b]|]; try discriminate; [|exact Hmx].
      destruct Hmx as [_ [Hb|Hb]]; [simpl in Hb; lia | exact Hb]. }
    rewrite <- E in Hstop. rewrite Hbody. cbn [ms_rest].
    destruct (ms_rest x) as [|c0 t0]; [exact Hk|].
    simpl in Hstop. rewrite Hstop. exact Hk.
  - destruct fuel as [|fuel]; [simpl in Hf; lia|]. rewrite rep_step.
    destruct (is_zero mx) eqn:Hz.
    { destruct mx as [[|b]|]; try discriminate. simpl in Hmx. lia. }
    inversion Hs as [|? ? Hc Hs']; subst. cbn zeta.
    rewrite Hbody. cbn [ms_rest]. rewrite E. simpl app. cbv iota. rewrite Hc.
    assert (Hlen : Nat.eqb (List.length (s ++ t)) (List.length (c :: s ++ t)) = false)
      by (apply Nat.eqb_neq; simpl; lia).
    unfold advance. cbn [ms_rest ms_caps ms_prev]. rewrite Hlen, andb_false_r.
    assert (Hrec : rep body [] true fuel (pred mn) (option_map pred mx)
              (MState (Some c) (s ++ t) (clear_caps [] (ms_caps x))) k
            = Some z).
    { apply IH with (t := t).
      - reflexivity.
      - exact Hs'.
      - simpl in Hf. lia.
      - simpl in Hmn. lia.
      - destruct mx as [b|]; simpl in *; [|exact Hmx].
        destruct b as [|b]; [lia|]. simpl. destruct Hmx as [H1 [H2|H2]]; split; try lia; auto.
      - unfold after in *. simpl in *. rewrite clear_caps_nil. exact Hk. }
    rewrite Hrec. destruct (negb (Nat.eqb mn 0)); reflexivity.
Qed.

Lemma takes_run neg items mn mx s t x :
  ms_rest x = s ++ t ->
  Forall (fun c => cls_match fl neg items c = true) s ->
  mn <= List.length s ->
  match mx with
  | Some b => List.length s <= b /\ (List.length s = b \/ stops (cls_match fl neg items) t)
  | None => stops (cls_match fl neg items) t
  end ->
  takes fl (Rep mn mx true (Cls neg items)) x (after s x t).
Proof.
  intros E Hs Hmn Hmx k z Hk. cbn [m groups].
  apply rep_takes_run with (P := cls_match fl neg items) (s := s) (t := t);
    try assumption; [reflexivity|].
  rewrite E, length_app. lia.
Qed.

(** A greedy optional pattern takes what its body takes. *)
Lemma takes_opt a x y :
  takes fl a (with_caps x (clear_caps (groups a) (ms_caps x))) y ->
  List.length (ms_rest y) < List.length (ms_rest x) ->
  takes fl (Rep 0 (Some 1) true a) x y.
Proof.
  intros Ha Hl k z Hk. cbn [m]. rewrite Nat.add_1_r, rep_step. cbn zeta. simpl negb. cbv iota.
  simpl is_zero. cbv iota.
  unfold with_caps in Ha. erewrite Ha; [reflexivity|].
  assert (Hne : Nat.eqb (List.length (ms_rest y)) (List.length (ms_rest x)) = false)
    by (apply Nat.eqb_neq; lia).
  rewrite Hne. simpl andb. cbv iota.
  destruct (List.length (ms_rest x)) as [|n]; [lia|].
  simpl. exact Hk.
Qed.

(** It is passed over where its body fails. *)
Lemma takes_opt_skip a x :
  fails fl a (with_caps x (clear_caps (groups a) (ms_caps x))) ->
  takes fl (Rep 0 (Some 1) true a) x x.
Proof.
  intros Ha k z Hk. simpl. rewrite Nat.add_1_r. simpl.
  unfold with_caps in Ha. rewrite Ha. exact Hk.
Qed.

End Priority.
End Priority.

Import Priority.
Import Spec.

(* ================================================================== *)
(** * The date pattern *)
(* ================================================================== *)

Module DateFacts.

Lemma cls_digit fl c : cls_match fl false [CDigit] c = is_digit c.
Proof.
  unfold cls_match, citem_match. simpl.
  assert (H : is_digit (swap_case c) = is_digit c).
  { unfold swap_case. destruct (is_lower c) eqn:E1; [|destruct (is_upper c) eqn:E2; [|reflexivity]].
    - unfold is_lower, is_digit, in_range in *.
      apply andb_true_iff in E1. destruct E1 as [A B]. apply N.leb_le in A, B.
      destruct (N.leb_spec 48 (c - 32)), (N.leb_spec (c - 32) 57), (N.leb_spec 48 c), (N.leb_spec c 57); simpl; try reflexivity; lia.
    - unfold is_upper, is_digit, in_range in *.
      apply andb_true_iff in E2. destruct E2 as [A B]. apply N.leb_le in A, B.
      destruct (N.leb_spec 48 (c + 32)), (N.leb_spec (c + 32) 57), (N.leb_spec 48 c), (N.leb_spec c 57); simpl; try reflexivity; lia. }
  rewrite H. destruct (is_digit c), (f_icase fl); reflexivity.
Qed.

Lemma digits_cls fl s : digits s -> Forall (fun c => cls_match fl false [CDigit] c = true) s.
Proof. intros H. eapply Forall_impl; [|exact H]. intros c Hc. rewrite cls_digit. exact Hc. Qed.

(** On a date followed by any text the date pattern takes the date, the
    three groups holding month, day and year. *)
Lemma date_takes prev mo d y t :
  digits mo -> digits d -> digits y ->
  1 <= List.length mo <= 2 -> 1 <= List.length d <= 2 -> List.length y = 4 ->
  exists p,
    m no_flags re_date (MState prev (mo ++ 47%N :: d ++ 47%N :: y ++ t) []) (fun z => Some z)
    = Some (MState p t [(3, y); (2, d); (1, mo)]).
Proof.
  intros Hmo Hd Hy Lmo Ld Ly.
  set (x0 := MState prev (mo ++ 47%N :: d ++ 47%N :: y ++ t) []).
  assert (T : exists z, takes no_flags re_date x0 z /\ ms_rest z = t /\
                        ms_caps z = [(3, y); (2, d); (1, mo)]).
  { eexists. split.
    - unfold re_date.
      eapply takes_seq.
      { apply takes_grp_text with (s := mo).
        - apply takes_run with (s := mo) (t := 47%N :: d ++ 47%N :: y ++ t);
            [reflexivity | apply digits_cls; assumption | lia
            | split; [lia|right; reflexivity]].
        - reflexivity. }
      eapply takes_seq.
      { apply takes_chr with (c := 47%N) (t := d ++ 47%N :: y ++ t); reflexivity. }
      eapply takes_seq.
      { apply takes_grp_text with (s := d).
        - apply takes_run with (s := d) (t := 47%N :: y ++ t);
            [reflexivity | apply digits_cls; assumption | lia
            | split; [lia|right; reflexivity]].
        - reflexivity. }
      eapply takes_seq.
      { apply takes_chr with (c := 47%N) (t := y ++ t); reflexivity. }
      apply takes_grp_text with (s := y).
      + apply takes_run with (s := y) (t := t);
          [reflexivity | apply digits_cls; assumption | lia
          | split; [lia|left; exact Ly]].
      + reflexivity.
    - split; reflexivity. }
  destruct T as ([p t' caps] & T & Ht & Hc). simpl in Ht, Hc. subst.
  exists p. apply T. reflexivity.
Qed.

Lemma iter_cls_run fl neg items gs : forall n x y,
  iter (fun u v => matches fl (Cls neg items) (with_caps u (clear_caps gs (ms_caps u))) v) n x y ->
  exists s, ms_rest x = s ++ ms_rest y /\ List.length s = n /\
            Forall (fun c => cls_match fl neg items c = true) s.
Proof.
  induction n as [|n IH]; intros x y H; simpl in H.
  - subst. exists []. repeat split. constructor.
  - destruct H as (z & (c & rest & E & Hc & ->) & H). apply IH in H.
    destruct H as (s & Es & Ls & Fs). simpl in E, Es.
    exists (c :: s). simpl. rewrite E, Es. repeat split; [congruence|].
    constructor; assumption.
Qed.

Lemma chr_match_exact p c : chr_match no_flags p c = true -> c = p.
Proof. unfold chr_match, canon, char_eqb. simpl. intros H. apply N.eqb_eq in H. congruence. Qed.

Lemma cls_digits fl s :
  Forall (fun c => cls_match fl false [CDigit] c = true) s -> digits s.
Proof.
  intros H. eapply Forall_impl; [|exact H]. intros c Hc. cbv beta in Hc.
  rewrite cls_digit in Hc. exact Hc.
Qed.

(** A match of the date pattern is a date with a four-digit year. *)
Lemma re_date_matches x y :
  matches no_flags re_date x y ->
  exists mo d yr,
    ms_rest x = date_text mo d yr ++ ms_rest y /\ date_parts mo d yr.
Proof.
  unfold re_date. cbn [matches groups].
  intros (z1 & (z0 & (n1 & W1 & I1) & ->) & z2 & (c1 & r1 & E1 & C1 & ->) &
          z3 & (z4 & (n2 & W2 & I2) & ->) & z5 & (c2 & r2 & E2 & C2 & ->) &
          z6 & (n3 & W3 & I3) & ->).
  apply iter_cls_run in I1, I2, I3.
  destruct I1 as (mo & Emo & Lmo & Fmo), I2 as (d & Ed & Ld & Fd), I3 as (yr & Ey & Ly & Fy).
  apply chr_match_exact in C1, C2. subst c1 c2.
  unfold with_caps, advance in *. cbn [ms_rest ms_caps ms_prev] in *.
  exists mo, d, yr. split.
  - unfold date_text. rewrite Emo, E1, Ed, E2, Ey.
    rewrite <- !app_assoc. simpl. rewrite <- !app_assoc. reflexivity.
  - unfold date_parts, within in *. simpl in W1, W2, W3.
    repeat split; try (apply cls_digits with (fl := no_flags); assumption); lia.
Qed.

Lemma js_match_date_contains text mt :
  js_match no_flags re_date text = Some mt -> contains_date text.
Proof.
  intros H. apply js_match_sound in H.
  destruct H as (pre & prev & y & E & _ & Hm & _).
  apply re_date_matches in Hm. destruct Hm as (mo & d & yr & Em & Hp).
  cbn [ms_rest] in Em. exists pre, mo, d, yr, (ms_rest y). split; [|exact Hp].
  rewrite E, Em. reflexivity.
Qed.

Lemma parseDate_no_date text :
  ~ contains_date text -> parseDate (Some text) = Ok None.
Proof.
  intros H. unfold parseDate. destruct text as [|c t]; [reflexivity|].
  destruct (js_match no_flags re_date (c :: t)) as [mt|] eqn:E; [|reflexivity].
  exfalso. apply H. eapply js_match_date_contains. exact E.
Qed.

Lemma parseDate_date mo d yr :
  date_parts mo d yr ->
  parseDate (Some (date_text mo d yr)) = Ok (Some (canonical_date mo d yr)).
Proof.
  intros (Hmo & Hd & Hy & Lmo & Ld & Ly).
  destruct (@date_takes None mo d yr [] Hmo Hd Hy Lmo Ld Ly) as (p & Hm).
  rewrite app_nil_r in Hm. apply js_match_first in Hm.
  unfold parseDate, date_text.
  destruct mo as [|c mo']; [simpl in Lmo; lia|].
  cbn [app] in Hm |- *. rewrite Hm. reflexivity.
Qed.

(** A text that contains a date is matched by the date pattern. *)
Lemma js_match_date_finds text :
  contains_date text -> exists mt, js_match no_flags re_date text = Some mt.
Proof.
  intros (pre & mo & d & yr & post & -> & (Hmo & Hd & Hy & Lmo & Ld & Ly)).
  destruct (js_match no_flags re_date (pre ++ date_text mo d yr ++ post)) as [mt|] eqn:E;
    [eauto|].
  exfalso. revert E. apply search_finds. intros p.
  destruct (date_takes p mo d yr post Hmo Hd Hy Lmo Ld Ly) as (q & Hq).
  unfold date_text. rewrite <- app_assoc. cbn [app]. rewrite <- app_assoc. cbn [app].
  rewrite Hq. discriminate.
Qed.

Lemma parseDate_some_iff text :
  contains_date text <-> exists s, parseDate (Some text) = Ok (Some s).
Proof.
  split.
  - intros H. destruct (js_match_date_finds _ H) as (mt & Hm).
    unfold parseDate. destruct text as [|c t].
    { destruct H as (pre & mo & d & yr & post & E & (_ & _ & _ & L & _)).
      destruct pre, mo; simpl in *; try discriminate; lia. }
    rewrite Hm.
    destruct (js_match_group _ _ _ _ 1 _ Hm eq_refl) as (c1 & -> & _).
    destruct (js_match_group _ _ _ _ 2 _ Hm eq_refl) as (c2 & -> & _).
    cbn [defined bind]. eauto.
  - intros (s & H). unfold parseDate in H. destruct text as [|c t]; [discriminate|].
    destruct (js_match no_flags re_date (c :: t)) as [mt|] eqn:E; [|discriminate].
    eapply js_match_date_contains. exact E.
Qed.

End DateFacts.

Import DateFacts.

(* ================================================================== *)
(** * The feet pattern *)
(* ================================================================== *)

Module FeetFacts.

Lemma stops_digit t : stops number_char t -> stops (cls_match no_flags false [CDigit]) t.
Proof.
  destruct t as [|c t]; simpl; [trivial|]. unfold number_char.
  intros H. apply orb_false_iff in H. destruct H as [H _].
  change (cls_match no_flags false [CDigit] c = false). rewrite cls_digit. exact H.
Qed.

Lemma stops_dot t : stops number_char t -> stops (chr_match no_flags 46%N) t.
Proof.
  destruct t as [|c t]; simpl; [trivial|]. unfold number_char.
  intros H. apply orb_false_iff in H. destruct H as [_ H].
  change (N.eqb 46 c = false). rewrite N.eqb_sym. exact H.
Qed.

Lemma takes_decimal x F t :
  decimal F -> ms_rest x = F ++ t -> stops number_char t ->
  takes no_flags dec_pat x (after F x t).
Proof.
  intros (ip & fp & -> & Hip & Nip & Hfp) E Hstop. unfold dec_pat.
  destruct Hfp as [-> | (fd & -> & Hfd & Nfd)].
  - rewrite app_nil_r in E |- *.
    eapply takes_seq.
    + apply takes_run with (s := ip) (t := t);
        [exact E | apply digits_cls; exact Hip | destruct ip; [congruence|simpl; lia]
        | apply stops_digit; exact Hstop].
    + apply takes_opt_skip. apply fails_seq. apply fails_chr. apply stops_dot. exact Hstop.
  - rewrite <- app_assoc in E. simpl in E.
    assert (Ez : after (ip ++ 46%N :: fd) x t =
                 after fd (after [46%N]
                   (with_caps (after ip x (46%N :: fd ++ t))
                      (clear_caps (groups (Seq (Chr 46%N) (Rep 1 None true (Cls false [CDigit]))))
                         (ms_caps (after ip x (46%N :: fd ++ t))))) (fd ++ t)) t).
    { unfold after, with_caps. cbn [ms_prev ms_caps ms_rest groups app].
      rewrite clear_caps_nil, fold_left_app. reflexivity. }
    rewrite Ez.
    eapply takes_seq.
    + apply takes_run with (s := ip) (t := 46%N :: fd ++ t);
        [exact E | apply digits_cls; exact Hip | destruct ip; [congruence|simpl; lia]
        | reflexivity].
    + apply takes_opt.
      * eapply takes_seq.
        -- apply takes_chr with (c := 46%N) (t := fd ++ t); reflexivity.
        -- apply takes_run with (s := fd) (t := t);
             [reflexivity | apply digits_cls; exact Hfd | destruct fd; [congruence|simpl; lia]
             | apply stops_digit; exact Hstop].
      * rewrite !after_rest. change (List.length t < S (List.length (fd ++ t))).
        rewrite length_app. lia.
Qed.

Lemma decimal_head F : decimal F -> exists c t, F = c :: t /\ is_digit c = true.
Proof.
  intros (ip & fp & -> & Hip & Nip & _). destruct ip as [|c ip]; [congruence|].
  inversion Hip; subst. exists c, (ip ++ fp). split; [reflexivity|assumption].
Qed.

Lemma digit_not_space c : is_digit c = true -> is_space c = false.
Proof.
  unfold is_digit, is_space, in_range. intros H. apply andb_true_iff in H.
  destruct H as [A B]. apply N.leb_le in A, B.
  repeat match goal with
  | |- context [N.leb ?a ?b] => destruct (N.leb_spec a b); try lia
  | |- context [N.eqb ?a ?b] => destruct (N.eqb_spec a b); try lia
  end; reflexivity.
Qed.

Lemma cls_space c : cls_match no_flags false [CSpace] c = is_space c.
Proof. unfold cls_match, citem_match. simpl. destruct (is_space c); reflexivity. Qed.

Lemma spaces_cls ws :
  spaces ws -> Forall (fun c => cls_match no_flags false [CSpace] c = true) ws.
Proof. intros H. eapply Forall_impl; [|exact H]. intros c Hc. rewrite cls_space. exact Hc. Qed.



(** [F]: feet alone. *)
Lemma re_feet_feet F :
  decimal F ->
  exists mr,
    js_match no_flags re_feet F = Some mr /\
    group 1 mr = Some F /\ group 2 mr = None.
Proof.
  intros HF.
  set (x0 := MState None F []).
  assert (T : exists z, takes no_flags re_feet x0 z /\ ms_caps z = [(1, F)]).
  { eexists. split.
    - unfold re_feet. change re_feet with (Seq (Grp 1 dec_pat) (Seq (Rep 0 None true (Cls false [CSpace])) (Seq (Rep 0 (Some 1) true (Cls false [CChar 39%N; CChar 39%N])) (Seq (Rep 0 None true (Cls false [CSpace])) (Seq (Rep 0 (Some 1) true (Grp 2 dec_pat)) (Seq (Rep 0 None true (Cls false [CSpace])) (Rep 0 (Some 1) true (Cls false [CChar 34%N; CChar 34%N])))))))).
      eapply takes_seq.
      { apply takes_grp_text with (s := F).
        - apply takes_decimal with (t := []);
            [exact HF | symmetry; apply app_nil_r | exact I].
        - symmetry; apply app_nil_r. }
      eapply takes_seq.
      { apply takes_run with (s := []) (t := []);
          [reflexivity | constructor | simpl; lia | exact I]. }
      eapply takes_seq.
      { apply takes_opt_skip. apply fails_cls. exact I. }
      eapply takes_seq.
      { apply takes_run with (s := []) (t := []);
          [reflexivity | constructor | simpl; lia | exact I]. }
      eapply takes_seq.
      { apply takes_opt_skip. apply fails_grp. apply fails_seq.
        apply fails_rep_min; [lia | reflexivity |]. apply fails_cls. exact I. }
      eapply takes_seq.
      { apply takes_run with (s := []) (t := []);
          [reflexivity | constructor | simpl; lia | exact I]. }
      apply takes_opt_skip. apply fails_cls. exact I.
    - reflexivity. }
  destruct T as (z & T & Hc).
  specialize (T (fun y => Some y) z eq_refl). apply js_match_first in T.
  eexists. split; [exact T|]. unfold group. cbn [mr_caps]. rewrite Hc. split; reflexivity.
Qed.

Lemma parseFeet_feet F :
  decimal F -> parseFeet (Some F) = Some (two_decimals (parseFloat F)).
Proof.
  intros HF. destruct (re_feet_feet _ HF) as (mr & Hm & G1 & G2).
  destruct (decimal_head _ HF) as (c & t & -> & _).
  unfold parseFeet. rewrite Hm, G1, G2. reflexivity.
Qed.


(** *** Whole feet and inches: the rounding is exact *)

(** [hundredths] is within a third of the exact number of hundredths. *)
Lemma hundredths_nearest F I :
  (Z.abs (3 * hundredths F I - (300 * F + 25 * I)) <= 1)%Z.
Proof.
  unfold hundredths.
  pose proof (Z.div_mod (2 * (300 * F + 25 * I) + 3) 6 ltac:(lia)) as E.
  pose proof (Z.mod_pos_bound (2 * (300 * F + 25 * I) + 3) 6 ltac:(lia)) as B.
  lia.
Qed.

Lemma span_digits_all ds : digits ds -> span_digits ds = (ds, []).
Proof.
  induction 1 as [|c ds Hc _ IH]; simpl; [reflexivity|]. rewrite Hc, IH. reflexivity.
Qed.

Lemma of_decimal_whole v n : of_decimal false v n 0 = whole v.
Proof.
  unfold whole, of_decimal. destruct v; try reflexivity.
  replace (0 <? - (Z.of_nat n + 400))%Z with false by (symmetry; apply Z.ltb_ge; lia).
  reflexivity.
Qed.

(** [parseFloat] on a run of digits. *)
Lemma parseFloat_digits ds :
  digits ds -> ds <> [] -> parseFloat ds = whole (digits_value ds).
Proof.
  intros Hd Hn. destruct ds as [|c t]; [congruence|].
  pose proof (Forall_inv Hd) as Hc.
  unfold parseFloat. cbn [trimStart]. rewrite (digit_not_space _ Hc).
  assert (R : read_sign (c :: t) = (false, c :: t)).
  { unfold is_digit, in_range in Hc. apply andb_true_iff in Hc. destruct Hc as [A B].
    apply N.leb_le in A, B. unfold read_sign.
    destruct c as [|p]; [lia|].
    do 6 (destruct p as [p|p|]; try reflexivity; try lia). }
  rewrite R.
  assert (S : starts_with (str "Infinity") (c :: t) = false).
  { unfold is_digit, in_range in Hc. apply andb_true_iff in Hc. destruct Hc as [A B].
    apply N.leb_le in A, B.
    change (str "Infinity") with (73%N :: str "nfinity").
    cbn [starts_with]. unfold char_eqb.
    destruct (N.eqb_spec 73 c); [lia|reflexivity]. }
  rewrite S, (span_digits_all _ Hd). rewrite app_nil_r.
  cbn [read_exponent Z.of_nat List.length]. rewrite Z.sub_0_r.
  change (of_decimal false (digits_value (c :: t)) (List.length (c :: t)) 0 =
          whole (digits_value (c :: t))).
  apply of_decimal_whole.
Qed.

Lemma digits_value_nonneg ds : (0 <= digits_value ds)%Z.
Proof.
  unfold digits_value.
  assert (G : forall a, (0 <= a)%Z ->
            (0 <= fold_left (fun acc c => (10 * acc + Z.of_N (c - 48))%Z) ds a)%Z).
  { induction ds as [|c t IH]; intros a Ha; cbn [fold_left]; [exact Ha|]. apply IH.
    pose proof (N2Z.is_nonneg (c - 48)). lia. }
  apply G. lia.
Qed.

Lemma digits_decimal ds : digits ds -> ds <> [] -> decimal ds.
Proof. intros H N. exists ds, []. rewrite app_nil_r. repeat split; auto. Qed.

Lemma exact_below_at nf ni F I :
  exact_below nf ni = true ->
  (0 <= F < Z.of_nat nf)%Z -> (0 <= I < Z.of_nat ni)%Z -> exact_at F I = true.
Proof.
  intros H HF HI. unfold exact_below in H. rewrite forallb_forall in H.
  specialize (H (Z.to_nat F)). rewrite forallb_forall in H.
  specialize (H ltac:(apply in_seq; lia) (Z.to_nat I) ltac:(apply in_seq; lia)).
  rewrite !Z2Nat.id in H by lia. exact H.
Qed.

Lemma exact_table : exact_below 1000 12 = true.
Proof. vm_compute. reflexivity. Qed.


(** *** Decimals with one or two digits after the point *)

Lemma all_from_at f : forall n z x,
  all_from f z n = true -> (z <= x < z + Z.of_nat n)%Z -> f x = true.
Proof.
  induction n as [|n IH]; intros z x H B; [lia|].
  cbn [all_from] in H. apply andb_true_iff in H. destruct H as [H1 H2].
  destruct (Z.eq_dec x z) as [->|Ne]; [exact H1|].
  apply (IH (z + 1)%Z x H2). lia.
Qed.

Lemma span_digits_app ip rest :
  digits ip -> stops is_digit rest -> span_digits (ip ++ rest) = (ip, rest).
Proof.
  induction 1 as [|c ip Hc _ IH]; intros Hr.
  - destruct rest as [|c t]; [reflexivity|]. cbn [app span_digits].
    unfold stops in Hr. rewrite Hr. reflexivity.
  - cbn [app span_digits]. rewrite Hc, (IH Hr). reflexivity.
Qed.

Lemma of_decimal_ndigits v n e :
  (-2 <= e <= 0)%Z -> of_decimal false v n e = of_decimal false v 0 e.
Proof.
  intros B. unfold of_decimal. destruct v; try reflexivity.
  replace (e <? - (Z.of_nat n + 400))%Z with false by (symmetry; apply Z.ltb_ge; lia).
  replace (e <? - (Z.of_nat 0 + 400))%Z with false by (symmetry; apply Z.ltb_ge; lia).
  reflexivity.
Qed.

(** A decimal with a fraction of [k] digits is read as its digits taken
    as a whole number, [k] places down. *)
Lemma parseFloat_fraction ip fd :
  digits ip -> ip <> [] -> digits fd -> fd <> [] ->
  parseFloat (ip ++ 46%N :: fd) =
  of_decimal false (digits_value (ip ++ fd)) (List.length (ip ++ fd))
             (- Z.of_nat (List.length fd)).
Proof.
  intros Hi Ni Hf Nf. destruct ip as [|c t]; [congruence|].
  pose proof (Forall_inv Hi) as Hc.
  unfold parseFloat. cbn [app trimStart]. rewrite (digit_not_space _ Hc).
  assert (R : read_sign (c :: t ++ 46%N :: fd) = (false, c :: t ++ 46%N :: fd)).
  { unfold is_digit, in_range in Hc. apply andb_true_iff in Hc. destruct Hc as [A B].
    apply N.leb_le in A, B. unfold read_sign.
    destruct c as [|p]; [lia|].
    do 6 (destruct p as [p|p|]; try reflexivity; try lia). }
  rewrite R.
  assert (S : starts_with (str "Infinity") (c :: t ++ 46%N :: fd) = false).
  { unfold is_digit, in_range in Hc. apply andb_true_iff in Hc. destruct Hc as [A B].
    apply N.leb_le in A, B.
    change (str "Infinity") with (73%N :: str "nfinity").
    cbn [starts_with]. unfold char_eqb.
    destruct (N.eqb_spec 73 c); [lia|reflexivity]. }
  rewrite S.
  change (c :: t ++ 46%N :: fd) with ((c :: t) ++ 46%N :: fd).
  rewrite (span_digits_app (c :: t) (46%N :: fd) Hi eq_refl).
  rewrite (span_digits_all _ Hf).
  destruct ((c :: t) ++ fd) eqn:E; [discriminate E|]. rewrite <- E.
  cbn [read_exponent]. rewrite Z.sub_0_l. reflexivity.
Qed.

Lemma digit_value c : is_digit c = true -> (0 <= Z.of_N (c - 48) <= 9)%Z.
Proof.
  unfold is_digit, in_range. intros H. apply andb_true_iff in H. destruct H as [A B].
  apply N.leb_le in A, B. lia.
Qed.

Lemma digits_value_fold ds : forall a,
  digits ds ->
  (fold_left (fun acc c => (10 * acc + Z.of_N (c - 48))%Z) ds a =
   a * 10 ^ Z.of_nat (List.length ds) + digits_value ds)%Z /\
  (0 <= digits_value ds < 10 ^ Z.of_nat (List.length ds))%Z.
Proof.
  unfold digits_value. induction ds as [|c ds IH] using rev_ind; intros a H.
  - cbn. lia.
  - apply Forall_app in H. destruct H as [H Hc]. inversion Hc as [|? ? Hd _]; subst.
    pose proof (digit_value _ Hd) as Bd.
    rewrite !fold_left_app. cbn [fold_left].
    destruct (IH a H) as [E1 B1]. destruct (IH 0%Z H) as [_ B0].
    rewrite E1. rewrite length_app. cbn [List.length].
    replace (Z.of_nat (List.length ds + 1)) with (Z.of_nat (List.length ds) + 1)%Z by lia.
    rewrite Z.pow_add_r by lia. change (10 ^ 1)%Z with 10%Z.
    split; [ring|]. nia.
Qed.

Lemma digits_value_app ip fd :
  digits ip -> digits fd ->
  (digits_value (ip ++ fd) =
   digits_value ip * 10 ^ Z.of_nat (List.length fd) + digits_value fd)%Z.
Proof.
  intros Hi Hf. unfold digits_value at 1. rewrite fold_left_app.
  fold (digits_value ip). apply (digits_value_fold fd _ Hf).
Qed.

Lemma all_below f n x :
  all_from f 0 (Z.to_nat n) = true -> (0 <= x < n)%Z -> f x = true.
Proof.
  intros H B. apply (all_from_at f _ _ x H). rewrite Z2Nat.id; lia.
Qed.



Lemma decimal_table :
  all_from fixed_at 0 (Z.to_nat 10000) && all_from tenth_at 0 (Z.to_nat 1000) = true.
Proof. vm_compute. reflexivity. Qed.

Lemma fraction_decimal ip fd :
  digits ip -> ip <> [] -> digits fd -> fd <> [] -> decimal (ip ++ 46%N :: fd).
Proof.
  intros Hi Ni Hf Nf. exists ip, (46%N :: fd). repeat split; auto.
  right. exists fd. auto.
Qed.

(** With one or two digits after the point nothing is to round: the
    hundredth nearest to the decimal is the decimal. *)
Lemma nearest_hundredth_short n k :
  1 <= k <= 2 ->
  (nearest_hundredth n k * 10 ^ Z.of_nat k = 100 * n)%Z.
Proof.
  intros B. unfold nearest_hundredth.
  assert (K : k = 1 \/ k = 2) by lia. destruct K as [-> | ->].
  - change (10 ^ Z.of_nat 1)%Z with 10%Z.
    replace (200 * n + 10)%Z with (10 * n * (2 * 10) + 10)%Z by ring.
    rewrite Z.div_add_l by lia. change (10 / (2 * 10))%Z with 0%Z. ring.
  - change (10 ^ Z.of_nat 2)%Z with 100%Z.
    replace (200 * n + 100)%Z with (n * (2 * 100) + 100)%Z by ring.
    rewrite Z.div_add_l by lia. change (100 / (2 * 100))%Z with 0%Z. ring.
Qed.

(** Below 100 feet, a decimal with one or two digits after the point
    is returned as the number nearest to it. *)
Lemma two_decimals_short ip fd :
  digits ip -> ip <> [] -> digits fd -> 1 <= List.length fd <= 2 ->
  (digits_value ip < 100)%Z ->
  two_decimals (parseFloat (ip ++ 46%N :: fd)) =
  of_hundredths (nearest_hundredth (digits_value (ip ++ fd)) (List.length fd)).
Proof.
  intros Hi Ni Hf Bf Bi.
  assert (Nf : fd <> []) by (destruct fd; [simpl in Bf; lia | discriminate]).
  pose proof decimal_table as T. apply andb_true_iff in T. destruct T as [T1 T2].
  rewrite parseFloat_fraction by assumption.
  pose proof (digits_value_app ip fd Hi Hf) as Ev.
  destruct (digits_value_fold fd 0%Z Hf) as [_ Bv].
  pose proof (digits_value_nonneg ip) as B0.
  set (n := digits_value (ip ++ fd)) in *.
  pose proof (nearest_hundredth_short n _ Bf) as En.
  assert (K : List.length fd = 1 \/ List.length fd = 2) by lia.
  destruct K as [K | K]; rewrite K in *.
  - change (10 ^ Z.of_nat 1)%Z with 10%Z in *.
    assert (Eh : nearest_hundredth n 1 = (10 * n)%Z) by lia. rewrite Eh.
    rewrite (of_decimal_ndigits n _ (- Z.of_nat 1)) by lia.
    pose proof (all_below tenth_at _ n T2 ltac:(lia)) as E1.
    pose proof (all_below fixed_at _ (10 * n)%Z T1 ltac:(lia)) as E2.
    unfold tenth_at in E1. unfold fixed_at in E2. cbv zeta in E2.
    apply Leibniz.eqb_spec in E1, E2.
    change (- Z.of_nat 1)%Z with (-1)%Z. rewrite E1. exact E2.
  - change (10 ^ Z.of_nat 2)%Z with 100%Z in *.
    assert (Eh : nearest_hundredth n 2 = n) by lia. rewrite Eh.
    rewrite (of_decimal_ndigits n _ (- Z.of_nat 2)) by lia.
    pose proof (all_below fixed_at _ n T1 ltac:(lia)) as E2.
    unfold fixed_at in E2. cbv zeta in E2. apply Leibniz.eqb_spec in E2.
    exact E2.
Qed.



End FeetFacts.

Import FeetFacts.

(* ================================================================== *)
(** * Correction items *)
(* ================================================================== *)

Module CorrectionFacts.















(** ** Captures and pieces are parts of the text *)

Lemma substring_refl s : substring s s.
Proof. exists [], []. rewrite app_nil_r. reflexivity. Qed.

Lemma substring_app c p s q : substring c s -> substring c (p ++ s ++ q).
Proof.
  intros (p' & q' & ->). exists (p ++ p'), (q' ++ q).
  rewrite <- !app_assoc. reflexivity.
Qed.

Lemma substring_suffix c p s : substring c s -> substring c (p ++ s).
Proof. intros H. rewrite <- (app_nil_r s). apply substring_app. exact H. Qed.

Lemma substring_trans a b c : substring a b -> substring b c -> substring a c.
Proof. intros H (p & q & ->). apply substring_app. exact H. Qed.

Section Captures.
Variable fl : flags.

Lemma get_cap_clear_some i gs caps c :
  get_cap i (clear_caps gs caps) = Some c -> get_cap i caps = Some c.
Proof. rewrite get_cap_clear. destruct (mem i gs); [discriminate|auto]. Qed.

Lemma iter_captures (R : mstate -> mstate -> Prop) gs :
  (forall u v, R u v -> exists s, ms_rest u = s ++ ms_rest v) ->
  (forall u v, R u v -> forall i c, get_cap i (ms_caps v) = Some c ->
     get_cap i (ms_caps u) = Some c \/ substring c (ms_rest u)) ->
  forall n x y, iter (fun u v => R (with_caps u (clear_caps gs (ms_caps u))) v) n x y ->
    forall i c, get_cap i (ms_caps y) = Some c ->
      get_cap i (ms_caps x) = Some c \/ substring c (ms_rest x).
Proof.
  intros Hext HR. induction n as [|n IH]; intros x y H i c Hc; simpl in H.
  - subst. left. exact Hc.
  - destruct H as (z & H1 & H2).
    destruct (IH _ _ H2 _ _ Hc) as [Hz|Hz].
    + destruct (HR _ _ H1 _ _ Hz) as [Hx|Hx].
      * left. cbn [with_caps ms_caps] in Hx. eapply get_cap_clear_some. exact Hx.
      * right. exact Hx.
    + right. destruct (Hext _ _ H1) as (s & Es). cbn [with_caps ms_rest] in Es.
      rewrite Es. apply substring_suffix. exact Hz.
Qed.

(** What a group holds after a match was there before or is a piece of
    the text the match started on. *)
Theorem matches_captures : forall r x y,
  matches fl r x y ->
  forall i c, get_cap i (ms_caps y) = Some c ->
    get_cap i (ms_caps x) = Some c \/ substring c (ms_rest x).
Proof.
  induction r; intros x y H j cap Hc; simpl in H.
  - subst. left. exact Hc.
  - destruct H as (? & ? & _ & _ & ->). left. exact Hc.
  - destruct H as (? & ? & _ & _ & ->). left. exact Hc.
  - destruct H as (? & ? & _ & _ & ->). left. exact Hc.
  - destruct H as (z & H1 & H2).
    destruct (IHr2 _ _ H2 _ _ Hc) as [Hz|Hz].
    + apply (IHr1 _ _ H1 _ _ Hz).
    + right. destruct (matches_extent _ _ _ _ H1) as (s & Es & _).
      rewrite Es. apply substring_suffix. exact Hz.
  - destruct H as [H|H]; [apply (IHr1 _ _ H _ _ Hc) | apply (IHr2 _ _ H _ _ Hc)].
  - destruct H as (z & H1 & ->). cbn [with_caps ms_caps] in Hc.
    rewrite get_cap_set in Hc. destruct (Nat.eqb j i).
    + injection Hc as <-. right.
      destruct (matches_extent _ _ _ _ H1) as (s & Es & _).
      rewrite (consumed_app _ _ _ Es), Es. exists [], (ms_rest z). reflexivity.
    + apply (IHr _ _ H1 _ _ Hc).
  - destruct H as (n & _ & Hit).
    eapply iter_captures in Hit; [exact Hit | | | exact Hc].
    + intros u v Huv. destruct (matches_extent _ _ _ _ Huv) as (s & Es & _). eauto.
    + exact IHr.
  - destruct H as (_ & ->). left. exact Hc.
  - destruct H as (_ & ->). left. exact Hc.
  - destruct H as (z & H1 & ->). cbn [with_caps ms_caps ms_rest] in *.
    apply (IHr _ _ H1 _ _ Hc).
Qed.

Corollary js_match_group_substring r s mr i c :
  js_match fl r s = Some mr -> group i mr = Some c -> substring c s.
Proof.
  intros H Hg. apply js_match_sound in H.
  destruct H as (pre & prev & y & E & _ & Hm & Hc).
  unfold group in Hg. rewrite Hc in Hg.
  destruct (matches_captures _ _ _ Hm _ _ Hg) as [H|H]; [discriminate|].
  cbn [ms_rest] in H. rewrite E. apply substring_suffix. exact H.
Qed.

Lemma split_from_substring r : forall rest prev piece skip b,
  In b (split_from fl r prev rest piece skip) ->
  skip = 0 \/ piece = [] ->
  substring b (rev piece ++ rest).
Proof.
  induction rest as [|c rest IH]; intros prev piece skip b Hin Hs; simpl in Hin.
  - destruct Hin as [<-|[]]. rewrite app_nil_r. apply substring_refl.
  - destruct skip as [|n].
    + destruct (m fl r (MState prev (c :: rest) []) (fun y => Some y)) as [y|].
      * destruct (consumed (MState prev (c :: rest) []) y) as [|c0 t].
        -- destruct piece as [|p0 piece].
           ++ apply IH in Hin; [|left; reflexivity]. exact Hin.
           ++ destruct Hin as [<-|Hin].
              ** exists [], (c :: rest). reflexivity.
              ** apply IH in Hin; [|left; reflexivity].
                 apply substring_suffix. exact Hin.
        -- destruct Hin as [<-|Hin].
           ++ exists [], (c :: rest). reflexivity.
           ++ apply IH in Hin; [|right; reflexivity].
              apply substring_suffix. apply (substring_suffix b [c] rest). exact Hin.
      * apply IH in Hin; [|left; reflexivity].
        simpl in Hin. rewrite <- app_assoc in Hin. exact Hin.
    + destruct Hs as [Hs|Hs]; [discriminate|]. subst piece.
      apply IH in Hin; [|right; reflexivity].
      apply (substring_suffix b [c] rest). exact Hin.
Qed.

Corollary split_re_substring r s b : In b (split_re fl r s) -> substring b s.
Proof.
  unfold split_re. destruct s as [|c s].
  - destruct (m fl r (MState None [] []) (fun y => Some y)); intros H; [destruct H|].
    destruct H as [<-|[]]. apply substring_refl.
  - intros H. apply split_from_substring in H; [exact H | left; reflexivity].
Qed.

End Captures.

(** ** Blocks *)








Lemma blocks_loop_order (P : CorrectionBlock.t -> Prop) : forall blocks acc cs,
  blocks_loop blocks acc = Ok cs ->
  Forall P acc ->
  (forall block cb, In block blocks -> parseBlock block = Ok (Some cb) -> P cb) ->
  Forall P cs.
Proof.
  induction blocks as [|b blocks IH]; intros acc cs H Hacc Hp; simpl in H.
  - injection H as <-. exact Hacc.
  - destruct (parseBlock b) as [ob| |] eqn:Eb; cbn [bind] in H; try discriminate.
    apply IH in H; [exact H | |].
    + destruct ob as [cb|]; [|exact Hacc].
      apply Forall_app. split; [exact Hacc|].
      constructor; [|constructor]. apply (Hp b); [left; reflexivity | exact Eb].
    + intros block cb Hin. apply Hp. right. exact Hin.
Qed.


End CorrectionFacts.

Import CorrectionFacts.
Import Examples.

(* ================================================================== *)
(** * The properties of the specification *)
(* ================================================================== *)

(** ** C2 *)

(** C2. For every input string, the empty string included,
    [parsePermitComments] returns a record: it does not raise and none of
    its loops runs forever. *)
Theorem parsePermitComments_total :
  forall content includeRaw,
    exists p, parsePermitComments content includeRaw = Ok p /\
              PermitComments.raw_text p = (if includeRaw then Some content else None).
Proof.
  intros content includeRaw.
  destruct (parsePermitComments_ok content includeRaw) as [p Hp].
  exists p. split; [exact Hp|].
  apply parsePermitComments_fields in Hp.
  destruct Hp as (h & d & _ & _ & _ & _ & _ & _ & _ & ->). reflexivity.
Qed.

Example parse_empty_text :
  exists p, parsePermitComments [] false = Ok p /\
            PermitComments.zoning_review p = None /\
            PermitComments.corrections p = [].
Proof. eexists. split; [vm_compute; reflexivity|]. split; reflexivity. Qed.

(** ** C10 *)

Lemma or_null_nonempty c : 1 <= List.length c -> or_null (Some c) = Some c /\ c <> [].
Proof. destruct c; simpl; intros H; [lia|]. split; [reflexivity|discriminate]. Qed.

Lemma parseHeader_lot_block content h :
  parseHeader content = Ok h ->
  (Property.lot (snd h) = None /\ Property.block (snd h) = None /\
   js_match flag_i re_lotBlock content = None) \/
  (exists mt l b,
     js_match flag_i re_lotBlock content = Some mt /\
     group 1 mt = Some l /\ group 2 mt = Some b /\
     Property.lot (snd h) = Some l /\ Property.block (snd h) = Some b /\
     l <> [] /\ b <> []).
Proof.
  unfold parseHeader.
  destruct (parseDate _) as [d1| |]; cbn [bind]; try discriminate.
  destruct (parseDate _) as [d2| |]; cbn [bind]; try discriminate.
  intros H. injection H as <-. cbn [snd Property.lot Property.block].
  destruct (js_match flag_i re_lotBlock content) as [mt|] eqn:E.
  - right.
    destruct (js_match_group _ _ _ _ 1 _ E eq_refl) as (l & Hl & Ll).
    destruct (js_match_group _ _ _ _ 2 _ E eq_refl) as (b & Hb & Lb).
    destruct (or_null_nonempty l Ll) as [Ol Nl].
    destruct (or_null_nonempty b Lb) as [Ob Nb].
    exists mt, l, b. cbn [opt_group]. rewrite Hl, Hb, Ol, Ob. repeat split; assumption.
  - left. repeat split.
Qed.

(** C10. The lot and the block of the property are both null or both
    non-null: they are the two groups of one match of the Lot/Block
    pattern, each of at least one character. *)
Theorem lot_and_block_paired :
  forall content includeRaw,
    exists p, parsePermitComments content includeRaw = Ok p /\
      let prop := PermitComments.property p in
      (Property.lot prop = None /\ Property.block prop = None) \/
      (exists mt l b,
         js_match flag_i re_lotBlock content = Some mt /\
         group 1 mt = Some l /\ group 2 mt = Some b /\
         Property.lot prop = Some l /\ Property.block prop = Some b /\
         l <> [] /\ b <> []).
Proof.
  intros content includeRaw.
  destruct (parsePermitComments_ok content includeRaw) as [p Hp].
  exists p. split; [exact Hp|]. cbv zeta.
  apply parsePermitComments_fields in Hp.
  destruct Hp as (h & d & Hh & _ & _ & _ & _ & _ & _ & ->).
  cbn [PermitComments.property].
  destruct (parseHeader_lot_block _ _ Hh) as [(A & B & _)|H]; [left; split; assumption|right; exact H].
Qed.

Example lot_block_example :
  exists p, parsePermitComments (str "Lot/Block: 5/A") false = Ok p /\
            Property.lot (PermitComments.property p) = Some (str "5") /\
            Property.block (PermitComments.property p) = Some (str "A").
Proof. eexists. split; [vm_compute; reflexivity|]. split; reflexivity. Qed.

(** ** C3 and C1 *)

Lemma dimensional_side_known a b : side_known (dimensional a b).
Proof.
  intros v H. destruct a as [a|], b as [b|]; simpl in H; try discriminate;
    injection H as <-; simpl; [left|left|right]; discriminate.
Qed.

(** The shape of what [zoningFields] builds. *)
Lemma zoningFields_shape zc :
  exists lc h lw dc f sl sr r pk,
    zoningFields zc =
    ZoningReview.mk
      (ZoningReview.zoning_district (zoningFields zc))
      (ZoningReview.plat_name (zoningFields zc))
      (ZoningReview.plat_number (zoningFields zc))
      (ZoningReview.slab_sf (zoningFields zc))
      (ZoningReview.lot_area_sf (zoningFields zc))
      (dimensional (fst lc) (snd lc)) (dimensional (fst h) (snd h))
      (dimensional (fst lw) (snd lw)) (dimensional (fst dc) (snd dc))
      (Some (Setbacks.mk (dimensional (fst f) (snd f)) (dimensional (fst sl) (snd sl))
                         (dimensional (fst sr) (snd sr)) (dimensional (fst r) (snd r))))
      (Some pk)
      (ZoningReview.ufc_permit (zoningFields zc)) /\
    lc = lotCoverage zc.
Proof.
  unfold zoningFields.
  destruct (lotCoverage zc) as [a1 b1].
  destruct (cascade2 parseFeet _ _) as [a2 b2].
  destruct (cascade2 parseFeet _ _) as [a3 b3].
  destruct (cascade2 parsePercent _ _) as [a4 b4].
  destruct (cascade2 parseFeet _ _) as [a5 b5].
  destruct (sides zc) as [[a6 b6] c6].
  destruct (cascade2 parseFeet _ _) as [a7 b7].
  exists (a1, b1), (a2, b2), (a3, b3), (a4, b4), (a5, b5), (a6, b6), (a6, c6), (a7, b7).
  eexists. split; reflexivity.
Qed.

Lemma parseZoningReview_fields content zr :
  parseZoningReview content = Ok (Some zr) -> exists zc, zr = zoningFields zc.
Proof.
  unfold parseZoningReview.
  destruct (js_match flag_i re_zoning_section content) as [mt|]; [|discriminate].
  destruct (defined (group 1 mt)) as [zc| |]; cbn [bind]; try discriminate.
  intros H. injection H as <-. exists zc. reflexivity.
Qed.

(** C3. Every dimensional field of the record (lot coverage, height,
    lot width, driveway coverage and the four setbacks) is null or has
    at least one non-null side. *)
Theorem dimensional_values_have_a_side :
  forall content includeRaw,
    exists p, parsePermitComments content includeRaw = Ok p /\
      forall zr, PermitComments.zoning_review p = Some zr ->
        side_known (ZoningReview.lot_coverage zr) /\
        side_known (ZoningReview.height zr) /\
        side_known (ZoningReview.lot_width zr) /\
        side_known (ZoningReview.driveway_coverage zr) /\
        forall s, ZoningReview.setbacks zr = Some s ->
          side_known (Setbacks.front s) /\ side_known (Setbacks.side_left s) /\
          side_known (Setbacks.side_right s) /\ side_known (Setbacks.rear s).
Proof.
  intros content includeRaw.
  destruct (parsePermitComments_ok content includeRaw) as [p Hp].
  exists p. split; [exact Hp|]. intros zr Hzr.
  apply parsePermitComments_fields in Hp.
  destruct Hp as (h & d & _ & _ & _ & _ & _ & Hz & _ & _).
  rewrite Hzr in Hz. apply parseZoningReview_fields in Hz. destruct Hz as (zc & ->).
  destruct (zoningFields_shape zc) as (lc & hh & lw & dc & f & sl & sr & r & pk & E & _).
  rewrite E. cbn.
  repeat split; try apply dimensional_side_known.
  all: injection H as <-; cbn; apply dimensional_side_known.
Qed.

Example front_setback_example :
  exists p zr s,
    parsePermitComments doc_front_setback false = Ok p /\
    PermitComments.zoning_review p = Some zr /\
    ZoningReview.setbacks zr = Some s /\
    Setbacks.front s = Some (DimensionalValue.mk (Some 20%float) (Some 26.67%float)) /\
    Setbacks.rear s = None.
Proof.
  eexists. eexists. eexists. split; [vm_compute; reflexivity|].
  repeat split; reflexivity.
Qed.

(** C1. The code departs from the claim on a document whose zoning
    section holds no recognizable field ([Zoning Plans Exam] and
    nothing else): the zoning review it returns carries a setbacks
    object and a parking object whose children are all null, where the
    claim wants the two parents null. *)
Lemma hollow_setbacks_and_parking :
  exists p zr,
    parsePermitComments doc_zoning_only false = Ok p /\
    PermitComments.zoning_review p = Some zr /\
    ZoningReview.setbacks zr = Some (Setbacks.mk None None None None) /\
    ZoningReview.parking zr = Some (Parking.mk None None None) /\
    ~ no_hollow_parent p.
Proof.
  eexists. eexists. split; [vm_compute; reflexivity|].
  split; [reflexivity|]. split; [reflexivity|]. split; [reflexivity|].
  intros H. specialize (H _ eq_refl). destruct H as [H _].
  apply (H _ eq_refl). repeat split.
Qed.

(** ** C4 *)



Example out_of_order_numbers :
  exists p cb,
    parsePermitComments doc_out_of_order false = Ok p /\
    PermitComments.corrections p = [cb] /\
    item_numbers cb = [2%float; 1%float].
Proof. eexists. eexists. split; [vm_compute; reflexivity|]. split; reflexivity. Qed.

(** ** C5 *)

Lemma anchor_no_match anchor n r content :
  literal_prefix (drop_terms n r) = str anchor ->
  anchor_absent anchor content ->
  js_match flag_i r content = None.
Proof.
  intros E H. apply js_match_none with (n := n). rewrite E. exact H.
Qed.

(** C5. A section whose anchor is absent from the document resolves to
    null or to the empty sequence, and nothing is raised: no
    [Zoning Plans Exam] gives a null zoning review, no
    [Required Corrections:] gives no corrections, and no
    [Approval Table:] (or no [Task Name] column header) gives no
    approval tasks. *)
Theorem absent_anchors :
  forall content includeRaw,
    exists p, parsePermitComments content includeRaw = Ok p /\
      (anchor_absent "Zoning Plans Exam" content ->
         PermitComments.zoning_review p = None) /\
      (anchor_absent "Required Corrections:" content ->
         PermitComments.corrections p = []) /\
      (anchor_absent "Approval Table:" content \/ anchor_absent "Task Name" content ->
         PermitComments.approval_tasks p = []).
Proof.
  intros content includeRaw.
  destruct (parsePermitComments_ok content includeRaw) as [p Hp].
  exists p. split; [exact Hp|].
  apply parsePermitComments_fields in Hp.
  destruct Hp as (h & d & _ & _ & _ & Hc & Ha & Hz & _ & _).
  split; [|split].
  - intros H. apply (anchor_no_match _ 0 re_zoning_section) in H; [|reflexivity].
    unfold parseZoningReview in Hz. rewrite H in Hz. congruence.
  - intros H. apply (anchor_no_match _ 0 re_corrections) in H; [|reflexivity].
    unfold parseCorrections in Hc. rewrite H in Hc. congruence.
  - intros H.
    assert (E : js_match flag_i re_approval_table content = None).
    { destruct H as [H|H].
      - apply (anchor_no_match _ 0 re_approval_table) in H; [exact H|reflexivity].
      - apply (anchor_no_match _ 16 re_approval_table) in H; [exact H|reflexivity]. }
    unfold parseApprovalTable in Ha. rewrite E in Ha. congruence.
Qed.

Lemma absent_anchors_witness :
  exists p, parsePermitComments doc_no_sections false = Ok p /\
            PermitComments.zoning_review p = None /\
            PermitComments.corrections p = [] /\
            PermitComments.approval_tasks p = [].
Proof.
  destruct (absent_anchors doc_no_sections false) as (p & Hp & Hz & Hc & Ha).
  exists p. split; [exact Hp|]. split; [|split].
  - apply Hz. reflexivity.
  - apply Hc. reflexivity.
  - apply Ha. left. reflexivity.
Defined.

(** ** C6 *)





(** The binary number read from that text is m / 2 ^ 52 with
    200 m < 223 * 2 ^ 52: it is itself below 1.115, so 1.11 is the
    nearest hundredth of the number read as well as of the decimal.
    Its product by 100 is rounded to 111.5, which [Math_round] takes
    up. *)
Example feet_read_below_the_tie :
  Prim2SF (parseFloat (str "1.11499999999999999")) =
    S754_finite false 5021513584518103 (-52) /\
  (200 * 5021513584518103 < 223 * 2 ^ 52)%Z /\
  PrimFloat.mul (parseFloat (str "1.11499999999999999")) 100 = 111.5%float /\
  Math_round 111.5%float = 112%float.
Proof. repeat split; vm_compute; reflexivity. Qed.

(** The exact rounding of 26 feet 8 inches is 2667 hundredths. *)
Example hundredths_26_8 :
  hundredths 26 8 = 2667%Z /\ of_hundredths 2667 = 26.67%float.
Proof. split; vm_compute; reflexivity. Qed.

(** A decimal with a 5 in the third place is a tie in exact arithmetic;
    the binary value read from it and its product by 100 decide the
    side. *)
Example feet_decimal_ties :
  parseFeet (Some (str "1.005")) = Some 1%float /\
  parseFeet (Some (str "1.115")) = Some 1.12%float /\
  parseFeet (Some (str "1.255")) = Some 1.25%float /\
  parseFeet (Some (str "20.5'")) = Some 20.5%float /\
  parseFeet (Some (str "20.50")) = Some 20.5%float.
Proof. repeat split; vm_compute; reflexivity. Qed.

(** ** C7 *)

(** C7. The date normalizer turns [M/D/YYYY] and [MM/DD/YYYY] into
    [YYYY-MM-DD] with zero-padded month and day, and returns null for a
    text that contains no date with a four-digit year, a two-digit-year
    date included; [Date Submitted: 3/4/2024] gives 2024-03-04. *)
Theorem date_normalizer :
  (forall mo d y, date_parts mo d y ->
     parseDate (Some (date_text mo d y)) = Ok (Some (canonical_date mo d y))) /\
  (forall text, ~ contains_date text -> parseDate (Some text) = Ok None) /\
  (forall text, contains_date text <-> exists s, parseDate (Some text) = Ok (Some s)) /\
  parseDate None = Ok None /\
  parseDate (Some (str "08/15/25")) = Ok None /\
  (exists p, parsePermitComments (str "Date Submitted: 3/4/2024") false = Ok p /\
     Application.date_submitted (PermitComments.application p) = Some (str "2024-03-04")).
Proof.
  split; [|split; [|split; [|split; [|split]]]].
  - apply parseDate_date.
  - apply parseDate_no_date.
  - apply parseDate_some_iff.
  - reflexivity.
  - vm_compute. reflexivity.
  - eexists. split; [vm_compute; reflexivity|]. reflexivity.
Qed.

Lemma date_normalizer_witness :
  parseDate (Some (str "3/4/2024")) = Ok (Some (str "2024-03-04")) /\
  parseDate (Some (str "12/25/2023")) = Ok (Some (str "2023-12-25")).
Proof.
  destruct date_normalizer as (H & _). split.
  - apply (H (str "3") (str "4") (str "2024")).
    unfold date_parts, digits. simpl. repeat split; try lia; repeat constructor.
  - apply (H (str "12") (str "25") (str "2023")).
    unfold date_parts, digits. simpl. repeat split; try lia; repeat constructor.
Defined.

(** ** C8 *)

(** A dimensional value is its two sides, or nothing when neither is
    known. *)
Lemma dimensional_captured mt :
  dimensional (parsePercent (group 1 mt)) (parsePercent (group 2 mt)) =
  captured_coverage mt.
Proof.
  unfold captured_coverage.
  destruct (parsePercent (group 1 mt)), (parsePercent (group 2 mt)); reflexivity.
Qed.

Lemma parseZoningReview_section content zr :
  parseZoningReview content = Ok (Some zr) ->
  exists zc, zoning_section content zc /\ zr = zoningFields zc.
Proof.
  unfold parseZoningReview, zoning_section.
  destruct (js_match flag_i re_zoning_section content) as [mt|]; [|discriminate].
  destruct (group 1 mt) as [zc|] eqn:G; cbn [defined bind]; [|discriminate].
  intros H. injection H as <-. exists zc. split; [|reflexivity].
  exists mt. split; [reflexivity | exact G].
Qed.

(** C8. The lot coverage of a record is produced by the cascade of its
    three variants over the zoning section, in their fixed order: the
    first variant that matches supplies both values, and what a later
    variant would capture is not used, also where it matches the same
    text with other values; when no variant matches the field is
    null. *)
Theorem lot_coverage_first_match_wins :
  forall content includeRaw,
    exists p, parsePermitComments content includeRaw = Ok p /\
      forall zr, PermitComments.zoning_review p = Some zr ->
        exists zc, zoning_section content zc /\
          (forall m1, js_match flag_i lotCov1 zc = Some m1 ->
             ZoningReview.lot_coverage zr = captured_coverage m1) /\
          (forall m2, js_match flag_i lotCov1 zc = None ->
             js_match flag_i lotCov2 zc = Some m2 ->
             ZoningReview.lot_coverage zr = captured_coverage m2) /\
          (forall m3, js_match flag_i lotCov1 zc = None ->
             js_match flag_i lotCov2 zc = None ->
             js_match flag_i lotCov3 zc = Some m3 ->
             ZoningReview.lot_coverage zr = captured_coverage m3) /\
          (js_match flag_i lotCov1 zc = None ->
           js_match flag_i lotCov2 zc = None ->
           js_match flag_i lotCov3 zc = None ->
           ZoningReview.lot_coverage zr = None).
Proof.
  intros content includeRaw.
  destruct (parsePermitComments_ok content includeRaw) as [p Hp].
  exists p. split; [exact Hp|]. intros zr Hzr.
  apply parsePermitComments_fields in Hp.
  destruct Hp as (h & d & _ & _ & _ & _ & _ & Hz & _ & _).
  rewrite Hzr in Hz. apply parseZoningReview_section in Hz.
  destruct Hz as (zc & Hs & ->). exists zc. split; [exact Hs|].
  destruct (zoningFields_shape zc) as (lc & hh & lw & dc & f & sl & sr & r & pk & E & ->).
  rewrite E. cbn [ZoningReview.lot_coverage]. unfold lotCoverage, pair_of.
  split; [|split; [|split]].
  - intros m1 H1. rewrite H1. cbn [fst snd]. apply dimensional_captured.
  - intros m2 H1 H2. rewrite H1, H2. cbn [fst snd]. apply dimensional_captured.
  - intros m3 H1 H2 H3. rewrite H1, H2, H3. cbn [fst snd]. apply dimensional_captured.
  - intros H1 H2 H3. rewrite H1, H2, H3. reflexivity.
Qed.

(** The first variant captures 55 and 19 on the sample line, the second
    55 and 30: the record holds 55 and 19. *)
Lemma lot_coverage_first_match_wins_witness :
  exists p zr m1 m2,
    parsePermitComments doc_lot_coverage false = Ok p /\
    PermitComments.zoning_review p = Some zr /\
    js_match flag_i lotCov1 (NL :: text_lot_coverage) = Some m1 /\
    js_match flag_i lotCov2 (NL :: text_lot_coverage) = Some m2 /\
    group 2 m1 = Some (str "19") /\ group 2 m2 = Some (str "30") /\
    ZoningReview.lot_coverage zr =
      Some (DimensionalValue.mk (Some 55%float) (Some 19%float)).
Proof.
  destruct (lot_coverage_first_match_wins doc_lot_coverage false) as (p & Hp & H).
  pose proof Hp as E. vm_compute in E. injection E as <-.
  destruct (H _ eq_refl) as (zc & Hs & H1 & _).
  destruct Hs as (zm & Ezm & Eg). vm_compute in Ezm. injection Ezm as <-.
  vm_compute in Eg. injection Eg as <-.
  eexists. eexists. eexists. eexists.
  split; [exact Hp|]. split; [reflexivity|].
  split; [vm_compute; reflexivity|]. split; [vm_compute; reflexivity|].
  split; [reflexivity|]. split; [reflexivity|].
  etransitivity; [apply H1; vm_compute; reflexivity|]. vm_compute. reflexivity.
Defined.

(* ================================================================== *)
(** * Further properties of the program *)
(* ================================================================== *)

Import Shape.
Import Props.
Import Documents.
Import Csv.
Import Batch.

(** The record of a document, computed. *)
Ltac computed_record Hp :=
  let E := fresh "E" in
  pose proof Hp as E; vm_compute in E; injection E as <-.

Module ShapeFacts.

(* ---------- definitions (Part I) ---------- *)

(* ---------- facts ---------- *)
Section ShapeFacts.
Variable fl : flags.

Lemma matches_consumed r x y :
  matches fl r x y -> ms_rest x = consumed x y ++ ms_rest y.
Proof.
  intros H. destruct (matches_extent fl _ _ _ H) as (s & E & _).
  rewrite (consumed_app _ _ _ E). exact E.
Qed.

Lemma consumed_trans x z y s1 s2 :
  ms_rest x = s1 ++ ms_rest z -> ms_rest z = s2 ++ ms_rest y ->
  consumed x y = s1 ++ s2.
Proof.
  intros E1 E2. apply consumed_app. rewrite E1, E2. apply app_assoc.
Qed.

Lemma iter_lang (R : mstate -> mstate -> Prop) (L : jstring -> Prop) (f : mstate -> mstate) :
  (forall u, ms_rest (f u) = ms_rest u) ->
  (forall u v, R u v -> ms_rest u = consumed u v ++ ms_rest v /\ L (consumed u v)) ->
  forall n x y, iter (fun u v => R (f u) v) n x y ->
    ms_rest x = consumed x y ++ ms_rest y /\ lang_iter L n (consumed x y).
Proof.
  intros Hf HR. induction n as [|n IH]; intros x y H; simpl in H.
  - subst. rewrite (consumed_app _ _ [] eq_refl). split; reflexivity.
  - destruct H as (z & H1 & H2). apply HR in H1. destruct H1 as [E1 L1].
    apply IH in H2. destruct H2 as [E2 L2]. rewrite Hf in E1.
    assert (E : consumed x y = consumed (f x) z ++ consumed z y)
      by (eapply consumed_trans; eassumption).
    split.
    + rewrite E, <- app_assoc, <- E2. exact E1.
    + simpl. exists (consumed (f x) z), (consumed z y). auto.
Qed.

(** What a match consumes is a text of the pattern. *)
Lemma matches_lang : forall r x y,
  matches fl r x y -> lang fl r (consumed x y).
Proof.
  induction r; intros x y H; pose proof (matches_consumed _ _ _ H) as Ec;
    simpl in H |- *.
  - subst. apply consumed_app. reflexivity.
  - destruct H as (c0 & rest & E & Hc & ->). exists c0. split; [|exact Hc].
    apply consumed_app. exact E.
  - destruct H as (c0 & rest & E & Hc & ->). exists c0. split; [|exact Hc].
    apply consumed_app. exact E.
  - destruct H as (c0 & rest & E & Hc & ->). exists c0. split; [|exact Hc].
    apply consumed_app. exact E.
  - destruct H as (z & H1 & H2).
    exists (consumed x z), (consumed z y). split; [|split; auto].
    eapply consumed_trans; [apply (matches_consumed r1); exact H1 | apply (matches_consumed r2); exact H2].
  - destruct H as [H|H]; [left; apply IHr1 | right; apply IHr2]; exact H.
  - destruct H as (z & H1 & ->). apply IHr in H1. exact H1.
  - destruct H as (n & Hw & Hit). exists n. split; [exact Hw|].
    eapply iter_lang with (L := lang fl r) in Hit; [apply Hit | reflexivity |].
    intros u v Huv. split; [apply (matches_consumed r); exact Huv | apply IHr; exact Huv].
  - destruct H as (_ & ->). apply consumed_app. reflexivity.
  - destruct H as (_ & ->). apply consumed_app. reflexivity.
  - destruct H as (z & _ & ->). apply consumed_app. reflexivity.
Qed.

Lemma iter_group_body (R : mstate -> mstate -> Prop) (P : jstring -> Prop) gs i :
  (forall u v, R u v -> forall c, get_cap i (ms_caps v) = Some c ->
     get_cap i (ms_caps u) = Some c \/ P c) ->
  forall n x y, iter (fun u v => R (with_caps u (clear_caps gs (ms_caps u))) v) n x y ->
    forall c, get_cap i (ms_caps y) = Some c ->
      get_cap i (ms_caps x) = Some c \/ P c.
Proof.
  intros HR. induction n as [|n IH]; intros x y H c Hc; simpl in H.
  - subst. left. exact Hc.
  - destruct H as (z & H1 & H2).
    destruct (IH _ _ H2 _ Hc) as [Hz|Hz]; [|right; exact Hz].
    destruct (HR _ _ H1 _ Hz) as [Hx|Hx]; [|right; exact Hx].
    left. cbn [with_caps ms_caps] in Hx. rewrite get_cap_clear in Hx.
    destruct (mem i gs); [discriminate|exact Hx].
Qed.

(** What a group holds after a match was there before, or is a text of
    the body of a group of that number. *)
Lemma matches_group_body : forall r x y i c,
  matches fl r x y -> get_cap i (ms_caps y) = Some c ->
  get_cap i (ms_caps x) = Some c \/ exists g, In g (bodies i r) /\ lang fl g c.
Proof.
  induction r; intros x y j cap H Hc; simpl in H.
  - subst. left. exact Hc.
  - destruct H as (? & ? & _ & _ & ->). left. exact Hc.
  - destruct H as (? & ? & _ & _ & ->). left. exact Hc.
  - destruct H as (? & ? & _ & _ & ->). left. exact Hc.
  - destruct H as (z & H1 & H2).
    destruct (IHr2 _ _ _ _ H2 Hc) as [Hz|(g & Hg & HL)].
    + destruct (IHr1 _ _ _ _ H1 Hz) as [Hx|(g & Hg & HL)]; [left; exact Hx|].
      right. exists g. split; [simpl; apply in_or_app; left; exact Hg | exact HL].
    + right. exists g. split; [simpl; apply in_or_app; right; exact Hg | exact HL].
  - destruct H as [H|H].
    + destruct (IHr1 _ _ _ _ H Hc) as [Hx|(g & Hg & HL)]; [left; exact Hx|].
      right. exists g. split; [simpl; apply in_or_app; left; exact Hg | exact HL].
    + destruct (IHr2 _ _ _ _ H Hc) as [Hx|(g & Hg & HL)]; [left; exact Hx|].
      right. exists g. split; [simpl; apply in_or_app; right; exact Hg | exact HL].
  - destruct H as (z & H1 & ->). cbn [with_caps ms_caps] in Hc.
    rewrite get_cap_set in Hc. simpl. destruct (Nat.eqb j i) eqn:E.
    + injection Hc as <-. right. exists r. split; [left; reflexivity|].
      apply matches_lang. exact H1.
    + destruct (IHr _ _ _ _ H1 Hc) as [Hx|(g & Hg & HL)]; [left; exact Hx|].
      right. exists g. split; assumption.
  - destruct H as (n & _ & Hit). simpl.
    eapply iter_group_body with (P := fun c => exists g, In g (bodies j r) /\ lang fl g c) in Hit;
      [exact Hit | | exact Hc].
    intros u v Huv c Hv. apply (IHr _ _ _ _ Huv Hv).
  - destruct H as (_ & ->). left. exact Hc.
  - destruct H as (_ & ->). left. exact Hc.
  - destruct H as (z & H1 & ->). cbn [with_caps ms_caps] in Hc. simpl.
    apply (IHr _ _ _ _ H1 Hc).
Qed.

(** The text of a group of a result is a text of the body of the group. *)
Corollary js_match_group_lang r s mr i c :
  js_match fl r s = Some mr -> group i mr = Some c ->
  exists g, In g (bodies i r) /\ lang fl g c.
Proof.
  intros H Hg. apply js_match_sound in H.
  destruct H as (pre & prev & y & _ & _ & Hm & Hc).
  unfold group in Hg. rewrite Hc in Hg.
  destruct (matches_group_body _ _ _ _ _ Hm Hg) as [H|H]; [discriminate|exact H].
Qed.

Corollary exec_from_group_lang r s start mr i c :
  exec_from fl r s start = Some mr -> group i mr = Some c ->
  exists g, In g (bodies i r) /\ lang fl g c.
Proof.
  intros H Hg. apply exec_from_sound in H.
  destruct H as (pre & prev & y & _ & _ & _ & Hm & Hc).
  unfold group in Hg. rewrite Hc in Hg.
  destruct (matches_group_body _ _ _ _ _ Hm Hg) as [H|H]; [discriminate|exact H].
Qed.

(** The whole text of a result is a text of the pattern. *)
Corollary js_match_text_lang r s mr :
  js_match fl r s = Some mr -> lang fl r (mr_text mr).
Proof.
  intros H. apply js_match_sound in H.
  destruct H as (pre & prev & y & _ & _ & Hm & _).
  apply matches_lang in Hm. rewrite (consumed_app _ y (mr_text mr)) in Hm by reflexivity.
  exact Hm.
Qed.

(** Texts of a repeated class. *)
Lemma lang_iter_cls neg items : forall n s,
  lang_iter (lang fl (Cls neg items)) n s ->
  List.length s = n /\ Forall (fun c => cls_match fl neg items c = true) s.
Proof.
  induction n as [|n IH]; intros s H; simpl in H.
  - subst. split; [reflexivity|constructor].
  - destruct H as (s1 & s2 & -> & (c & -> & Hc) & H2). apply IH in H2.
    destruct H2 as [L F]. split; [simpl; lia | constructor; assumption].
Qed.

Lemma lang_rep_cls mn mx g neg items s :
  lang fl (Rep mn mx g (Cls neg items)) s ->
  within (List.length s) mn mx /\ Forall (fun c => cls_match fl neg items c = true) s.
Proof.
  intros (n & Hw & H). apply lang_iter_cls in H. destruct H as [<- F]. split; assumption.
Qed.

End ShapeFacts.

End ShapeFacts.
Import ShapeFacts.

Module CleanFacts.

Lemma replace_skip fl r by_ : forall s t prev,
  replace_from fl r by_ prev (s ++ t) (List.length s) =
  replace_from fl r by_ (fold_left (fun _ c => Some c) s prev) t 0.
Proof.
  induction s as [|c s IH]; intros t prev; [reflexivity|].
  simpl. apply IH.
Qed.

Lemma space_run (s : jstring) :
  exists ws t, s = ws ++ t /\ Forall (fun c => is_space c = true) ws /\ stops is_space t.
Proof.
  induction s as [|c s (ws & t & -> & F & St)].
  - exists [], []. repeat split; constructor.
  - destruct (is_space c) eqn:E.
    + exists (c :: ws), t. repeat split; [constructor; assumption | exact St].
    + exists [], (c :: ws ++ t). repeat split; [constructor | exact E].
Qed.

Lemma squeeze_true_run ws t :
  Forall (fun c => is_space c = true) ws -> squeeze true (ws ++ t) = squeeze true t.
Proof. induction 1 as [|c ws Hc _ IH]; simpl; [reflexivity|]. rewrite Hc. exact IH. Qed.

Lemma squeeze_stops t : stops is_space t -> squeeze true t = squeeze false t.
Proof. destruct t as [|c t]; simpl; [reflexivity|]. intros ->. reflexivity. Qed.

Lemma whitespace_fails prev rest :
  stops is_space rest ->
  m no_flags re_whitespace (MState prev rest []) (fun y => Some y) = None.
Proof.
  intros H. apply (fails_rep_min no_flags 1 None true (Cls false [CSpace]));
    [lia | reflexivity |].
  apply fails_cls. cbn [with_caps ms_rest]. destruct rest as [|c t]; [exact I|].
  unfold stops in *. rewrite cls_space. exact H.
Qed.

(** [text.replace(/\s+/g, " ")] squeezes each run of white space. *)
Lemma replace_whitespace : forall n s prev,
  List.length s <= n ->
  replace_from no_flags re_whitespace (str " ") prev s 0 = squeeze false s.
Proof.
  induction n as [|n IH]; intros s prev Hn.
  - destruct s; [|simpl in Hn; lia]. cbn [replace_from].
    rewrite whitespace_fails by exact I. reflexivity.
  - destruct s as [|c s].
    { cbn [replace_from]. rewrite whitespace_fails by exact I. reflexivity. }
    destruct (is_space c) eqn:Ec.
    + destruct (space_run s) as (ws & t & -> & F & St).
      assert (T : takes no_flags re_whitespace (MState prev (c :: ws ++ t) [])
                    (after (c :: ws) (MState prev (c :: ws ++ t) []) t)).
      { apply takes_run.
        - reflexivity.
        - apply spaces_cls. constructor; assumption.
        - simpl. lia.
        - destruct t as [|c0 t]; [exact I|]. unfold stops in *. rewrite cls_space. exact St. }
      cbn [replace_from]. rewrite (T (fun y => Some y) _ eq_refl).
      rewrite (consumed_app _ _ (c :: ws)) by reflexivity.
      rewrite replace_skip. rewrite IH.
      * simpl. rewrite Ec. rewrite squeeze_true_run by exact F.
        rewrite squeeze_stops by exact St. reflexivity.
      * simpl in Hn. rewrite length_app in Hn. lia.
    + cbn [replace_from]. rewrite whitespace_fails by exact Ec.
      simpl. rewrite Ec. rewrite IH by (simpl in Hn; lia). reflexivity.
Qed.

Lemma squeeze_true_trimStart s : squeeze true s = squeeze false (trimStart s).
Proof.
  induction s as [|c s IH]; simpl; [reflexivity|].
  destruct (is_space c) eqn:E; [exact IH|]. simpl. rewrite E. reflexivity.
Qed.

Lemma trimStart_squeeze_true s : trimStart (squeeze true s) = squeeze true s.
Proof.
  induction s as [|c s IH]; simpl; [reflexivity|].
  destruct (is_space c) eqn:E; [exact IH|]. simpl. rewrite E. reflexivity.
Qed.

Lemma trimStart_squeeze s : trimStart (squeeze false s) = squeeze true s.
Proof.
  destruct s as [|c s]; simpl; [reflexivity|].
  destruct (is_space c) eqn:E; simpl.
  - apply trimStart_squeeze_true.
  - rewrite E. reflexivity.
Qed.

Lemma trimStart_app a b :
  trimStart (a ++ b) = match trimStart a with [] => trimStart b | v => v ++ b end.
Proof.
  induction a as [|c a IH]; simpl; [destruct (trimStart b); reflexivity|].
  destruct (is_space c); [exact IH | reflexivity].
Qed.

Lemma trimEnd_cons c u :
  trimEnd (c :: u) =
  match trimEnd u with
  | [] => if is_space c then [] else [c]
  | v => c :: v
  end.
Proof.
  unfold trimEnd. simpl rev. rewrite trimStart_app.
  destruct (trimStart (rev u)) as [|d v] eqn:E; simpl.
  - destruct (is_space c); reflexivity.
  - rewrite rev_app_distr. simpl. 
    destruct (rev v ++ [d]) eqn:E2; [destruct (rev v); discriminate | reflexivity].
Qed.

Lemma words_nonempty t : starts_word t = true -> words t <> [].
Proof.
  destruct t as [|c t]; simpl; [discriminate|]. intros H.
  apply negb_true_iff in H. rewrite H.
  destruct (starts_word t); [destruct (words t)|]; discriminate.
Qed.

Lemma join_cons_word c w ws :
  join (str " ") ((c :: w) :: ws) = c :: join (str " ") (w :: ws).
Proof. destruct ws; reflexivity. Qed.

Lemma words_word s : Forall word (words s).
Proof.
  induction s as [|c t IH]; simpl; [constructor|].
  destruct (is_space c) eqn:E; [exact IH|].
  destruct (starts_word t).
  - destruct (words t) as [|w ws].
    + constructor; [|constructor]. split; [discriminate | constructor; [exact E|constructor]].
    + inversion IH as [|? ? [Hn Hw] Hws]; subst. constructor; [|exact Hws].
      split; [discriminate | constructor; assumption].
  - constructor; [|exact IH]. split; [discriminate | constructor; [exact E|constructor]].
Qed.

Lemma join_words_nonempty s : words s <> [] -> join (str " ") (words s) <> [].
Proof.
  intros H. pose proof (words_word s) as F. destruct (words s) as [|w ws]; [congruence|].
  inversion F as [|? ? [Hn _] _]; subst. destruct w; [congruence|].
  destruct ws; discriminate.
Qed.

Lemma trimEnd_squeeze s : trimEnd (squeeze true s) = join (str " ") (words s).
Proof.
  induction s as [|c t IH]; [reflexivity|]. simpl.
  destruct (is_space c) eqn:E; [exact IH|].
  rewrite trimEnd_cons.
  destruct t as [|c2 t'].
  - simpl. rewrite E. reflexivity.
  - cbn [starts_word]. destruct (is_space c2) eqn:E2; cbn [negb].
    + (* a gap follows *)
      cbn [squeeze] in IH |- *. rewrite E2 in IH |- *. rewrite trimEnd_cons.
      cbn [words] in IH |- *. rewrite E2 in IH |- *. rewrite IH.
      destruct (words t') as [|w ws] eqn:Ew.
      * simpl. rewrite E. reflexivity.
      * assert (N : join (str " ") (w :: ws) <> [])
          by (rewrite <- Ew; apply join_words_nonempty; rewrite Ew; discriminate).
        destruct (join (str " ") (w :: ws)) as [|j js] eqn:Ej; [congruence|].
        change (join (str " ") ([c] :: w :: ws)) with ([c] ++ str " " ++ join (str " ") (w :: ws)).
        rewrite Ej. reflexivity.
    + (* the word goes on *)
      assert (Sq : squeeze false (c2 :: t') = squeeze true (c2 :: t'))
        by (simpl; rewrite E2; reflexivity).
      rewrite Sq, IH.
      assert (N : words (c2 :: t') <> []) by (apply words_nonempty; simpl; rewrite E2; reflexivity).
      destruct (words (c2 :: t')) as [|w ws] eqn:Ew; [congruence|].
      pose proof (join_words_nonempty (c2 :: t')) as J. rewrite Ew in J.
      specialize (J ltac:(discriminate)).
      rewrite join_cons_word.
      destruct (join (str " ") (w :: ws)); [congruence|reflexivity].
Qed.

(** [cleanText] gives the words of the text with one space between
    them. *)
Lemma cleanText_words text : cleanText text = join (str " ") (words text).
Proof.
  unfold cleanText, replace_all, trim.
  rewrite (replace_whitespace (List.length text)) by lia.
  rewrite trimStart_squeeze, <- trimStart_squeeze_true.
  rewrite trimStart_squeeze_true. apply trimEnd_squeeze.
Qed.


Lemma words_app_word w t :
  word w -> starts_word t = false -> words (w ++ t) = w :: words t.
Proof.
  intros [Hn F] Ht. induction w as [|c w IH]; [congruence|].
  inversion F as [|? ? Hc F']; subst. simpl. rewrite Hc.
  destruct w as [|c' w].
  - simpl. rewrite Ht. reflexivity.
  - inversion F' as [|? ? Hc' _]; subst.
    change (starts_word ((c' :: w) ++ t)) with (negb (is_space c')). rewrite Hc'. simpl negb. cbv iota.
    rewrite IH by (try discriminate; assumption). reflexivity.
Qed.

Lemma words_join ws : Forall word ws -> words (join (str " ") ws) = ws.
Proof.
  induction 1 as [|w ws Hw _ IH]; [reflexivity|].
  destruct ws as [|w' ws].
  - simpl. rewrite <- (app_nil_r w) at 1. rewrite words_app_word; [reflexivity | exact Hw | reflexivity].
  - change (join (str " ") (w :: w' :: ws)) with (w ++ 32%N :: join (str " ") (w' :: ws)).
    rewrite words_app_word; [|exact Hw|reflexivity].
    change (words (32%N :: join (str " ") (w' :: ws))) with (words (join (str " ") (w' :: ws))).
    rewrite IH. reflexivity.
Qed.

Lemma words_nil s : words s = [] <-> Forall (fun c => is_space c = true) s.
Proof.
  induction s as [|c t IH]; simpl.
  - split; [constructor|reflexivity].
  - destruct (is_space c) eqn:E.
    + rewrite IH. split; [intros H; constructor; assumption | intros H; inversion H; assumption].
    + split.
      * destruct (starts_word t); [destruct (words t)|]; discriminate.
      * intros H. inversion H; congruence.
Qed.

Lemma cleanText_twice text : cleanText (cleanText text) = cleanText text.
Proof.
  rewrite (cleanText_words text), cleanText_words, words_join; [reflexivity|].
  apply words_word.
Qed.

Lemma cleanText_nil text :
  cleanText text = [] <-> Forall (fun c => is_space c = true) text.
Proof.
  rewrite cleanText_words, <- words_nil. split.
  - intros H. destruct (words text) eqn:E; [reflexivity|].
    exfalso. apply (join_words_nonempty text); [rewrite E; discriminate | rewrite E; exact H].
  - intros ->. reflexivity.
Qed.

End CleanFacts.
Import CleanFacts.

(** X1. The cleaned text is the words of the text, its maximal runs of
    characters that are not white space, with one space between them. *)
Theorem cleanText_is_words :
  forall text,
    cleanText text = join (str " ") (words text) /\ Forall word (words text).
Proof.
  intros text. split; [apply cleanText_words | apply words_word].
Qed.

(** X2. Cleaning a text twice is cleaning it once, and the cleaned text
    is empty exactly when the text holds white space only. *)
Theorem cleanText_idempotent :
  forall text,
    cleanText (cleanText text) = cleanText text /\
    (cleanText text = [] <-> Forall (fun c => is_space c = true) text).
Proof.
  intros text. split; [apply cleanText_twice | apply cleanText_nil].
Qed.

Module Structure.

(** *** Approval tasks *)

Lemma parseTaskLine_inv line t :
  parseTaskLine line = Ok (Some t) ->
  exists mt n s r completed,
    js_match no_flags taskRegex line = Some mt /\
    group 1 mt = Some n /\ group 2 mt = Some s /\ group 4 mt = Some r /\
    parseDate (or_null (group 3 mt)) = Ok completed /\
    t = ApprovalTask.mk (cleanText n) (cleanText s) completed
          (or_null (Some (cleanText r))).
Proof.
  unfold parseTaskLine.
  destruct (js_match no_flags taskRegex line) as [mt|]; [|discriminate].
  destruct (group 1 mt) as [n|] eqn:G1; cbn [defined bind]; [|discriminate].
  destruct (group 2 mt) as [s|] eqn:G2; cbn [defined bind]; [|discriminate].
  destruct (parseDate (or_null (group 3 mt))) as [completed| |] eqn:G3;
    cbn [bind]; try discriminate.
  destruct (group 4 mt) as [r|] eqn:G4; cbn [defined bind]; [|discriminate].
  intros H. injection H as <-. exists mt, n, s, r, completed. repeat split; assumption.
Qed.

Lemma lines_loop_all (P : ApprovalTask.t -> Prop) : forall lines tasks ts,
  lines_loop lines tasks = Ok ts ->
  Forall P tasks ->
  (forall line t, In line lines -> parseTaskLine line = Ok (Some t) -> P t) ->
  Forall P ts.
Proof.
  induction lines as [|l lines IH]; intros tasks ts H Ht Hp; simpl in H.
  - injection H as <-. exact Ht.
  - destruct (parseTaskLine l) as [ot| |] eqn:El; cbn [bind] in H; try discriminate.
    apply IH in H; [exact H | |].
    + destruct ot as [t|]; [|exact Ht].
      apply Forall_app. split; [exact Ht|]. constructor; [|constructor].
      apply (Hp l); [left; reflexivity | exact El].
    + intros line t Hin. apply Hp. right. exact Hin.
Qed.

Lemma parseApprovalTable_all (P : ApprovalTask.t -> Prop) content ts :
  parseApprovalTable content = Ok ts ->
  (forall line t, parseTaskLine line = Ok (Some t) -> P t) ->
  Forall P ts.
Proof.
  unfold parseApprovalTable.
  destruct (js_match flag_i re_approval_table content) as [tm|].
  - destruct (group 1 tm) as [tc|]; cbn [defined bind]; [|discriminate].
    intros H Hp. eapply lines_loop_all in H; [exact H | constructor |].
    intros line t _. apply Hp.
  - intros H _. injection H as <-. constructor.
Qed.

(** *** Building classification *)

Lemma rows_loop_all (P : BuildingClass.t -> Prop) tableContent :
  forall fuel lastIndex classes cs,
  rows_loop fuel tableContent lastIndex classes = Ok cs ->
  Forall P classes ->
  (forall start mt occ const use,
     exec_from no_flags rowRegex tableContent start = Some mt ->
     group 1 mt = Some occ -> group 2 mt = Some const -> group 5 mt = Some use ->
     P (BuildingClass.mk (trim occ) (trim const) (parseNumber (group 3 mt))
          (match group 4 mt with
           | Some (_ :: _) => parseNumber (group 4 mt)
           | _ => None
           end)
          (cleanText use))) ->
  Forall P cs.
Proof.
  induction fuel as [|fuel IH]; intros lastIndex classes cs H Hc Hp; simpl in H;
    [discriminate|].
  destruct (exec_from no_flags rowRegex tableContent lastIndex) as [mt|] eqn:E.
  - destruct (group 1 mt) as [occ|] eqn:G1; cbn [defined bind] in H; [|discriminate].
    destruct (group 2 mt) as [const|] eqn:G2; cbn [defined bind] in H; [|discriminate].
    destruct (group 5 mt) as [use|] eqn:G5; cbn [defined bind] in H; [|discriminate].
    apply IH in H; [exact H | | exact Hp].
    apply Forall_app. split; [exact Hc|]. constructor; [|constructor].
    apply (Hp lastIndex mt); assumption.
  - injection H as <-. exact Hc.
Qed.

Lemma parseBuildingClassification_all (P : BuildingClass.t -> Prop) content cs :
  parseBuildingClassification content = Ok cs ->
  (forall tableContent start mt occ const use,
     exec_from no_flags rowRegex tableContent start = Some mt ->
     group 1 mt = Some occ -> group 2 mt = Some const -> group 5 mt = Some use ->
     P (BuildingClass.mk (trim occ) (trim const) (parseNumber (group 3 mt))
          (match group 4 mt with
           | Some (_ :: _) => parseNumber (group 4 mt)
           | _ => None
           end)
          (cleanText use))) ->
  Forall P cs.
Proof.
  unfold parseBuildingClassification.
  destruct (js_match flag_i re_building_table content) as [tm|].
  - intros H Hp. eapply rows_loop_all in H; [exact H | constructor |].
    intros start mt occ const use. apply Hp.
  - intros H _. injection H as <-. constructor.
Qed.

(** *** Corrections *)

Lemma item_of_match_inv mt it :
  item_of_match mt = Ok (Some it) ->
  exists body date,
    group 3 mt = Some body /\ cleanText body <> [] /\
    match group 2 mt with
    | Some (_ :: _) => parseDate (group 2 mt)
    | _ => Ok None
    end = Ok date /\
    it = CorrectionItem.mk (parseInt (to_string (group 1 mt))) date (cleanText body).
Proof.
  unfold item_of_match.
  destruct (group 3 mt) as [body|]; cbn [defined bind]; [|discriminate].
  destruct (cleanText body) as [|c t] eqn:Ec; [discriminate|].
  destruct (match group 2 mt with Some (_ :: _) => parseDate (group 2 mt) | _ => Ok None end)
    as [date| |] eqn:Ed; cbn [bind]; try discriminate.
  intros H. injection H as <-. exists body, date. rewrite Ec.
  repeat split; try reflexivity. discriminate.
Qed.

Lemma items_loop_all (P : CorrectionItem.t -> Prop) block :
  forall fuel lastIndex items its,
  items_loop fuel block lastIndex items = Ok its ->
  Forall P items ->
  (forall start mt it,
     exec_from flag_m itemRegex block start = Some mt ->
     item_of_match mt = Ok (Some it) -> P it) ->
  Forall P its.
Proof.
  induction fuel as [|fuel IH]; intros lastIndex items its H Hi Hp; simpl in H;
    [discriminate|].
  destruct (exec_from flag_m itemRegex block lastIndex) as [mt|] eqn:E.
  - destruct (item_of_match mt) as [oi| |] eqn:Ei; cbn [bind] in H; try discriminate.
    apply IH in H; [exact H | | exact Hp].
    destruct oi as [i|]; [|exact Hi].
    apply Forall_app. split; [exact Hi|]. constructor; [|constructor].
    apply (Hp lastIndex mt); assumption.
  - injection H as <-. exact Hi.
Qed.

Lemma parseBlock_inv block cb :
  parseBlock block = Ok (Some cb) ->
  exists dm d r items,
    js_match flag_m re_department block = Some dm /\
    group 1 dm = Some d /\ group 2 dm = Some r /\
    items_loop (S (List.length block)) block 0 [] = Ok items /\
    cb = CorrectionBlock.mk (cleanText d)
           (Reviewer.mk
              (or_null (Some (cleanText r)))
              (or_null (Some (cleanText
                 (or_empty (opt_group 1 (js_match flag_i re_email block))))))
              (or_null (Some (cleanText
                 (or_empty (opt_group 1 (js_match flag_i re_phone block)))))))
           items.
Proof.
  unfold parseBlock. destruct (trim block); [discriminate|].
  destruct (js_match flag_m re_department block) as [dm|]; [|discriminate].
  destruct (group 1 dm) as [d|] eqn:G1; cbn [defined bind]; [|discriminate].
  destruct (group 2 dm) as [r|] eqn:G2; cbn [defined bind]; [|discriminate].
  destruct (items_loop (S (List.length block)) block 0 []) as [its| |] eqn:Ei;
    cbn [bind]; try discriminate.
  destruct (_ || _); [|discriminate].
  intros H. injection H as <-. exists dm, d, r, its. repeat split; try assumption; reflexivity.
Qed.

Lemma parseCorrections_all (P : CorrectionBlock.t -> Prop) content cs :
  parseCorrections content = Ok cs ->
  (forall block cb, parseBlock block = Ok (Some cb) -> P cb) ->
  Forall P cs.
Proof.
  unfold parseCorrections.
  destruct (js_match flag_i re_corrections content) as [cm|].
  - destruct (group 1 cm) as [cc|]; cbn [defined bind]; [|discriminate].
    intros H Hp. eapply blocks_loop_order in H; [exact H | constructor |].
    intros block cb _. apply Hp.
  - intros H _. injection H as <-. constructor.
Qed.

End Structure.
Import Structure.

Module ShapeFacts2.

Lemma literals_lang : forall r l s,
  literals r = Some l -> lang no_flags r s -> In s l.
Proof.
  induction r; intros l s Hl Hs; simpl in Hl, Hs; try discriminate.
  - injection Hl as <-. subst. left. reflexivity.
  - injection Hl as <-. destruct Hs as (c0 & -> & Hc).
    apply chr_match_exact in Hc. subst. left. reflexivity.
  - destruct (literals r1) as [la|]; [|discriminate].
    destruct (literals r2) as [lb|]; [|discriminate]. injection Hl as <-.
    destruct Hs as (s1 & s2 & -> & H1 & H2).
    apply in_flat_map. exists s1. split; [apply (IHr1 _ _ eq_refl H1)|].
    apply in_map. apply (IHr2 _ _ eq_refl H2).
  - destruct (literals r1) as [la|]; [|discriminate].
    destruct (literals r2) as [lb|]; [|discriminate]. injection Hl as <-.
    apply in_or_app. destruct Hs as [H|H]; [left; apply (IHr1 _ _ eq_refl H) | right; apply (IHr2 _ _ eq_refl H)].
  - apply (IHr _ _ Hl Hs).
Qed.

(** A group whose body is a list of literal alternatives holds one of
    them. *)
Lemma group_literal r s mr i c g l :
  js_match no_flags r s = Some mr -> group i mr = Some c ->
  bodies i r = [g] -> literals g = Some l -> In c l.
Proof.
  intros Hm Hg Hb Hl.
  destruct (js_match_group_lang _ _ _ _ _ _ Hm Hg) as (g' & Hin & HL).
  rewrite Hb in Hin. destruct Hin as [<-|[]]. apply (literals_lang _ _ _ Hl HL).
Qed.

Lemma group_literal_exec r s start mr i c g l :
  exec_from no_flags r s start = Some mr -> group i mr = Some c ->
  bodies i r = [g] -> literals g = Some l -> In c l.
Proof.
  intros Hm Hg Hb Hl.
  destruct (exec_from_group_lang _ _ _ _ _ _ _ Hm Hg) as (g' & Hin & HL).
  rewrite Hb in Hin. destruct Hin as [<-|[]]. apply (literals_lang _ _ _ Hl HL).
Qed.

Lemma cleanText_head c t :
  is_space c = false -> exists u, cleanText (c :: t) = c :: u.
Proof.
  intros Hc. rewrite cleanText_words. simpl. rewrite Hc.
  destruct (starts_word t).
  - destruct (words t) as [|w ws]; [exists []; reflexivity|].
    rewrite join_cons_word. eauto.
  - destruct (words t) as [|w ws]; [exists []; reflexivity|].
    change (join (str " ") ([c] :: w :: ws)) with (c :: str " " ++ join (str " ") (w :: ws)).
    eauto.
Qed.

Lemma letter_not_space c : is_letter c = true -> is_space c = false.
Proof.
  unfold is_letter, is_upper, is_lower, is_space, in_range. intros H.
  apply orb_true_iff in H.
  assert (B : (65 <= c <= 122)%N).
  { destruct H as [H|H]; apply andb_true_iff in H; destruct H as [A B];
      apply N.leb_le in A, B; lia. }
  repeat match goal with
  | |- context [N.leb ?a ?b] => destruct (N.leb_spec a b); try lia
  | |- context [N.eqb ?a ?b] => destruct (N.eqb_spec a b); try lia
  end; reflexivity.
Qed.

Lemma cls_letter fl c :
  cls_match fl false [CRange 65 90; CRange 97 122] c = true -> is_letter c = true.
Proof.
  intros H. unfold is_letter.
  destruct (is_upper c) eqn:U; [reflexivity|]. destruct (is_lower c) eqn:L; [reflexivity|].
  exfalso. revert H. unfold cls_match, citem_match, swap_case. rewrite L, U.
  cbn [existsb citem_has]. fold (is_upper c) (is_lower c). rewrite U, L.
  destruct (f_icase fl); discriminate.
Qed.

End ShapeFacts2.
Import ShapeFacts2.

Lemma task_shape line t :
  parseTaskLine line = Ok (Some t) ->
  In (ApprovalTask.status t) task_statuses /\
  exists c u, ApprovalTask.task_name t = c :: u /\ is_letter c = true.
Proof.
  intros H. apply parseTaskLine_inv in H.
  destruct H as (mt & n & s & r & completed & Hm & G1 & G2 & G4 & Hd & ->).
  cbn [ApprovalTask.status ApprovalTask.task_name]. split.
  - assert (Hin : In s task_statuses).
    { eapply (group_literal taskRegex line mt 2 s); [exact Hm | exact G2 | |];
        vm_compute; reflexivity. }
    revert Hin. generalize s. apply Forall_forall.
    unfold task_statuses. cbn [List.map].
    repeat (constructor; [vm_compute; repeat (first [left; reflexivity | right]) |]).
    constructor.
  - destruct (js_match_group_lang _ _ _ _ _ _ Hm G1) as (g & Hin & HL).
    destruct Hin as [<-|[]]. destruct HL as (s1 & s2 & -> & (c & -> & Hc) & _).
    apply cls_letter in Hc. destruct (cleanText_head c s2 (letter_not_space _ Hc)) as (u & Hu).
    exists c, u. split; [exact Hu | exact Hc].
Qed.

(** X3. Every approval task has one of the nine statuses that the task
    pattern lists, spelt as the pattern spells it, and a task name that
    starts with a letter. *)
Theorem approval_tasks_shape :
  forall content includeRaw,
    exists p, parsePermitComments content includeRaw = Ok p /\
      Forall (fun t =>
                In (ApprovalTask.status t) task_statuses /\
                exists c u, ApprovalTask.task_name t = c :: u /\ is_letter c = true)
             (PermitComments.approval_tasks p).
Proof.
  intros content includeRaw.
  destruct (parsePermitComments_ok content includeRaw) as [p Hp].
  exists p. split; [exact Hp|].
  apply parsePermitComments_fields in Hp.
  destruct Hp as (h & d & _ & _ & _ & _ & Ha & _ & _ & _).
  eapply parseApprovalTable_all; [exact Ha|]. apply task_shape.
Qed.

Lemma approval_tasks_shape_witness :
  exists p, parsePermitComments doc_sample false = Ok p /\
    List.length (PermitComments.approval_tasks p) = 2 /\
    Forall (fun t =>
              In (ApprovalTask.status t) task_statuses /\
              exists c u, ApprovalTask.task_name t = c :: u /\ is_letter c = true)
           (PermitComments.approval_tasks p).
Proof.
  destruct (approval_tasks_shape doc_sample false) as (p & Hp & F).
  exists p. split; [exact Hp|]. split; [|exact F].
  computed_record Hp. reflexivity.
Defined.

Module DateShape.

Lemma padded_digits s :
  digits s -> 1 <= List.length s <= 2 ->
  digits (padStart0 2 s) /\ List.length (padStart0 2 s) = 2.
Proof.
  intros D L. unfold padStart0. destruct s as [|a [|b [|c s]]]; simpl in L; try lia.
  - simpl. split; [constructor; [reflexivity|exact D] | reflexivity].
  - simpl. split; [exact D | reflexivity].
Qed.

Lemma digit_run fl mn mx g c :
  lang fl (Rep mn mx g (Cls false [CDigit])) c ->
  digits c /\ within (List.length c) mn mx.
Proof.
  intros H. apply lang_rep_cls in H. destruct H as [W F]. split; [|exact W].
  apply cls_digits with (fl := fl). exact F.
Qed.

(** A date that [parseDate] returns is [YYYY-MM-DD]. *)
Lemma parseDate_iso text s : parseDate text = Ok (Some s) -> iso_date s.
Proof.
  unfold parseDate. destruct text as [[|c t]|]; try discriminate.
  destruct (js_match no_flags re_date (c :: t)) as [mt|] eqn:Em; [|discriminate].
  destruct (js_match_group _ _ _ _ 3 _ Em eq_refl) as (yr & G3 & _).
  destruct (group 1 mt) as [mo|] eqn:G1; cbn [defined bind]; [|discriminate].
  destruct (group 2 mt) as [d|] eqn:G2; cbn [defined bind]; [|discriminate].
  rewrite G3. cbn [to_string]. intros H. injection H as <-.
  destruct (js_match_group_lang _ _ _ _ _ _ Em G1) as (g1 & [<-|[]] & L1).
  destruct (js_match_group_lang _ _ _ _ _ _ Em G2) as (g2 & [<-|[]] & L2).
  destruct (js_match_group_lang _ _ _ _ _ _ Em G3) as (g3 & [<-|[]] & L3).
  apply digit_run in L1, L2, L3.
  destruct L1 as [D1 W1], L2 as [D2 W2], L3 as [D3 W3].
  unfold within in W1, W2, W3. simpl in W1, W2, W3.
  destruct (padded_digits mo D1 ltac:(lia)) as [P1 Q1].
  destruct (padded_digits d D2 ltac:(lia)) as [P2 Q2].
  exists yr, (padStart0 2 mo), (padStart0 2 d). repeat split; try assumption; lia.
Qed.

Lemma item_date_iso mt it :
  item_of_match mt = Ok (Some it) -> iso_or_null (CorrectionItem.date it).
Proof.
  intros H. apply item_of_match_inv in H. destruct H as (body & date & _ & _ & Hd & ->).
  cbn [CorrectionItem.date]. intros s ->.
  destruct (group 2 mt) as [[|c t]|]; try discriminate. eapply parseDate_iso. exact Hd.
Qed.

Lemma block_dates_iso block cb :
  parseBlock block = Ok (Some cb) ->
  Forall iso_or_null (List.map CorrectionItem.date (CorrectionBlock.items cb)).
Proof.
  intros H. apply parseBlock_inv in H. destruct H as (dm & d & r & items & _ & _ & _ & Hi & ->).
  cbn [CorrectionBlock.items]. apply Forall_map.
  eapply items_loop_all; [exact Hi | constructor |].
  intros start mt it _. apply item_date_iso.
Qed.

Lemma header_dates_iso content h :
  parseHeader content = Ok h ->
  iso_or_null (Application.date_submitted (fst h)) /\
  iso_or_null (Application.date_issued (fst h)).
Proof.
  unfold parseHeader.
  destruct (parseDate (or_null (opt_group 1 (js_match flag_i re_submitted content))))
    as [ds| |] eqn:E1; cbn [bind]; try discriminate.
  destruct (parseDate (or_null (opt_group 1 (js_match flag_i re_issued content))))
    as [di| |] eqn:E2; cbn [bind]; try discriminate.
  intros H. injection H as <-. cbn.
  split; intros s ->; eapply parseDate_iso; eassumption.
Qed.

Lemma third_party_date_iso content t :
  parseThirdPartyReview content = Ok (Some t) ->
  iso_or_null (ThirdPartyReview.plan_review_date t).
Proof.
  unfold parseThirdPartyReview.
  destruct (js_match flag_i re_information_block content) as [im|]; [|discriminate].
  destruct (group 1 im) as [ic|]; cbn [defined bind]; [|discriminate].
  set (dm := js_match flag_i re_plan_review_date ic).
  set (bm := js_match flag_i re_reviewed_by ic).
  set (tm := js_match flag_i re_tenant ic).
  destruct (parseDate (or_null (opt_group 1 dm))) as [pd| |] eqn:Ed.
  - destruct dm, bm, tm; cbn [bind]; intros H; try discriminate;
      injection H as <-; cbn; intros s ->; eapply parseDate_iso; exact Ed.
  - destruct dm, bm, tm; cbn [bind]; discriminate.
  - destruct dm, bm, tm; cbn [bind]; discriminate.
Qed.

End DateShape.
Import DateShape.

(** X4. Every date of the record (the two of the application, those
    of the correction items, of the approval tasks and of the third
    party review) is null or has the form [YYYY-MM-DD]: four digits, a
    hyphen, two digits, a hyphen, two digits. *)
Theorem dates_are_iso :
  forall content includeRaw,
    exists p, parsePermitComments content includeRaw = Ok p /\
      Forall iso_or_null (dates_of p).
Proof.
  intros content includeRaw.
  destruct (parsePermitComments_ok content includeRaw) as [p Hp].
  exists p. split; [exact Hp|].
  apply parsePermitComments_fields in Hp.
  destruct Hp as (h & d & Hh & _ & _ & Hc & Ha & _ & Ht & E).
  unfold dates_of. rewrite E at 1 2. cbn [PermitComments.application].
  destruct (header_dates_iso _ _ Hh) as [H1 H2].
  constructor; [exact H1|]. constructor; [exact H2|].
  apply Forall_app. split; [|apply Forall_app; split].
  - apply Forall_flat_map.
    eapply parseCorrections_all; [exact Hc|]. apply block_dates_iso.
  - apply Forall_map. eapply parseApprovalTable_all; [exact Ha|].
    intros line t Hl. apply parseTaskLine_inv in Hl.
    destruct Hl as (mt & n & s & r & completed & _ & _ & _ & _ & Hd & ->).
    cbn. intros x ->. eapply parseDate_iso. exact Hd.
  - destruct (PermitComments.third_party_review p) as [t|]; [|constructor].
    constructor; [|constructor]. eapply third_party_date_iso. exact Ht.
Qed.

Lemma dates_are_iso_witness :
  exists p, parsePermitComments doc_sample false = Ok p /\
    dates_of p = List.map (fun s => Some (str s))
                   [ "2025-09-03"; "2025-10-14"; "2025-09-05" ]%string
                 ++ [None] ++
                 List.map (fun s => Some (str s))
                   [ "2025-09-04"; "2025-09-05"; "2025-08-29" ]%string /\
    Forall iso_or_null (dates_of p).
Proof.
  destruct (dates_are_iso doc_sample false) as (p & Hp & F).
  exists p. split; [exact Hp|]. split; [|exact F].
  computed_record Hp. reflexivity.
Defined.

Module FieldShape.

Lemma trimStart_head c t : is_space c = false -> trimStart (c :: t) = c :: t.
Proof. intros H. simpl. rewrite H. reflexivity. Qed.

Lemma trim_no_space s : Forall (fun c => is_space c = false) s -> trim s = s.
Proof.
  intros F. unfold trim, trimEnd.
  assert (T : forall u, Forall (fun c => is_space c = false) u -> trimStart u = u).
  { intros u Hu. destruct Hu as [|c u Hc _]; [reflexivity|]. apply trimStart_head. exact Hc. }
  rewrite (T s F). rewrite T; [apply rev_involutive|].
  apply Forall_rev. exact F.
Qed.

Lemma words_forall (P : char -> Prop) s :
  Forall P s -> Forall (Forall P) (words s).
Proof.
  induction 1 as [|c t Hc Ht IH]; simpl; [constructor|].
  destruct (is_space c); [exact IH|].
  destruct (starts_word t).
  - destruct (words t) as [|w ws]; [repeat constructor; exact Hc|].
    inversion IH; subst. constructor; [constructor|]; assumption.
  - constructor; [repeat constructor; exact Hc | exact IH].
Qed.

Lemma words_head c t : is_space c = false -> words (c :: t) <> [].
Proof. intros H. apply words_nonempty. simpl. rewrite H. reflexivity. Qed.

(** The department of a block: [cleanText] of a letter followed by
    letters and white space. *)
Lemma department_shape d :
  lang flag_m
    (Seq (Cls false [CRange 65 90; CRange 97 122])
         (Rep 0 None true (Cls false [CRange 65 90; CRange 97 122; CSpace]))) d ->
  letter_words (cleanText d).
Proof.
  intros (s1 & s2 & -> & (c & -> & Hc) & H2).
  apply cls_letter in Hc. apply lang_rep_cls in H2. destruct H2 as [_ F].
  assert (Fd : Forall (fun a => is_space a = false -> is_letter a = true) ([c] ++ s2)).
  { constructor; [intros _; exact Hc|].
    eapply Forall_impl; [|exact F]. intros a Ha Hs. cbv beta in Ha.
    unfold cls_match, citem_match in Ha. cbn [existsb citem_has f_icase flag_m] in Ha.
    rewrite !andb_false_l, !orb_false_r in Ha. rewrite Hs in Ha.
    rewrite orb_false_r in Ha. exact Ha. }
  exists (words ([c] ++ s2)). split; [|split].
  - apply words_head. apply letter_not_space. exact Hc.
  - apply cleanText_words.
  - pose proof (words_word ([c] ++ s2)) as W.
    pose proof (words_forall _ _ Fd) as L.
    revert W L. generalize (words ([c] ++ s2)). intros ws W.
    induction W as [|w ws [Hn Hw] _ IH]; intros L; [constructor|].
    inversion L as [|? ? Lw Lws]; subst. constructor; [|apply IH; exact Lws].
    split; [exact Hn|]. clear - Hw Lw.
    induction Hw as [|a w Ha _ IH]; [constructor|].
    inversion Lw; subst. constructor; auto.
Qed.

Lemma block_shape block cb :
  parseBlock block = Ok (Some cb) ->
  letter_words (CorrectionBlock.department cb) /\
  Forall (fun it => CorrectionItem.text it <> [] /\
                    cleanText (CorrectionItem.text it) = CorrectionItem.text it)
         (CorrectionBlock.items cb).
Proof.
  intros H. apply parseBlock_inv in H. destruct H as (dm & d & r & items & Hm & G1 & _ & Hi & ->).
  cbn [CorrectionBlock.department CorrectionBlock.items]. split.
  - destruct (js_match_group_lang _ _ _ _ _ _ Hm G1) as (g & [<-|[]] & HL).
    apply department_shape. exact HL.
  - eapply items_loop_all; [exact Hi | constructor |].
    intros start mt it _ Hit. apply item_of_match_inv in Hit.
    destruct Hit as (body & date & _ & Hne & _ & ->). cbn [CorrectionItem.text].
    split; [exact Hne | apply cleanText_twice].
Qed.

Lemma row_shape tableContent start mt occ const :
  exec_from no_flags rowRegex tableContent start = Some mt ->
  group 1 mt = Some occ -> group 2 mt = Some const ->
  occupancy_code (trim occ) /\ In (trim const) construction_types.
Proof.
  intros Hm G1 G2. split.
  - destruct (exec_from_group_lang _ _ _ _ _ _ _ Hm G1) as (g & [<-|[]] & HL).
    assert (Ho : occupancy_code occ).
    { destruct HL as [(s1 & s2 & -> & (c & -> & Hc) & (s3 & s4 & -> & Hd & Hn))|(c & -> & Hc)].
      - apply digit_run in Hn. destruct Hn as [Dn _].
        destruct Hd as (n & [_ Wn] & Hi).
        exists c, s3, s4. split; [reflexivity|]. split; [|split; [|exact Dn]].
        + unfold cls_match, citem_match in Hc.
          cbn [existsb citem_has f_icase no_flags andb xorb] in Hc. unfold char_eqb in Hc.
          rewrite !orb_false_r in Hc. apply orb_true_iff in Hc.
          destruct Hc as [Hc|Hc]; apply N.eqb_eq in Hc; subst; auto.
        + destruct n as [|[|n]]; [left; exact Hi | right | lia].
          destruct Hi as (a & b & -> & (c0 & -> & Hc0) & ->).
          apply chr_match_exact in Hc0. subst. reflexivity.
      - apply chr_match_exact in Hc. subst. exists 85%N, [], [].
        repeat split; auto. constructor. }
    rewrite trim_no_space; [exact Ho|].
    destruct Ho as (c & dash & ds & -> & Hc & Hd & Hds).
    constructor; [destruct Hc; subst; reflexivity|]. apply Forall_app. split.
    + destruct Hd; subst; repeat constructor.
    + eapply Forall_impl; [|exact Hds]. intros a Ha. apply digit_not_space. exact Ha.
  - assert (Hin : In const construction_types).
    { eapply (group_literal_exec rowRegex tableContent start mt 2 const);
        [exact Hm | exact G2 | |]; vm_compute; reflexivity. }
    revert Hin. generalize const. apply Forall_forall.
    unfold construction_types. cbn [List.map].
    repeat (constructor; [vm_compute; repeat (first [left; reflexivity | right]) |]).
    constructor.
Qed.

Lemma chr_icase p c :
  chr_match flag_i p c = true -> is_upper p = true -> c = p \/ c = (p + 32)%N.
Proof.
  unfold chr_match, canon, flag_i, f_icase, char_eqb, to_upper, is_upper, is_lower, in_range.
  intros H Hp. apply andb_true_iff in Hp. destruct Hp as [A B]. apply N.leb_le in A, B.
  replace ((97 <=? p) && (p <=? 122))%N with false in H
    by (symmetry; apply andb_false_iff; left; apply N.leb_gt; lia).
  destruct ((97 <=? c) && (c <=? 122))%N eqn:E; apply N.eqb_eq in H.
  - apply andb_true_iff in E. destruct E as [E1 E2]. apply N.leb_le in E1, E2. right. lia.
  - left. congruence.
Qed.

Lemma application_number_shape n :
  lang flag_i
    (Seq (Chr 80) (Seq (Chr 66)
       (Seq (Rep 1 None true (Cls false [CDigit]))
            (Seq (Chr 45) (Rep 1 None true (Cls false [CDigit])))))) n ->
  permit_number n.
Proof.
  intros (s1 & r1 & -> & (p & -> & Hp) & s2 & r2 & -> & (b & -> & Hb) &
          d1 & r3 & -> & H1 & s4 & d2 & -> & (h & -> & Hh) & H2).
  apply digit_run in H1, H2. destruct H1 as [D1 W1], H2 as [D2 W2].
  unfold within in W1, W2.
  apply chr_icase in Hp; [|reflexivity]. apply chr_icase in Hb; [|reflexivity].
  assert (h = 45%N).
  { unfold chr_match, canon, flag_i, f_icase, char_eqb, to_upper in Hh.
    change (is_lower 45) with false in Hh. cbv iota in Hh.
    destruct (is_lower h) eqn:E; apply N.eqb_eq in Hh; [|congruence].
    unfold is_lower, in_range in E. apply andb_true_iff in E. destruct E as [E1 E2].
    apply N.leb_le in E1, E2. lia. }
  subst h. exists p, b, d1, d2. repeat split; try assumption.
  - destruct d1; [simpl in W1; lia | discriminate].
  - destruct d2; [simpl in W2; lia | discriminate].
Qed.

End FieldShape.
Import FieldShape.

Module HeaderShape.

Lemma parseHeader_inv content h :
  parseHeader content = Ok h ->
  Application.number (fst h) = or_empty (opt_group 1 (js_match flag_i re_application content)) /\
  Application.status (fst h) =
    cleanText (or_empty (opt_group 1 (js_match flag_i re_status content))) /\
  Property.address (snd h) =
    cleanText (or_empty (opt_group 1 (js_match flag_is re_address content))) /\
  Property.parcel (snd h) = or_null (opt_group 1 (js_match flag_i re_parcel content)) /\
  Property.zoning (snd h) = or_null (opt_group 1 (js_match flag_i re_zoning content)) /\
  Property.subdivision (snd h) =
    or_null (Some (cleanText (or_empty (opt_group 1 (js_match flag_i re_subdivision content))))) /\
  Property.lot (snd h) = or_null (opt_group 1 (js_match flag_i re_lotBlock content)) /\
  Property.block (snd h) = or_null (opt_group 2 (js_match flag_i re_lotBlock content)).
Proof.
  unfold parseHeader.
  destruct (parseDate (or_null (opt_group 1 (js_match flag_i re_submitted content))))
    as [ds| |]; cbn [bind]; try discriminate.
  destruct (parseDate (or_null (opt_group 1 (js_match flag_i re_issued content))))
    as [di| |]; cbn [bind]; try discriminate.
  intros H. injection H as <-. cbn. repeat split; reflexivity.
Qed.

Lemma or_null_some v s : or_null v = Some s -> v = Some s /\ s <> [].
Proof. destruct v as [[|c t]|]; simpl; intros H; try discriminate. injection H as <-. split; [reflexivity|discriminate]. Qed.

Lemma opt_group_some i mt s :
  opt_group i mt = Some s -> exists mr, mt = Some mr /\ group i mr = Some s.
Proof. destruct mt as [mr|]; simpl; [eauto|discriminate]. Qed.

Lemma cls_zoning c :
  cls_match flag_i false [CRange 65 90; CRange 48 57; CChar 45] c = true ->
  zoning_char c = true.
Proof.
  intros H. unfold zoning_char, is_letter.
  destruct (is_upper c) eqn:U; [reflexivity|]. destruct (is_lower c) eqn:L; [reflexivity|].
  revert H. unfold cls_match, citem_match, swap_case. rewrite L, U.
  cbn [existsb citem_has f_icase flag_i andb xorb orb].
  fold (is_upper c) (is_digit c). rewrite U. unfold char_eqb. cbn [orb].
  rewrite !orb_false_r, !orb_diag. rewrite (N.eqb_sym 45 c). intros ->. reflexivity.
Qed.

Lemma negated_class fl items c :
  cls_match fl true items c = true -> Forall (fun i => citem_has i c = false) items.
Proof.
  unfold cls_match. intros H. apply negb_true_iff in H.
  induction items as [|i items IH]; [constructor|]. simpl in H.
  apply orb_false_iff in H. destruct H as [H1 H2]. constructor; [|apply IH; exact H2].
  unfold citem_match in H1. apply orb_false_iff in H1. apply H1.
Qed.

End HeaderShape.
Import HeaderShape.

(** X5. The application number is empty or [PB] (in either case),
    digits, a hyphen and digits; a parcel is a nonempty run of digits; a zoning code is a
    nonempty run of letters, digits and hyphens; a lot is a nonempty
    run without white space and without a slash, a block a nonempty run
    without white space. *)
Theorem header_fields_shape :
  forall content includeRaw,
    exists p, parsePermitComments content includeRaw = Ok p /\
      let a := PermitComments.application p in
      let pr := PermitComments.property p in
      (Application.number a = [] \/ permit_number (Application.number a)) /\
      (forall s, Property.parcel pr = Some s -> s <> [] /\ digits s) /\
      (forall s, Property.zoning pr = Some s ->
         s <> [] /\ Forall (fun c => zoning_char c = true) s) /\
      (forall s, Property.lot pr = Some s -> word s /\ ~ In 47%N s) /\
      (forall s, Property.block pr = Some s -> word s).
Proof.
  intros content includeRaw.
  destruct (parsePermitComments_ok content includeRaw) as [p Hp].
  exists p. split; [exact Hp|]. cbv zeta.
  apply parsePermitComments_fields in Hp.
  destruct Hp as (h & d & Hh & _ & _ & _ & _ & _ & _ & ->).
  cbn [PermitComments.application PermitComments.property].
  apply parseHeader_inv in Hh.
  destruct Hh as (En & _ & _ & Ep & Ez & _ & El & Eb).
  rewrite En, Ep, Ez, El, Eb. clear. split; [|split; [|split; [|split]]].
  - destruct (js_match flag_i re_application content) as [mr|] eqn:Em; [|left; reflexivity].
    cbn [opt_group]. destruct (group 1 mr) as [n|] eqn:G; [|left; reflexivity].
    right. cbn [or_empty].
    destruct (js_match_group_lang _ _ _ _ _ _ Em G) as (g & [<-|[]] & HL).
    apply application_number_shape. exact HL.
  - intros s H. apply or_null_some in H. destruct H as [H Hn].
    apply opt_group_some in H. destruct H as (mr & Em & G). split; [exact Hn|].
    destruct (js_match_group_lang _ _ _ _ _ _ Em G) as (g & [<-|[]] & HL).
    apply digit_run in HL. apply HL.
  - intros s H. apply or_null_some in H. destruct H as [H Hn].
    apply opt_group_some in H. destruct H as (mr & Em & G). split; [exact Hn|].
    destruct (js_match_group_lang _ _ _ _ _ _ Em G) as (g & [<-|[]] & HL).
    apply lang_rep_cls in HL. destruct HL as [_ F].
    eapply Forall_impl; [|exact F]. intros c Hc. apply cls_zoning. exact Hc.
  - intros s H. apply or_null_some in H. destruct H as [H Hn].
    apply opt_group_some in H. destruct H as (mr & Em & G).
    destruct (js_match_group_lang _ _ _ _ _ _ Em G) as (g & [<-|[]] & HL).
    apply lang_rep_cls in HL. destruct HL as [_ F]. split; [split; [exact Hn|]|].
    + eapply Forall_impl; [|exact F]. intros c Hc. apply negated_class in Hc.
      inversion Hc as [|? ? _ Hc2]; subst. inversion Hc2; subst. assumption.
    + intros Hin. rewrite Forall_forall in F. specialize (F _ Hin).
      apply negated_class in F. inversion F as [|? ? H1 _]; subst. discriminate H1.
  - intros s H. apply or_null_some in H. destruct H as [H Hn].
    apply opt_group_some in H. destruct H as (mr & Em & G).
    destruct (js_match_group_lang _ _ _ _ _ _ Em G) as (g & [<-|[]] & HL).
    apply lang_rep_cls in HL. destruct HL as [_ F]. split; [exact Hn|].
    eapply Forall_impl; [|exact F]. intros c Hc. apply negated_class in Hc.
    inversion Hc; subst. assumption.
Qed.

Lemma header_fields_shape_witness :
  exists p, parsePermitComments doc_sample false = Ok p /\
    permit_number (str "PB25-16985") /\
    digits (str "04629981") /\
    Forall (fun c => zoning_char c = true) (str "A-5") /\
    word (str "12R") /\ word (str "3").
Proof.
  destruct (header_fields_shape doc_sample false) as (p & Hp & H).
  exists p. split; [exact Hp|].
  computed_record Hp. cbv zeta in H.
  destruct H as (Hn & Hpa & Hz & Hl & Hb).
  split; [destruct Hn as [Hn|Hn]; [discriminate Hn | exact Hn]|].
  split; [apply (Hpa _ eq_refl)|].
  split; [apply (Hz _ eq_refl)|].
  split; [apply (Hl _ eq_refl) | apply (Hb _ eq_refl)].
Defined.

(** X6. In every correction block the department is made of words of
    letters, and every item has a nonempty text that [cleanText] leaves
    as it is. *)
Theorem correction_blocks_shape :
  forall content includeRaw,
    exists p, parsePermitComments content includeRaw = Ok p /\
      Forall (fun cb =>
                letter_words (CorrectionBlock.department cb) /\
                Forall (fun it => CorrectionItem.text it <> [] /\
                                  cleanText (CorrectionItem.text it) = CorrectionItem.text it)
                       (CorrectionBlock.items cb))
             (PermitComments.corrections p).
Proof.
  intros content includeRaw.
  destruct (parsePermitComments_ok content includeRaw) as [p Hp].
  exists p. split; [exact Hp|].
  apply parsePermitComments_fields in Hp.
  destruct Hp as (h & d & _ & _ & _ & Hc & _ & _ & _ & _).
  eapply parseCorrections_all; [exact Hc|]. apply block_shape.
Qed.

Lemma correction_blocks_shape_witness :
  exists p, parsePermitComments doc_sample false = Ok p /\
    List.map (fun cb => List.length (CorrectionBlock.items cb))
             (PermitComments.corrections p) = [2] /\
    Forall (fun cb =>
              letter_words (CorrectionBlock.department cb) /\
              Forall (fun it => CorrectionItem.text it <> [] /\
                                cleanText (CorrectionItem.text it) = CorrectionItem.text it)
                     (CorrectionBlock.items cb))
           (PermitComments.corrections p).
Proof.
  destruct (correction_blocks_shape doc_sample false) as (p & Hp & F).
  exists p. split; [exact Hp|]. split; [|exact F].
  computed_record Hp. reflexivity.
Defined.

(** X7. In every row of the building table the occupancy class is [R]
    or [U] followed by an optional hyphen and by digits, if any, and
    the construction type is one of the eight types that the row
    pattern lists. *)
Theorem building_rows_shape :
  forall content includeRaw,
    exists p, parsePermitComments content includeRaw = Ok p /\
      Forall (fun c =>
                occupancy_code (BuildingClass.occupancy_class c) /\
                In (BuildingClass.construction_type c) construction_types)
             (PermitComments.building_classification p).
Proof.
  intros content includeRaw.
  destruct (parsePermitComments_ok content includeRaw) as [p Hp].
  exists p. split; [exact Hp|].
  apply parsePermitComments_fields in Hp.
  destruct Hp as (h & d & _ & _ & Hb & _ & _ & _ & _ & _).
  eapply parseBuildingClassification_all; [exact Hb|].
  intros tc start mt occ const use Hm G1 G2 _.
  cbn [BuildingClass.occupancy_class BuildingClass.construction_type].
  eapply row_shape; eassumption.
Qed.

Lemma building_rows_shape_witness :
  exists p, parsePermitComments doc_sample false = Ok p /\
    List.length (PermitComments.building_classification p) = 1 /\
    Forall (fun c =>
              occupancy_code (BuildingClass.occupancy_class c) /\
              In (BuildingClass.construction_type c) construction_types)
           (PermitComments.building_classification p).
Proof.
  destruct (building_rows_shape doc_sample false) as (p & Hp & F).
  exists p. split; [exact Hp|]. split; [|exact F].
  computed_record Hp. reflexivity.
Defined.

Module Sections.
Section Sections.
Variable fl : flags.

(** The literal text a pattern starts with is consumed first. *)
Lemma m_literal : forall r x k,
  starts_with_pattern fl (literal_prefix r) (ms_rest x) = true ->
  exists s t,
    ms_rest x = s ++ t /\ List.length s = List.length (literal_prefix r) /\
    m fl r x k = m fl (drop_terms (List.length (literal_prefix r)) r) (after s x t) k.
Proof.
  assert (Base : forall r x k, literal_prefix r = [] ->
            exists s t, ms_rest x = s ++ t /\ List.length s = List.length (literal_prefix r) /\
              m fl r x k = m fl (drop_terms (List.length (literal_prefix r)) r) (after s x t) k).
  { intros r x k E. exists [], (ms_rest x). rewrite E, after_nil. repeat split; reflexivity. }
  induction r; intros x k H; try (apply Base; reflexivity).
  - (* one character *)
    simpl in H. destruct (ms_rest x) as [|c0 rest] eqn:E; [discriminate|].
    apply andb_true_iff in H. destruct H as [Hc _].
    exists [c0], rest. split; [reflexivity|]. split; [reflexivity|].
    simpl. rewrite E, Hc. reflexivity.
  - destruct r1; try (apply Base; reflexivity).
    simpl in H. destruct (ms_rest x) as [|c0 rest] eqn:E; [discriminate|].
    apply andb_true_iff in H. destruct H as [Hc H].
    destruct (IHr2 (advance c0 rest x) k H) as (s & t & Es & Ls & Em).
    cbn [ms_rest advance] in Es.
    exists (c0 :: s), t. split; [rewrite Es; reflexivity|].
    split; [simpl; rewrite Ls; reflexivity|].
    cbn [m literal_prefix List.length drop_terms]. rewrite E, Hc, Em.
    reflexivity.
Qed.

(** A lazy run over a class that accepts every character goes on until
    what follows it succeeds, at the end of the text at the latest. *)
Lemma lazy_any items gs :
  (forall c, cls_match fl false items c = true) ->
  forall fuel x k,
    List.length (ms_rest x) < fuel ->
    (forall y, ms_rest y = [] -> k y <> None) ->
    rep (m fl (Cls false items)) gs false fuel 0 None x k <> None.
Proof.
  intros Hall. induction fuel as [|fuel IH]; intros x k Hf Hk; [lia|].
  rewrite rep_step. cbn [is_zero]. cbv zeta. cbn [Nat.eqb negb].
  destruct (k x) eqn:Ek; [discriminate|].
  cbn [m ms_rest]. destruct (ms_rest x) as [|c rest] eqn:E.
  - exfalso. apply (Hk x E Ek).
  - rewrite Hall. cbn [advance ms_rest].
    assert (Hl : Nat.eqb (List.length rest) (List.length (c :: rest)) = false)
      by (apply Nat.eqb_neq; simpl; lia).
    rewrite Hl. cbn [andb]. apply IH; [simpl in Hf |- *; lia | exact Hk].
Qed.

Lemma occurs_split p : forall s,
  occurs fl p s = true ->
  exists pre suf, s = pre ++ suf /\ starts_with_pattern fl p suf = true.
Proof.
  induction s as [|c s IH]; simpl; intros H.
  - rewrite orb_false_r in H. exists [], []. split; [reflexivity|exact H].
  - apply orb_true_iff in H. destruct H as [H|H].
    + exists [], (c :: s). split; [reflexivity|exact H].
    + destruct (IH H) as (pre & suf & -> & Hs). exists (c :: pre), suf. split; [reflexivity|exact Hs].
Qed.

(** A match is a match of one of the alternatives. *)
Lemma matches_alternatives : forall r x y,
  matches fl r x y -> exists a, In a (alternatives r) /\ matches fl a x y.
Proof.
  induction r; intros x y H; try (eexists; split; [left; reflexivity | exact H]).
  simpl in H |- *. destruct H as [H|H].
  - destruct (IHr1 _ _ H) as (a & Ha & Hm). exists a. split; [apply in_or_app; left|]; assumption.
  - destruct (IHr2 _ _ H) as (a & Ha & Hm). exists a. split; [apply in_or_app; right|]; assumption.
Qed.

(** No match when, after some leading terms, none of the alternatives
    finds its literal text. *)
Lemma js_match_needs_alternative n r s :
  Forall (fun a => occurs fl (literal_prefix a) s = false)
         (alternatives (drop_terms n r)) ->
  js_match fl r s = None.
Proof.
  intros F. destruct (js_match fl r s) as [mr|] eqn:E; [|reflexivity]. exfalso.
  apply js_match_sound in E. destruct E as (pre & prev & y & Es & _ & Hm & _).
  apply matches_drop_terms with (n := n) in Hm. destruct Hm as (z & s1 & E1 & Hm).
  apply matches_alternatives in Hm. destruct Hm as (a & Ha & Hm).
  rewrite Forall_forall in F. specialize (F _ Ha).
  apply matches_literal_prefix in Hm.
  cbn [ms_rest] in E1.
  assert (O : occurs fl (literal_prefix a) s = true).
  { rewrite Es, E1. apply occurs_app. apply occurs_app. apply occurs_start. exact Hm. }
  congruence.
Qed.

End Sections.

Lemma any_char fl c : cls_match fl false [CSpace; CNonSpace] c = true.
Proof.
  unfold cls_match, citem_match. cbn [existsb citem_has xorb].
  destruct (is_space c); cbn [negb orb]; [reflexivity|].
  rewrite orb_true_r. reflexivity.
Qed.

(** The zoning section is found wherever its anchor stands. *)
Lemma zoning_section_found content :
  occurs flag_i (str "Zoning Plans Exam") content = true ->
  js_match flag_i re_zoning_section content <> None.
Proof.
  intros H. apply occurs_split in H. destruct H as (pre & suf & -> & Hs).
  apply search_finds. intros p.
  destruct (m_literal flag_i re_zoning_section (MState p suf []) (fun z => Some z) Hs)
    as (s & t & _ & _ & ->).
  change (drop_terms _ re_zoning_section) with
    (Seq (Grp 1 (Rep 0 None false (Cls false [CSpace; CNonSpace])))
         (drop_terms 18 re_zoning_section)).
  cbn [m groups]. apply lazy_any.
  - apply any_char.
  - lia.
  - intros y Hy. destruct y as [yp yr yc]. cbn [ms_rest] in Hy. subst yr.
    cbn. discriminate.
Qed.

End Sections.
Import Sections.

(** X8. The zoning review is null exactly when the document does not
    contain [Zoning Plans Exam] (in any case): once the anchor is there
    a review is returned, whatever follows. *)
Theorem zoning_review_presence :
  forall content includeRaw,
    exists p, parsePermitComments content includeRaw = Ok p /\
      (PermitComments.zoning_review p = None <->
       anchor_absent "Zoning Plans Exam" content).
Proof.
  intros content includeRaw.
  destruct (parsePermitComments_ok content includeRaw) as [p Hp].
  exists p. split; [exact Hp|].
  apply parsePermitComments_fields in Hp.
  destruct Hp as (h & d & _ & _ & _ & _ & _ & Hz & _ & _).
  unfold parseZoningReview in Hz. unfold anchor_absent. split.
  - intros E. rewrite E in Hz.
    destruct (occurs flag_i (str "Zoning Plans Exam") content) eqn:O; [|reflexivity].
    apply zoning_section_found in O.
    destruct (js_match flag_i re_zoning_section content) as [zm|]; [|congruence].
    destruct (defined (group 1 zm)); cbn [bind] in Hz; discriminate.
  - intros O.
    rewrite (js_match_none flag_i 0 re_zoning_section content) in Hz by exact O.
    congruence.
Qed.

(** X9. The corrections section and the building table are read only
    up to a terminator.  In a document that holds neither
    [Approval Table:] nor [General Comments] the corrections are empty,
    and in one that holds none of [Sprinkler], [Comment:] and
    [Required Corrections] the building table is empty, also when the
    section is there and runs to the end of the document. *)
Theorem sections_need_terminator :
  forall content includeRaw,
    exists p, parsePermitComments content includeRaw = Ok p /\
      (anchor_absent "Approval Table:" content ->
       anchor_absent "General Comments" content ->
       PermitComments.corrections p = []) /\
      (anchor_absent "Sprinkler" content ->
       anchor_absent "Comment:" content ->
       anchor_absent "Required Corrections" content ->
       PermitComments.building_classification p = []).
Proof.
  intros content includeRaw.
  destruct (parsePermitComments_ok content includeRaw) as [p Hp].
  exists p. split; [exact Hp|].
  apply parsePermitComments_fields in Hp.
  destruct Hp as (h & d & _ & _ & Hb & Hc & _ & _ & _ & _).
  split.
  - intros H1 H2. unfold parseCorrections in Hc.
    rewrite (js_match_needs_alternative flag_i 22 re_corrections content) in Hc;
      [congruence|].
    repeat constructor; assumption.
  - intros H1 H2 H3. unfold parseBuildingClassification in Hb.
    rewrite (js_match_needs_alternative flag_i 83 re_building_table content) in Hb;
      [congruence|].
    repeat constructor; assumption.
Qed.

Lemma sections_need_terminator_witness :
  (exists p, parsePermitComments doc_open_corrections false = Ok p /\
             PermitComments.corrections p = []) /\
  (exists p, parsePermitComments doc_open_building false = Ok p /\
             PermitComments.building_classification p = []).
Proof.
  split.
  - destruct (sections_need_terminator doc_open_corrections false) as (p & Hp & Hc & _).
    exists p. split; [exact Hp|]. apply Hc; reflexivity.
  - destruct (sections_need_terminator doc_open_building false) as (p & Hp & _ & Hb).
    exists p. split; [exact Hp|]. apply Hb; reflexivity.
Defined.

Example closed_building :
  exists cs c,
    parseBuildingClassification (doc_open_building ++ NL :: str "Sprinkler") = Ok cs /\
    cs = [c] /\ BuildingClass.occupancy_class c = str "R-3" /\
    BuildingClass.construction_type c = str "VB" /\
    BuildingClass.square_feet c = Some 1604%float.
Proof. eexists. eexists. split; [vm_compute; reflexivity|]. repeat split. Qed.

(** With a terminator after it the same section gives its block. *)
Example closed_corrections :
  exists cs cb,
    parseCorrections (doc_open_corrections ++ NL :: str "General Comments") = Ok cs /\
    cs = [cb] /\ CorrectionBlock.department cb = str "Water" /\
    List.length (CorrectionBlock.items cb) = 1.
Proof. eexists. eexists. split; [vm_compute; reflexivity|]. repeat split. Qed.

Module ZoningShape.

Lemma zoningFields_feet zc :
  ZoningReview.height (zoningFields zc) =
    (let hp := cascade2 parseFeet (js_match flag_i height1 zc) (js_match flag_i height2 zc) in
     dimensional (fst hp) (snd hp)) /\
  ZoningReview.lot_width (zoningFields zc) =
    (let hp := cascade2 parseFeet (js_match flag_i lotWidth1 zc) (js_match flag_i lotWidth2 zc) in
     dimensional (fst hp) (snd hp)) /\
  ZoningReview.setbacks (zoningFields zc) =
    Some (Setbacks.mk
      (let hp := cascade2 parseFeet (js_match flag_i front1 zc) (js_match flag_i front2 zc) in
       dimensional (fst hp) (snd hp))
      (dimensional (fst (fst (sides zc))) (snd (fst (sides zc))))
      (dimensional (fst (fst (sides zc))) (snd (sides zc)))
      (let hp := cascade2 parseFeet (js_match flag_i rear1 zc) (js_match flag_i rear2 zc) in
       dimensional (fst hp) (snd hp))).
Proof.
  unfold zoningFields.
  destruct (lotCoverage zc) as [a1 b1].
  destruct (cascade2 parseFeet (js_match flag_i height1 zc) _) as [a2 b2].
  destruct (cascade2 parseFeet (js_match flag_i lotWidth1 zc) _) as [a3 b3].
  destruct (cascade2 parsePercent _ _) as [a4 b4].
  destruct (cascade2 parseFeet (js_match flag_i front1 zc) _) as [a5 b5].
  destruct (sides zc) as [[a6 b6] c6].
  destruct (cascade2 parseFeet (js_match flag_i rear1 zc) _) as [a7 b7].
  cbn. repeat split; reflexivity.
Qed.

(** The first group of a dimension pattern is a run of digits, which
    [parseFeet] reads. *)
Lemma feet_of_first_group r zc mt :
  js_match flag_i r zc = Some mt ->
  bodies 1 r = [Rep 1 None true (Cls false [CDigit])] ->
  (exists n, sure_length 1 (sure r) = Some n) ->
  parseFeet (group 1 mt) <> None.
Proof.
  intros Hm Hb (n & Hs).
  destruct (js_match_group _ _ _ _ 1 _ Hm Hs) as (c & G & _). rewrite G.
  destruct (js_match_group_lang _ _ _ _ _ _ Hm G) as (g & Hin & HL).
  rewrite Hb in Hin. destruct Hin as [<-|[]].
  apply digit_run in HL. destruct HL as [D W]. unfold within in W.
  rewrite parseFeet_feet; [discriminate|].
  apply digits_decimal; [exact D|]. destruct c; [simpl in W; lia|discriminate].
Qed.

Lemma cascade2_required r1 r2 zc :
  bodies 1 r1 = [Rep 1 None true (Cls false [CDigit])] ->
  bodies 1 r2 = [Rep 1 None true (Cls false [CDigit])] ->
  (exists n, sure_length 1 (sure r1) = Some n) ->
  (exists n, sure_length 1 (sure r2) = Some n) ->
  let hp := cascade2 parseFeet (js_match flag_i r1 zc) (js_match flag_i r2 zc) in
  has_required (dimensional (fst hp) (snd hp)).
Proof.
  intros B1 B2 S1 S2. cbv zeta. unfold cascade2, pair_of.
  destruct (js_match flag_i r1 zc) as [m1|] eqn:E1.
  - pose proof (feet_of_first_group _ _ _ E1 B1 S1) as N. cbn [fst snd].
    destruct (parseFeet (group 1 m1)) as [a|]; [|congruence].
    intros v Hv. destruct (parseFeet (group 2 m1)); injection Hv as <-; discriminate.
  - destruct (js_match flag_i r2 zc) as [m2|] eqn:E2.
    + pose proof (feet_of_first_group _ _ _ E2 B2 S2) as N. cbn [fst snd].
      destruct (parseFeet (group 1 m2)) as [a|]; [|congruence].
      intros v Hv. destruct (parseFeet (group 2 m2)); injection Hv as <-; discriminate.
    + intros v Hv. discriminate.
Qed.

Lemma sides_required zc :
  fst (fst (sides zc)) <> None \/ sides zc = (None, None, None).
Proof.
  unfold sides.
  destruct (js_match flag_i sides1 zc) as [m1|] eqn:E1.
  - left. cbn [fst].
    apply (feet_of_first_group _ _ _ E1); [reflexivity | eexists; reflexivity].
  - destruct (js_match flag_i sides2 zc) as [m2|] eqn:E2; [|right; reflexivity].
    left. cbn [fst].
    apply (feet_of_first_group _ _ _ E2); [reflexivity | eexists; reflexivity].
Qed.

End ZoningShape.
Import ZoningShape.

(** X10. In a zoning review the height, the lot width and the front,
    rear and side setbacks, when present, carry the required value
    (the field [maximum]); the two side setbacks are present together
    and carry the same required value. *)
Theorem feet_fields_have_required_side :
  forall content includeRaw,
    exists p, parsePermitComments content includeRaw = Ok p /\
      forall zr, PermitComments.zoning_review p = Some zr ->
        has_required (ZoningReview.height zr) /\
        has_required (ZoningReview.lot_width zr) /\
        exists s, ZoningReview.setbacks zr = Some s /\
          has_required (Setbacks.front s) /\ has_required (Setbacks.rear s) /\
          has_required (Setbacks.side_left s) /\ has_required (Setbacks.side_right s) /\
          (Setbacks.side_left s = None <-> Setbacks.side_right s = None) /\
          (forall l r, Setbacks.side_left s = Some l -> Setbacks.side_right s = Some r ->
             DimensionalValue.maximum l = DimensionalValue.maximum r).
Proof.
  intros content includeRaw.
  destruct (parsePermitComments_ok content includeRaw) as [p Hp].
  exists p. split; [exact Hp|]. intros zr Hzr.
  apply parsePermitComments_fields in Hp.
  destruct Hp as (h & d & _ & _ & _ & _ & _ & Hz & _ & _).
  rewrite Hzr in Hz. apply parseZoningReview_fields in Hz. destruct Hz as (zc & ->).
  destruct (zoningFields_feet zc) as (Eh & Ew & Es). rewrite Eh, Ew, Es.
  split; [|split].
  - apply cascade2_required; try reflexivity; eexists; reflexivity.
  - apply cascade2_required; try reflexivity; eexists; reflexivity.
  - eexists. split; [reflexivity|]. cbn [Setbacks.front Setbacks.rear Setbacks.side_left Setbacks.side_right].
    split; [apply cascade2_required; try reflexivity; eexists; reflexivity|].
    split; [apply cascade2_required; try reflexivity; eexists; reflexivity|].
    destruct (sides_required zc) as [N | ->].
    + destruct (sides zc) as [[a b] c]. cbn [fst snd] in *.
      destruct a as [a|]; [|congruence].
      repeat split.
      * intros v Hv. destruct b; injection Hv as <-; discriminate.
      * intros v Hv. destruct c; injection Hv as <-; discriminate.
      * destruct b; discriminate.
      * destruct c; discriminate.
      * intros l r Hl Hr. destruct b, c; injection Hl as <-; injection Hr as <-; reflexivity.
    + cbn. repeat split; try discriminate.
Qed.

Lemma feet_fields_have_required_side_witness :
  exists p zr s l r,
    parsePermitComments doc_sample false = Ok p /\
    PermitComments.zoning_review p = Some zr /\
    ZoningReview.setbacks zr = Some s /\
    Setbacks.side_left s = Some l /\ Setbacks.side_right s = Some r /\
    DimensionalValue.maximum l = DimensionalValue.maximum r /\
    has_required (ZoningReview.height zr) /\
    has_required (Setbacks.front s).
Proof.
  destruct (feet_fields_have_required_side doc_sample false) as (p & Hp & H).
  computed_record Hp.
  destruct (H _ eq_refl) as (Hh & _ & s & Es & Hf & _ & _ & _ & _ & Hlr).
  cbn [ZoningReview.setbacks] in Es. injection Es as <-.
  do 5 eexists. split; [exact Hp|]. split; [reflexivity|]. split; [reflexivity|].
  split; [reflexivity|]. split; [reflexivity|].
  split; [apply Hlr; reflexivity|]. split; [exact Hh | exact Hf].
Defined.

Module FeetReading.

Local Abbreviation re_sp := (Rep 0 None true (Cls false [CSpace])).
Local Abbreviation re_apos := (Rep 0 (Some 1) true (Cls false [CChar 39%N; CChar 39%N])).
Local Abbreviation re_quote := (Rep 0 (Some 1) true (Cls false [CChar 34%N; CChar 34%N])).

Lemma re_feet_terms :
  re_feet = Seq (Grp 1 dec_pat) (Seq re_sp (Seq re_apos (Seq re_sp
              (Seq (Rep 0 (Some 1) true (Grp 2 dec_pat)) (Seq re_sp re_quote))))).
Proof. reflexivity. Qed.

Lemma stops_is_space t : stops is_space t -> stops (cls_match no_flags false [CSpace]) t.
Proof. destruct t as [|c t]; [trivial|]. unfold stops. rewrite cls_space. trivial. Qed.

Lemma takes_opt_cls neg items c t x :
  ms_rest x = c :: t -> cls_match no_flags neg items c = true ->
  takes no_flags (Rep 0 (Some 1) true (Cls neg items)) x (after [c] x t).
Proof.
  intros E Hc. apply takes_opt.
  - cbn [groups]. rewrite clear_caps_nil.
    replace (with_caps x (ms_caps x)) with x by (destruct x; reflexivity).
    apply takes_cls; assumption.
  - rewrite after_rest, E. simpl. lia.
Qed.

(** The end of the pattern, optional white space and an optional double
    quote, matches whatever follows and leaves the groups alone. *)
Lemma takes_feet_tail x :
  exists z, takes no_flags (Seq re_sp re_quote) x z /\ ms_caps z = ms_caps x.
Proof.
  destruct (space_run (ms_rest x)) as (sp & r2 & E & Fsp & St).
  assert (T1 : takes no_flags re_sp x (after sp x r2)).
  { apply takes_run; [exact E | apply spaces_cls; exact Fsp | lia | apply stops_is_space; exact St]. }
  destruct r2 as [|c r3].
  - eexists. split.
    + eapply takes_seq; [exact T1|]. apply takes_opt_skip. apply fails_cls. exact I.
    + reflexivity.
  - destruct (N.eqb_spec c 34) as [->|Hc].
    + eexists. split.
      * eapply takes_seq; [exact T1|].
        apply takes_opt_cls with (c := 34%N) (t := r3); reflexivity.
      * reflexivity.
    + eexists. split.
      * eapply takes_seq; [exact T1|]. apply takes_opt_skip. apply fails_cls.
        cbn [with_caps ms_rest after]. unfold stops, cls_match, citem_match.
        cbn [existsb citem_has f_icase no_flags andb xorb orb]. unfold char_eqb.
        rewrite !orb_false_r, orb_diag. apply N.eqb_neq. congruence.
      * reflexivity.
Qed.

(** Between feet and inches. *)
Lemma takes_feet_separator x sep t :
  feet_gap sep -> ms_rest x = sep ++ t ->
  stops is_space t -> stops (fun c => N.eqb c 39) t ->
  takes no_flags (Seq re_sp (Seq re_apos re_sp)) x (after sep x t).
Proof.
  intros (ws1 & ws2 & S1 & S2 & Hsep) E St Sq.
  assert (Ap : forall u, stops (fun c => N.eqb c 39) u ->
                 stops (cls_match no_flags false [CChar 39%N; CChar 39%N]) u).
  { intros [|c u]; [trivial|]. unfold stops, cls_match, citem_match.
    cbn [existsb citem_has f_icase no_flags andb xorb orb]. unfold char_eqb.
    rewrite !orb_false_r, orb_diag. rewrite N.eqb_sym. trivial. }
  destruct Hsep as [-> | (-> & ->)].
  - rewrite <- app_assoc in E. cbn [app] in E.
    replace (after (ws1 ++ 39%N :: ws2) x t)
      with (after ws2 (after [39%N] (after ws1 x (39%N :: ws2 ++ t)) (ws2 ++ t)) t)
      by (rewrite !after_app; reflexivity).
    eapply takes_seq.
    { apply takes_run; [exact E | apply spaces_cls; exact S1 | lia | reflexivity]. }
    eapply takes_seq.
    { apply takes_opt_cls with (c := 39%N) (t := ws2 ++ t); reflexivity. }
    apply takes_run; [reflexivity | apply spaces_cls; exact S2 | lia | apply stops_is_space; exact St].
  - eapply takes_seq.
    { apply takes_run; [exact E | apply spaces_cls; exact S1 | lia | apply stops_is_space; exact St]. }
    eapply takes_seq.
    { apply takes_opt_skip. apply fails_cls. cbn [with_caps ms_rest after].
      apply Ap. exact Sq. }
    replace (after ws1 x t) with (after [] (after ws1 x t) t) at 2
      by (rewrite after_app, app_nil_r; reflexivity).
    apply takes_run; [reflexivity | constructor | simpl; lia | apply stops_is_space; exact St].
Qed.

Lemma separator_head sep t :
  feet_separator sep -> stops number_char (sep ++ t).
Proof.
  intros [(ws1 & ws2 & S1 & S2 & Hsep) Hne].
  assert (Sp : forall c, is_space c = true -> number_char c = false).
  { intros c Hc. unfold number_char.
    destruct (is_digit c) eqn:D; [apply digit_not_space in D; congruence|].
    destruct (N.eqb_spec c 46) as [->|]; [discriminate Hc | reflexivity]. }
  destruct Hsep as [-> | (-> & ->)].
  - destruct S1 as [|c ws1 Hc _]; [reflexivity|]. simpl. apply Sp. exact Hc.
  - destruct S1 as [|c ws1 Hc _]; [congruence|]. simpl. apply Sp. exact Hc.
Qed.

Lemma decimal_starts F t : decimal F ->
  stops is_space (F ++ t) /\ stops (fun c => N.eqb c 39) (F ++ t).
Proof.
  intros H. destruct (decimal_head _ H) as (c & u & -> & Hc). simpl. split.
  - apply digit_not_space. exact Hc.
  - unfold is_digit, in_range in Hc. apply andb_true_iff in Hc. destruct Hc as [A B].
    apply N.leb_le in A, B. apply N.eqb_neq. lia.
Qed.

(** The pattern does not match where the text does not start with a
    digit. *)
Lemma re_feet_fails p rest :
  stops is_digit rest -> m no_flags re_feet (MState p rest []) (fun y => Some y) = None.
Proof.
  intros H. rewrite re_feet_terms. apply fails_seq, fails_grp. unfold dec_pat.
  apply fails_seq. apply fails_rep_min; [lia | reflexivity |]. apply fails_cls.
  cbn [with_caps ms_rest]. destruct rest as [|c t]; [exact I|].
  unfold stops in *. rewrite cls_digit. exact H.
Qed.

Lemma search_skips r : forall pre suf prev idx,
  (forall p t c, In c pre -> m no_flags r (MState p (c :: t) []) (fun y => Some y) = None) ->
  search no_flags r prev (pre ++ suf) idx =
  search no_flags r (fold_left (fun _ c => Some c) pre prev) suf (idx + List.length pre).
Proof.
  induction pre as [|c pre IH]; intros suf prev idx H.
  - simpl. rewrite Nat.add_0_r. reflexivity.
  - cbn [app search]. rewrite H by (left; reflexivity).
    rewrite IH by (intros p t c0 Hin; apply H; right; exact Hin).
    cbn [fold_left List.length]. f_equal. lia.
Qed.

(** Feet and inches are read from the first number of the text and the
    number after the separator; what stands before and after is passed
    over. *)
Lemma re_feet_reads pre F sep In_ rest :
  Forall (fun c => is_digit c = false) pre ->
  decimal F -> feet_separator sep -> decimal In_ -> stops number_char rest ->
  exists mr,
    js_match no_flags re_feet (pre ++ F ++ sep ++ In_ ++ rest) = Some mr /\
    group 1 mr = Some F /\ group 2 mr = Some In_.
Proof.
  intros Hpre HF Hsep HI Hrest.
  unfold js_match. rewrite search_skips.
  2:{ intros p t c Hin. apply re_feet_fails. rewrite Forall_forall in Hpre.
      simpl. apply Hpre. exact Hin. }
  set (p0 := fold_left (fun _ c => Some c) pre None).
  set (x0 := MState p0 (F ++ sep ++ In_ ++ rest) []).
  destruct (decimal_starts In_ rest HI) as [St Sq].
  pose (x1 := with_caps (after F x0 (sep ++ In_ ++ rest)) (set_cap 1 F [])).
  pose (x2 := after sep x1 (In_ ++ rest)).
  pose (x2' := with_caps x2 (clear_caps (groups (Grp 2 dec_pat)) (ms_caps x2))).
  pose (x3 := with_caps (after In_ x2' rest)
                (set_cap 2 In_ (ms_caps (after In_ x2' rest)))).
  destruct (takes_feet_tail x3) as (z & Tz & Cz).
  assert (T : takes no_flags re_feet x0 z).
  { rewrite re_feet_terms.
    eapply takes_seq.
    { apply takes_grp_text with (s := F).
      - apply takes_decimal with (t := sep ++ In_ ++ rest);
          [exact HF | reflexivity | apply separator_head; assumption].
      - reflexivity. }
    change (takes no_flags
              (Seq re_sp (Seq re_apos (Seq re_sp
                 (Seq (Rep 0 (Some 1) true (Grp 2 dec_pat)) (Seq re_sp re_quote))))) x1 z).
    assert (T2 : takes no_flags (Seq re_sp (Seq re_apos re_sp)) x1 x2)
      by (apply takes_feet_separator; [apply Hsep | reflexivity | exact St | exact Sq]).
    assert (T3 : takes no_flags (Rep 0 (Some 1) true (Grp 2 dec_pat)) x2 x3).
    { apply takes_opt.
      - apply (takes_grp_text no_flags 2 dec_pat x2' (after In_ x2' rest) In_).
        + apply takes_decimal with (t := rest); [exact HI | reflexivity | exact Hrest].
        + reflexivity.
      - cbn [x3 x2 with_caps after ms_rest]. rewrite length_app.
        destruct (decimal_head _ HI) as (c & u & -> & _). simpl. lia. }
    intros k w Hk. cbn [m]. apply T2. cbn [m]. apply T3. apply Tz. exact Hk. }
  specialize (T (fun y => Some y) z eq_refl).
  apply search_first with (idx := 0 + List.length pre) in T.
  eexists. split; [exact T|]. unfold group. cbn [mr_caps]. rewrite Cz.
  split; reflexivity.
Qed.

(** Feet alone: no number follows the gap. *)
Lemma re_feet_reads_feet pre F gap r :
  Forall (fun c => is_digit c = false) pre ->
  decimal F -> feet_gap gap ->
  stops number_char r -> stops is_space r -> stops (fun c => N.eqb c 39) r ->
  exists mr,
    js_match no_flags re_feet (pre ++ F ++ gap ++ r) = Some mr /\
    group 1 mr = Some F /\ group 2 mr = None.
Proof.
  intros Hpre HF Hgap Hr St Sq.
  unfold js_match. rewrite search_skips.
  2:{ intros p t c Hin. apply re_feet_fails. rewrite Forall_forall in Hpre.
      simpl. apply Hpre. exact Hin. }
  set (p0 := fold_left (fun _ c => Some c) pre None).
  set (x0 := MState p0 (F ++ gap ++ r) []).
  pose (x1 := with_caps (after F x0 (gap ++ r)) (set_cap 1 F [])).
  pose (x2 := after gap x1 r).
  destruct (takes_feet_tail x2) as (z & Tz & Cz).
  assert (Hg : stops number_char (gap ++ r)).
  { destruct gap as [|c gap]; [exact Hr|].
    apply (separator_head (c :: gap) r). split; [exact Hgap | discriminate]. }
  assert (T : takes no_flags re_feet x0 z).
  { rewrite re_feet_terms.
    eapply takes_seq.
    { apply takes_grp_text with (s := F).
      - apply takes_decimal with (t := gap ++ r); [exact HF | reflexivity | exact Hg].
      - reflexivity. }
    change (takes no_flags
              (Seq re_sp (Seq re_apos (Seq re_sp
                 (Seq (Rep 0 (Some 1) true (Grp 2 dec_pat)) (Seq re_sp re_quote))))) x1 z).
    assert (T2 : takes no_flags (Seq re_sp (Seq re_apos re_sp)) x1 x2)
      by (apply takes_feet_separator; [exact Hgap | reflexivity | exact St | exact Sq]).
    assert (T3 : takes no_flags (Rep 0 (Some 1) true (Grp 2 dec_pat)) x2 x2).
    { apply takes_opt_skip. apply fails_grp. unfold dec_pat. apply fails_seq.
      apply fails_rep_min; [lia | reflexivity |]. apply fails_cls.
      cbn [with_caps ms_rest x2 after]. apply stops_digit. exact Hr. }
    intros k w Hk. cbn [m]. apply T2. cbn [m]. apply T3. apply Tz. exact Hk. }
  specialize (T (fun y => Some y) z eq_refl).
  apply search_first with (idx := 0 + List.length pre) in T.
  eexists. split; [exact T|]. unfold group. cbn [mr_caps]. rewrite Cz.
  split; reflexivity.
Qed.

End FeetReading.
Import FeetReading.

(** X11. [parseFeet] reads the first number of the text.  After a
    prefix without digits, a number [F], a separator (white space with
    at most one apostrophe), a number [I] and anything that does not
    go on the number give what the computation of the source makes of
    [F] and [I], round ((F + I / 12) * 100) / 100 in the numbers of
    the language; the number [F] alone, with nothing but such a gap
    after it, gives what it makes of [F]. For whole feet below 1000
    and whole inches below 12 the result is the number nearest to the
    hundredth nearest to [F + I / 12], and for feet below 100 written
    with one or two digits after the point it is the number nearest
    to the decimal. *)
Theorem parseFeet_reads_first_measure :
  (forall pre F sep In_ rest,
     Forall (fun c => is_digit c = false) pre ->
     decimal F -> feet_separator sep -> decimal In_ -> stops number_char rest ->
     parseFeet (Some (pre ++ F ++ sep ++ In_ ++ rest)) =
     Some (two_decimals
             (PrimFloat.add (parseFloat F) (PrimFloat.div (parseFloat In_) 12)))) /\
  (forall pre F gap rest,
     Forall (fun c => is_digit c = false) pre ->
     decimal F -> feet_gap gap ->
     stops number_char rest -> stops is_space rest -> stops (fun c => N.eqb c 39) rest ->
     parseFeet (Some (pre ++ F ++ gap ++ rest)) = Some (two_decimals (parseFloat F))) /\
  (forall pre F sep In_ rest,
     Forall (fun c => is_digit c = false) pre ->
     digits F -> F <> [] -> feet_separator sep -> digits In_ -> In_ <> [] ->
     stops number_char rest ->
     (digits_value F < 1000)%Z -> (digits_value In_ < 12)%Z ->
     parseFeet (Some (pre ++ F ++ sep ++ In_ ++ rest)) =
     Some (of_hundredths (hundredths (digits_value F) (digits_value In_)))) /\
  (forall pre F gap rest,
     Forall (fun c => is_digit c = false) pre ->
     digits F -> F <> [] -> feet_gap gap ->
     stops number_char rest -> stops is_space rest -> stops (fun c => N.eqb c 39) rest ->
     (digits_value F < 1000)%Z ->
     parseFeet (Some (pre ++ F ++ gap ++ rest)) =
     Some (of_hundredths (hundredths (digits_value F) 0))) /\
  (forall pre ip fd gap rest,
     Forall (fun c => is_digit c = false) pre ->
     digits ip -> ip <> [] -> digits fd -> 1 <= List.length fd <= 2 ->
     feet_gap gap ->
     stops number_char rest -> stops is_space rest -> stops (fun c => N.eqb c 39) rest ->
     (digits_value ip < 100)%Z ->
     parseFeet (Some (pre ++ (ip ++ 46%N :: fd) ++ gap ++ rest)) =
     Some (of_hundredths (nearest_hundredth (digits_value (ip ++ fd)) (List.length fd)))).
Proof.
  assert (P1 : forall pre F sep In_ rest,
     Forall (fun c => is_digit c = false) pre ->
     decimal F -> feet_separator sep -> decimal In_ -> stops number_char rest ->
     parseFeet (Some (pre ++ F ++ sep ++ In_ ++ rest)) =
     Some (two_decimals
             (PrimFloat.add (parseFloat F) (PrimFloat.div (parseFloat In_) 12)))).
  { intros pre F sep In_ rest Hpre HF Hsep HI Hrest.
    destruct (re_feet_reads _ _ _ _ _ Hpre HF Hsep HI Hrest) as (mr & Hm & G1 & G2).
    destruct (decimal_head _ HF) as (c & t & E & _).
    destruct (decimal_head _ HI) as (ci & ti & Ei & _).
    unfold parseFeet. destruct (pre ++ F ++ sep ++ In_ ++ rest) eqn:Ep.
    { destruct pre; [|discriminate]. rewrite E in Ep. discriminate. }
    rewrite Hm, G1, G2. destruct In_; [discriminate Ei | reflexivity]. }
  assert (P2 : forall pre F gap rest,
     Forall (fun c => is_digit c = false) pre ->
     decimal F -> feet_gap gap ->
     stops number_char rest -> stops is_space rest -> stops (fun c => N.eqb c 39) rest ->
     parseFeet (Some (pre ++ F ++ gap ++ rest)) = Some (two_decimals (parseFloat F))).
  { intros pre F gap rest Hpre HF Hgap Hr St Sq.
    destruct (re_feet_reads_feet _ _ _ _ Hpre HF Hgap Hr St Sq) as (mr & Hm & G1 & G2).
    destruct (decimal_head _ HF) as (c & t & E & _).
    unfold parseFeet. destruct (pre ++ F ++ gap ++ rest) eqn:Ep.
    { destruct pre; [|discriminate]. rewrite E in Ep. discriminate. }
    rewrite Hm, G1, G2. reflexivity. }
  split; [exact P1|]. split; [exact P2|]. split; [|split].
  - intros pre F sep In_ rest Hpre HF NF Hsep HI NI Hrest BF BI.
    rewrite P1 by (try apply digits_decimal; assumption).
    pose proof (exact_below_at 1000 12 _ _ exact_table
                  (conj (digits_value_nonneg F) BF) (conj (digits_value_nonneg In_) BI)) as E.
    unfold exact_at in E. apply andb_true_iff in E. destruct E as [_ E2].
    apply Leibniz.eqb_spec in E2.
    rewrite !parseFloat_digits by assumption. rewrite E2. reflexivity.
  - intros pre F gap rest Hpre HF NF Hgap Hr St Sq BF.
    rewrite P2 by (try apply digits_decimal; assumption).
    pose proof (exact_below_at 1000 12 _ 0%Z exact_table
                  (conj (digits_value_nonneg F) BF) ltac:(lia)) as E.
    unfold exact_at in E. apply andb_true_iff in E. destruct E as [E1 _].
    apply Leibniz.eqb_spec in E1.
    rewrite parseFloat_digits by assumption. rewrite E1. reflexivity.
  - intros pre ip fd gap rest Hpre Hi Ni Hf Bf Hgap Hr St Sq Bi.
    assert (Nf : fd <> []) by (destruct fd; [simpl in Bf; lia | discriminate]).
    rewrite P2 by (try apply fraction_decimal; assumption).
    rewrite two_decimals_short by assumption. reflexivity.
Qed.

(** An underscore before, a half sign and a double quote after:
    8 feet 3 and a half inches is read as 8 feet 3 inches. *)
Lemma parseFeet_reads_first_measure_witness :
  parseFeet (Some (str "_8' 3" ++ [189%N; DQ])) = Some 8.25%float /\
  hundredths 8 3 = 825%Z /\
  parseFeet (Some (str "17.79'")) = Some 17.79%float /\
  nearest_hundredth 1779 2 = 1779%Z.
Proof.
  destruct parseFeet_reads_first_measure as (_ & _ & H3 & _ & H5).
  split; [|split; [reflexivity|split; [|reflexivity]]].
  - refine (eq_trans (H3 (str "_") (str "8") (str "' ") (str "3") [189%N; DQ]
                         _ _ _ _ _ _ _ _ _) _).
    + repeat constructor.
    + repeat constructor.
    + discriminate.
    + split; [|discriminate]. exists [], (str " ").
      split; [constructor|]. split; [repeat constructor|]. left. reflexivity.
    + repeat constructor.
    + discriminate.
    + reflexivity.
    + vm_compute. reflexivity.
    + vm_compute. reflexivity.
    + vm_compute. reflexivity.
  - refine (eq_trans (H5 [] (str "17") (str "79") (str "'") [] _ _ _ _ _ _ _ _ _ _) _).
    + constructor.
    + repeat constructor.
    + discriminate.
    + repeat constructor.
    + simpl. lia.
    + exists [], []. split; [constructor|]. split; [constructor|]. left. reflexivity.
    + exact I.
    + exact I.
    + exact I.
    + vm_compute. reflexivity.
    + vm_compute. reflexivity.
Defined.

Module ReplaceFacts.

(** A global replacement of a one-character pattern. *)
Lemma replace_one_char fl r (P : char -> bool) by_ :
  (forall x k, m fl r x k =
     match ms_rest x with
     | [] => None
     | c :: rest => if P c then k (advance c rest x) else None
     end) ->
  forall s prev,
    replace_from fl r by_ prev s 0 = flat_map (fun c => if P c then by_ else [c]) s.
Proof.
  intros Hm. induction s as [|c s IH]; intros prev.
  - cbn [replace_from]. rewrite Hm. reflexivity.
  - cbn [replace_from flat_map]. rewrite Hm. cbn [ms_rest].
    destruct (P c).
    + rewrite (consumed_app _ _ [c]) by reflexivity. cbn [List.length]. rewrite IH. reflexivity.
    + rewrite IH. reflexivity.
Qed.

Lemma flat_map_filter (P : char -> bool) s :
  flat_map (fun c => if P c then [] else [c]) s = filter (fun c => negb (P c)) s.
Proof.
  induction s as [|c s IH]; simpl; [reflexivity|]. destruct (P c); simpl; rewrite IH; reflexivity.
Qed.

Lemma strip_separators t :
  replace_all no_flags re_comma_percent [] t = filter (fun c => negb (is_separator c)) t.
Proof.
  unfold replace_all. rewrite (replace_one_char _ _ is_separator).
  - apply flat_map_filter.
  - intros x k. cbn [m re_comma_percent]. destruct (ms_rest x) as [|c rest]; [reflexivity|].
    replace (cls_match no_flags false [CChar 44; CChar 37] c) with (is_separator c);
      [reflexivity|].
    unfold cls_match, citem_match, is_separator.
    cbn [existsb citem_has f_icase no_flags andb xorb orb]. unfold char_eqb.
    rewrite !orb_false_r. rewrite (N.eqb_sym c 44), (N.eqb_sym c 37). reflexivity.
Qed.

End ReplaceFacts.
Import ReplaceFacts.

(** X12. [parseNumber] does not see commas and percent signs, wherever
    they stand: a digit group separator is dropped, and so is a comma
    inside a number ([7,5,0%] reads as 750); a text left without a
    number gives null. *)
Theorem parseNumber_ignores_separators :
  (forall t, parseNumber (Some t) =
             parseNumber (Some (filter (fun c => negb (is_separator c)) t))) /\
  parseNumber (Some (str "1,604")) = Some 1604%float /\
  parseNumber (Some (str " 7,5,0% ")) = Some 750%float /\
  parseNumber (Some (str ",")) = None.
Proof.
  split; [|repeat split; vm_compute; reflexivity].
  intros t. unfold parseNumber. destruct t as [|c t]; [reflexivity|].
  rewrite strip_separators.
  destruct (filter (fun c0 => negb (is_separator c0)) (c :: t)) as [|c2 u] eqn:E.
  - vm_compute. reflexivity.
  - rewrite strip_separators, <- E.
    assert (Idem : forall l, filter (fun c0 => negb (is_separator c0))
                               (filter (fun c0 => negb (is_separator c0)) l) =
                             filter (fun c0 => negb (is_separator c0)) l).
    { induction l as [|a l IH]; simpl; [reflexivity|].
      destruct (negb (is_separator a)) eqn:Ea; simpl; [rewrite Ea, IH|]; auto. }
    rewrite Idem. reflexivity.
Qed.

Module CsvFacts.

Lemma includes_char c s : includes [c] s = existsb (N.eqb c) s.
Proof.
  induction s as [|a s IH]; [reflexivity|].
  cbn [includes starts_with existsb]. unfold char_eqb. rewrite andb_true_r, IH. reflexivity.
Qed.

Lemma existsb_special s :
  includes (str ",") s || includes [DQ] s || includes [NL] s = existsb is_special s.
Proof.
  change (str ",") with [44%N]. unfold DQ, NL. rewrite !includes_char.
  induction s as [|a s IH]; [reflexivity|]. cbn [existsb]. rewrite <- IH.
  unfold is_special. rewrite (N.eqb_sym a 44), (N.eqb_sym a 34), (N.eqb_sym a 10).
  destruct (N.eqb 44 a), (N.eqb 34 a), (N.eqb 10 a), (existsb (N.eqb 44) s),
    (existsb (N.eqb 34) s), (existsb (N.eqb 10) s); reflexivity.
Qed.

Lemma double_quotes s :
  replace_all no_flags re_dquote [DQ; DQ] s =
  flat_map (fun c => if N.eqb c 34 then [DQ; DQ] else [c]) s.
Proof.
  unfold replace_all. apply replace_one_char.
  intros x k. cbn [m re_dquote]. destruct (ms_rest x) as [|c rest]; [reflexivity|].
  unfold chr_match, canon, char_eqb. cbn [f_icase no_flags]. rewrite (N.eqb_sym 34 c).
  reflexivity.
Qed.

(** [escapeCSV] quotes the text of the cell. *)
Lemma escapeCSV_quote nts c : escapeCSV nts c = quote_field (cell_to_string nts c).
Proof.
  unfold escapeCSV, quote_field. destruct c; try reflexivity;
    cbv zeta; rewrite existsb_special, double_quotes; reflexivity.
Qed.

Lemma plain_run : forall s field row rest,
  existsb is_special s = false -> field_end rest ->
  read_csv InPlain field row (s ++ rest) = finish (rev (rev s ++ field) :: row) rest.
Proof.
  induction s as [|c s IH]; intros field row rest Hs Hr.
  - cbn [app rev]. destruct rest as [|c t]; [reflexivity|].
    cbn [read_csv finish]. destruct Hr as [-> | ->]; reflexivity.
  - cbn [existsb] in Hs. apply orb_false_iff in Hs. destruct Hs as [Hc Hs].
    unfold is_special in Hc. apply orb_false_iff in Hc. destruct Hc as [Hc H10].
    apply orb_false_iff in Hc. destruct Hc as [H44 H34].
    cbn [app read_csv]. rewrite H44, H10. rewrite IH by assumption.
    cbn [rev]. rewrite <- app_assoc. reflexivity.
Qed.

Lemma quoted_run : forall s field row rest,
  field_end rest ->
  read_csv InQuoted field row
    (flat_map (fun c => if N.eqb c 34 then [DQ; DQ] else [c]) s ++ DQ :: rest) =
  finish (rev (rev s ++ field) :: row) rest.
Proof.
  induction s as [|c s IH]; intros field row rest Hr.
  - cbn [flat_map app rev read_csv]. unfold DQ. cbn [N.eqb Pos.eqb].
    destruct rest as [|c t]; [reflexivity|].
    cbn [read_csv finish]. destruct Hr as [-> | ->]; reflexivity.
  - cbn [flat_map]. destruct (N.eqb c 34) eqn:E.
    + apply N.eqb_eq in E. subst c. unfold DQ at 1 2. cbn [app read_csv N.eqb Pos.eqb].
      rewrite IH by assumption. cbn [rev]. rewrite <- app_assoc. reflexivity.
    + cbn [app read_csv]. rewrite E. rewrite IH by assumption.
      cbn [rev]. rewrite <- app_assoc. reflexivity.
Qed.

(** One field read back. *)
Lemma read_field s row rest :
  field_end rest ->
  read_csv AtStart [] row (quote_field s ++ rest) = finish (s :: row) rest.
Proof.
  intros Hr. unfold quote_field. destruct (existsb is_special s) eqn:E.
  - unfold DQ at 1. cbn [app read_csv N.eqb Pos.eqb].
    rewrite <- app_assoc. cbn [app]. rewrite quoted_run by exact Hr.
    rewrite app_nil_r, rev_involutive. reflexivity.
  - destruct s as [|c s].
    + cbn [app]. destruct rest as [|c t]; [reflexivity|].
      cbn [read_csv finish]. destruct Hr as [-> | ->]; reflexivity.
    + cbn [existsb] in E. apply orb_false_iff in E. destruct E as [Hc Hs].
      unfold is_special in Hc. apply orb_false_iff in Hc. destruct Hc as [Hc H10].
      apply orb_false_iff in Hc. destruct Hc as [H44 H34].
      cbn [app read_csv]. rewrite H34, H44, H10. rewrite plain_run by assumption.
      rewrite rev_app_distr, rev_involutive. reflexivity.
Qed.

(** One record read back. *)
Lemma read_record : forall fields row rest,
  fields <> [] -> (rest = [] \/ exists t, rest = 10%N :: t) ->
  read_csv AtStart [] row (join (str ",") (List.map quote_field fields) ++ rest) =
  finish (rev fields ++ row) rest.
Proof.
  induction fields as [|a fields IH]; intros row rest Hne Hr; [congruence|].
  assert (Fe : field_end rest) by (destruct Hr as [->|(t & ->)]; simpl; auto).
  destruct fields as [|b fields].
  - cbn [List.map join rev app]. apply read_field. exact Fe.
  - change (join (str ",") (List.map quote_field (a :: b :: fields)))
      with (quote_field a ++ 44%N :: join (str ",") (List.map quote_field (b :: fields))).
    rewrite <- app_assoc. cbn [app]. rewrite read_field by (simpl; auto).
    cbn [finish N.eqb Pos.eqb]. rewrite IH by (try discriminate; exact Hr).
    cbn [rev]. rewrite <- !app_assoc. reflexivity.
Qed.

(** A file of records read back. *)
Lemma read_records : forall records,
  records <> [] -> Forall (fun r => r <> []) records ->
  parse_csv (join [NL] (List.map (fun r => join (str ",") (List.map quote_field r)) records))
  = records.
Proof.
  unfold parse_csv. induction records as [|r records IH]; intros Hne F; [congruence|].
  inversion F as [|? ? Hr F']; subst.
  destruct records as [|r2 records].
  - cbn [List.map join]. rewrite <- (app_nil_r (join _ _)).
    rewrite read_record; [|exact Hr|left; reflexivity].
    cbn [finish]. rewrite app_nil_r, rev_involutive. reflexivity.
  - change (join [NL] (List.map (fun r0 => join (str ",") (List.map quote_field r0))
                         (r :: r2 :: records)))
      with (join (str ",") (List.map quote_field r) ++
            10%N :: join [NL] (List.map (fun r0 => join (str ",") (List.map quote_field r0))
                                 (r2 :: records))).
    rewrite read_record; [|exact Hr|right; eauto].
    cbn [finish N.eqb Pos.eqb]. rewrite IH by (try discriminate; exact F').
    rewrite app_nil_r, rev_involutive. reflexivity.
Qed.

Lemma headers_plain : Forall (fun h => quote_field (str h) = str h) headers.
Proof. repeat constructor. Qed.

End CsvFacts.
Import CsvFacts.

Module CsvLineFacts.

(** On a text without carriage returns the two readers agree. *)
Lemma read_lines_no_cr : forall s mode field row,
  no_cr s -> read_lines mode false field row s = read_csv mode field row s.
Proof.
  unfold no_cr. induction s as [|c s IH]; intros mode field row H; [destruct mode; reflexivity|].
  assert (Hc : N.eqb c 13 = false)
    by (apply N.eqb_neq; intros ->; apply H; left; reflexivity).
  assert (Hs : ~ In 13%N s) by (intros Hin; apply H; right; exact Hin).
  destruct mode; cbn [read_lines read_csv]; rewrite ?Hc;
    repeat match goal with
           | |- context [N.eqb c ?k] => destruct (N.eqb c k)
           end;
    rewrite ?IH by exact Hs; reflexivity.
Qed.

Lemma in_join c sep : forall l,
  In c (join sep l) -> In c sep \/ exists x, In x l /\ In c x.
Proof.
  induction l as [|a l IH]; cbn [join]; intros H; [destruct H|].
  destruct l as [|b l].
  - right. exists a. split; [left; reflexivity | exact H].
  - apply in_app_or in H. destruct H as [H|H].
    + right. exists a. split; [left; reflexivity | exact H].
    + apply in_app_or in H. destruct H as [H|H]; [left; exact H|].
      destruct (IH H) as [H'|(x & Hx & Hc)]; [left; exact H'|].
      right. exists x. split; [right; exact Hx | exact Hc].
Qed.

Lemma in_quote_field c s : In c (quote_field s) -> c = 34%N \/ In c s.
Proof.
  unfold quote_field. destruct (existsb is_special s); [|auto].
  intros H. apply in_app_or in H. destruct H as [H|H].
  - destruct H as [<-|[]]. left. reflexivity.
  - apply in_app_or in H. destruct H as [H|H].
    + apply in_flat_map in H. destruct H as (x & Hx & Hc).
      destruct (N.eqb x 34).
      * left. destruct Hc as [<-|[<-|[]]]; reflexivity.
      * destruct Hc as [<-|[]]. right. exact Hx.
    + destruct H as [<-|[]]. left. reflexivity.
Qed.

Lemma headers_no_cr : Forall (fun h => no_cr (str h)) headers.
Proof.
  apply Forall_forall. intros h Hh Hin.
  assert (E : existsb (fun h => existsb (N.eqb 13) (str h)) headers = false)
    by (vm_compute; reflexivity).
  assert (T : existsb (fun h => existsb (N.eqb 13) (str h)) headers = true).
  { apply existsb_exists. exists h. split; [exact Hh|].
    apply existsb_exists. exists 13%N. split; [exact Hin | reflexivity]. }
  congruence.
Qed.

(** Without a carriage return in a cell there is none in the output. *)
Lemma toCSV_no_cr nts permits :
  Forall (fun p => Forall (fun c => no_cr (cell_to_string nts c)) (csvRow p)) permits ->
  no_cr (toCSV nts permits).
Proof.
  intros F Hin. unfold toCSV in Hin. cbv zeta in Hin.
  apply in_join in Hin. destruct Hin as [[E|[]]|(line & Hl & Hc)]; [discriminate E|].
  destruct Hl as [<-|Hl].
  - apply in_join in Hc. destruct Hc as [[E|[]]|(h & Hh & Hc)]; [discriminate E|].
    apply in_map_iff in Hh. destruct Hh as (h0 & <- & Hh).
    pose proof headers_no_cr as N. rewrite Forall_forall in N. apply (N h0 Hh Hc).
  - apply in_map_iff in Hl. destruct Hl as (row & <- & Hr).
    apply in_map_iff in Hr. destruct Hr as (p & <- & Hp).
    apply in_join in Hc. destruct Hc as [[E|[]]|(f & Hf & Hc)]; [discriminate E|].
    apply in_map_iff in Hf. destruct Hf as (c & <- & Hcell).
    rewrite escapeCSV_quote in Hc. apply in_quote_field in Hc.
    destruct Hc as [E|Hc]; [discriminate E|].
    rewrite Forall_forall in F. specialize (F p Hp). rewrite Forall_forall in F.
    apply (F c Hcell Hc).
Qed.

Lemma toCSV_records nts permits :
  parse_csv (toCSV nts permits) =
  List.map str headers ::
  List.map (fun p => List.map (cell_to_string nts) (csvRow p)) permits.
Proof.
  assert (E : toCSV nts permits =
    join [NL] (List.map (fun r => join (str ",") (List.map quote_field r))
      (List.map str headers ::
       List.map (fun p => List.map (cell_to_string nts) (csvRow p)) permits))).
  { unfold toCSV. cbn [List.map].
    assert (Eh : List.map quote_field (List.map str headers) = List.map str headers).
    { rewrite map_map. apply map_ext_Forall. exact headers_plain. }
    assert (Er : List.map (fun r => join (str ",") r)
                   (List.map (fun p => List.map (escapeCSV nts) (csvRow p)) permits) =
                 List.map (fun r => join (str ",") (List.map quote_field r))
                   (List.map (fun p => List.map (cell_to_string nts) (csvRow p)) permits)).
    { rewrite !map_map. apply map_ext. intros p. f_equal. rewrite map_map.
      apply map_ext. intros c. apply escapeCSV_quote. }
    rewrite Eh, Er. reflexivity. }
  rewrite E. apply read_records; [discriminate|].
  constructor; [discriminate|]. apply Forall_map. apply Forall_forall. intros p _.
  discriminate.
Qed.

End CsvLineFacts.
Import CsvLineFacts.

(** X13. The CSV text reads back.  A reader of comma-separated text
    (quoted fields, doubled quotes) that ends records at a line feed
    only recovers from the output of [toCSV] the header names, then for
    every permit the texts of its cells, whatever they hold, and every
    record has as many fields as there are headers.  A reader that also
    ends records at a carriage return recovers the same when no cell
    holds a carriage return; a cell that holds one is written without
    quotes, and such a reader then splits the record there. *)
Theorem toCSV_reads_back :
  forall number_to_string permits,
    let records :=
      List.map str headers ::
      List.map (fun p => List.map (cell_to_string number_to_string) (csvRow p)) permits in
    parse_csv (toCSV number_to_string permits) = records /\
    Forall (fun record => List.length record = List.length headers) records /\
    (Forall (fun p => Forall (fun c => no_cr (cell_to_string number_to_string c)) (csvRow p))
            permits ->
     parse_csv_lines (toCSV number_to_string permits) = records) /\
    escapeCSV number_to_string (CellStr [65; 13; 66]%N) = [65; 13; 66]%N.
Proof.
  intros nts permits records. split; [apply toCSV_records|]. split; [|split].
  - constructor; [apply length_map|].
    apply Forall_map. apply Forall_forall. intros p _. rewrite length_map. reflexivity.
  - intros H. unfold parse_csv_lines.
    rewrite read_lines_no_cr by (apply toCSV_no_cr; exact H).
    apply toCSV_records.
  - reflexivity.
Qed.

(** The record of a document whose applicant name holds a carriage
    return: the reader that ends records at a line feed only reads the
    name back, the other one splits the record in two. *)
Example carriage_return_in_a_cell :
  exists p,
    parsePermitComments doc_cr_name false = Ok p /\
    Party.name (PermitComments.applicant p) = Some [65; 13; 66]%N /\
    List.length (parse_csv (toCSV (fun _ => []) [p])) = 2 /\
    List.length (parse_csv_lines (toCSV (fun _ => []) [p])) = 3.
Proof.
  eexists. split; [vm_compute; reflexivity|]. split; [reflexivity|].
  split; vm_compute; reflexivity.
Qed.

Lemma toCSV_reads_back_witness :
  exists p,
    parsePermitComments doc_two_departments false = Ok p /\
    parse_csv_lines (toCSV (fun _ => []) [p]) =
    [ List.map str headers; List.map (cell_to_string (fun _ => [])) (csvRow p) ].
Proof.
  destruct (parsePermitComments_ok doc_two_departments false) as [p Hp].
  exists p. split; [exact Hp|].
  destruct (toCSV_reads_back (fun _ => []) [p]) as (_ & _ & H & _).
  apply H. constructor; [|constructor].
  pose proof Hp as E. vm_compute in E. injection E as <-.
  apply Forall_forall. intros c Hc Hin.
  assert (T : existsb (fun c => existsb (N.eqb 13) (cell_to_string (fun _ => []) c))
                (csvRow
                   ltac:(match type of Hp with _ = Ok ?r => exact r end)) = true).
  { apply existsb_exists. exists c. split; [exact Hc|].
    apply existsb_exists. exists 13%N. split; [exact Hin | reflexivity]. }
  vm_compute in T. discriminate T.
Defined.

(** ** C9 *)

Module ColumnFacts.










End ColumnFacts.
Import ColumnFacts.


Module PartyFacts.

Lemma trimStart_nil s : trimStart s = [] -> Forall (fun c => is_space c = true) s.
Proof.
  induction s as [|c s IH]; simpl; [constructor|].
  destruct (is_space c) eqn:E; [|discriminate]. intros H. constructor; auto.
Qed.

Lemma trimStart_suffix s : exists ws, s = ws ++ trimStart s /\ Forall (fun c => is_space c = true) ws.
Proof.
  induction s as [|c s (ws & E & F)]; simpl.
  - exists []. split; [reflexivity|constructor].
  - destruct (is_space c) eqn:Ec.
    + exists (c :: ws). split; [simpl; f_equal; exact E | constructor; assumption].
    + exists []. split; [reflexivity|constructor].
Qed.

Lemma trim_nil s : trim s = [] -> Forall (fun c => is_space c = true) s.
Proof.
  unfold trim, trimEnd. intros H.
  assert (H' : trimStart (rev (trimStart s)) = []).
  { destruct (trimStart (rev (trimStart s))); [reflexivity|].
    simpl in H. destruct (rev l); discriminate. }
  apply trimStart_nil in H'. apply Forall_rev in H'. rewrite rev_involutive in H'.
  destruct (trimStart_suffix s) as (ws & E & F). rewrite E.
  apply Forall_app. split; assumption.
Qed.

Lemma split_char_all (P : char -> Prop) sep : forall s,
  P sep -> Forall (Forall P) (split_char sep s) -> Forall P s.
Proof.
  induction s as [|c s IH]; intros Hsep H; [constructor|].
  simpl in H. destruct (char_eqb c sep) eqn:E.
  - unfold char_eqb in E. apply N.eqb_eq in E. subst c.
    inversion H; subst. constructor; [exact Hsep | apply IH; assumption].
  - destruct (split_char sep s) as [|l ls] eqn:Es.
    + inversion H as [|? ? Hc _]; subst. inversion Hc; subst.
      constructor; [assumption | apply IH; [exact Hsep | constructor]].
    + inversion H as [|? ? Hc Hls]; subst. inversion Hc; subst.
      constructor; [assumption|]. apply IH; [exact Hsep|]. constructor; assumption.
Qed.

(** No line with text: the party text is white space. *)
Lemma no_lines_blank t :
  filter nonempty (List.map trim (split_char NL t)) = [] ->
  Forall (fun c => is_space c = true) t.
Proof.
  intros H. apply split_char_all with (sep := NL); [reflexivity|].
  induction (split_char NL t) as [|l ls IH]; [constructor|].
  simpl in H. destruct (trim l) eqn:E; simpl in H; [|discriminate].
  constructor; [apply trim_nil; exact E | apply IH; exact H].
Qed.

Lemma digit_run_exact fl n c :
  lang fl (Rep n (Some n) true (Cls false [CDigit])) c -> digits c /\ List.length c = n.
Proof.
  intros H. apply (digit_run fl n (Some n) true c) in H. destruct H as [D W].
  unfold within in W. split; [exact D | lia].
Qed.

Lemma phone_shape c :
  lang no_flags
    (Alt (Rep 10 (Some 10) true (Cls false [CDigit]))
       (Alt (Seq (Rep 3 (Some 3) true (Cls false [CDigit]))
               (Seq (Chr 45) (Seq (Rep 3 (Some 3) true (Cls false [CDigit]))
                  (Seq (Chr 45) (Rep 4 (Some 4) true (Cls false [CDigit]))))))
            (Seq (Chr 40) (Seq (Rep 3 (Some 3) true (Cls false [CDigit]))
               (Seq (Chr 41) (Seq (Rep 0 None true (Cls false [CSpace]))
                  (Seq (Rep 3 (Some 3) true (Cls false [CDigit]))
                     (Seq (Chr 45) (Rep 4 (Some 4) true (Cls false [CDigit])))))))))) c ->
  phone_text c.
Proof.
  intros [H | [H | H]].
  - left. apply (digit_run_exact no_flags). exact H.
  - right. left.
    destruct H as (a & r1 & -> & Ha & s1 & r2 & -> & (h1 & -> & C1) &
                   b & r3 & -> & Hb & s2 & c3 & -> & (h2 & -> & C2) & Hc).
    apply chr_match_exact in C1, C2. subst.
    apply digit_run_exact in Ha, Hb, Hc. destruct Ha, Hb, Hc.
    exists a, b, c3. repeat split; assumption.
  - right. right.
    destruct H as (s0 & r0 & -> & (h0 & -> & C0) & a & r1 & -> & Ha &
                   s1 & r2 & -> & (h1 & -> & C1) & ws & r3 & -> & Hws &
                   b & r4 & -> & Hb & s2 & c3 & -> & (h2 & -> & C2) & Hc).
    apply chr_match_exact in C0, C1, C2. subst.
    apply digit_run_exact in Ha, Hb, Hc. destruct Ha, Hb, Hc.
    apply lang_rep_cls in Hws. destruct Hws as [_ Fws].
    exists a, ws, b, c3. repeat split; try assumption.
    eapply Forall_impl; [|exact Fws]. intros x Hx. cbv beta in Hx.
    rewrite cls_space in Hx. exact Hx.
Qed.

Lemma phone_head c : phone_text c -> exists h t, c = h :: t /\ is_space h = false.
Proof.
  intros [[D L] | [(a & b & c3 & -> & Da & _ & _ & La & _) | (a & ws & b & c3 & -> & _)]].
  - destruct D as [|h t Hh _]; [simpl in L; lia|]. exists h, t.
    split; [reflexivity | apply digit_not_space; exact Hh].
  - destruct Da as [|h t Hh _]; [simpl in La; lia|]. eexists h, _.
    split; [reflexivity | apply digit_not_space; exact Hh].
  - eexists 40%N, _. split; reflexivity.
Qed.

Lemma parseParty_shape text :
  named_or_empty (parseParty text) /\
  (forall ph, Party.phone (parseParty text) = Some ph -> phone_text ph).
Proof.
  unfold parseParty. destruct text as [[|c0 t0]|]; try (split; [intros _; split; reflexivity | discriminate]).
  set (t := c0 :: t0). cbn [Party.name Party.address Party.phone]. unfold named_or_empty.
  cbn [Party.name Party.address Party.phone].
  assert (Ph : forall ph, or_null (opt_group 1 (js_match no_flags re_party_phone t)) = Some ph ->
               phone_text ph /\ substring ph t).
  { intros ph H. apply or_null_some in H. destruct H as [H _].
    apply opt_group_some in H. destruct H as (mr & Em & G). split.
    - destruct (js_match_group_lang _ _ _ _ _ _ Em G) as (g & [<-|[]] & HL).
      apply phone_shape. exact HL.
    - eapply js_match_group_substring; eassumption. }
  split.
  - intros Hn.
    destruct (filter nonempty (List.map trim (split_char NL t))) as [|l ls] eqn:El.
    + split; [reflexivity|].
      destruct (or_null (opt_group 1 (js_match no_flags re_party_phone t))) as [ph|] eqn:Ep;
        [|reflexivity].
      exfalso. destruct (Ph ph eq_refl) as [Hs (p & q & Es)].
      destruct (phone_head _ Hs) as (h & u & -> & Hh).
      pose proof (no_lines_blank t El) as B. rewrite Es in B.
      apply Forall_app in B. destruct B as [_ B]. inversion B; subst. congruence.
    + exfalso. cbn [hd_error] in Hn.
      assert (In l (filter nonempty (List.map trim (split_char NL t))))
        by (rewrite El; left; reflexivity).
      apply filter_In in H. destruct H as [_ H]. destruct l; [discriminate|discriminate].
  - intros ph H. apply Ph. exact H.
Qed.

End PartyFacts.
Import PartyFacts.

(** X14. The applicant and the owner have a name or nothing at all (no
    address, no phone without a name), and a phone, when present, is
    ten digits, [ddd-ddd-dddd] or [(ddd)], white space, [ddd-dddd]. *)
Theorem parties_shape :
  forall content includeRaw,
    exists p, parsePermitComments content includeRaw = Ok p /\
      named_or_empty (PermitComments.applicant p) /\
      named_or_empty (PermitComments.owner p) /\
      (forall ph, Party.phone (PermitComments.applicant p) = Some ph -> phone_text ph) /\
      (forall ph, Party.phone (PermitComments.owner p) = Some ph -> phone_text ph).
Proof.
  intros content includeRaw.
  destruct (parsePermitComments_ok content includeRaw) as [p Hp].
  exists p. split; [exact Hp|].
  apply parsePermitComments_fields in Hp.
  destruct Hp as (h & d & _ & _ & _ & _ & _ & _ & _ & ->).
  cbn [PermitComments.applicant PermitComments.owner].
  unfold parseApplicantOwner. cbv zeta. cbn [fst snd].
  destruct (parseParty_shape (or_null (opt_group 1 (js_match flag_is re_applicant content))))
    as [A1 A2].
  destruct (parseParty_shape (or_null (opt_group 1 (js_match flag_is re_owner content))))
    as [O1 O2].
  split; [exact A1|]. split; [exact O1|]. split; [exact A2 | exact O2].
Qed.

Lemma parties_shape_witness :
  exists p, parsePermitComments doc_sample false = Ok p /\
    phone_text (str "8175551234") /\ phone_text (str "(817) 555-0000").
Proof.
  destruct (parties_shape doc_sample false) as (p & Hp & _ & _ & Ha & Ho).
  exists p. split; [exact Hp|].
  computed_record Hp. split; [apply Ha | apply Ho]; reflexivity.
Defined.

Module BatchFacts.
Section BatchFacts.
Variable readFileSync : jstring -> option jstring.

Lemma processFile_result file includeRaw :
  (readable readFileSync file = true /\
   exists p, processFile readFileSync file includeRaw = Ok (Some p) /\
             record_of readFileSync includeRaw file p) \/
  (readable readFileSync file = false /\
   processFile readFileSync file includeRaw = Ok None).
Proof.
  unfold processFile, readable, record_of.
  destruct (readFileSync file) as [content|]; [left | right; split; reflexivity].
  split; [reflexivity|].
  destruct (parsePermitComments_ok content includeRaw) as [p Hp].
  exists p. rewrite Hp. split; [reflexivity|]. exists content. split; [reflexivity|exact Hp].
Qed.

Lemma files_loop_tally includeRaw : forall files acc,
  exists t,
    files_loop readFileSync files includeRaw acc = Ok t /\
    successCount t =
      successCount acc + List.length (filter (readable readFileSync) files) /\
    errorCount t =
      errorCount acc +
      List.length (filter (fun f => negb (readable readFileSync f)) files) /\
    exists new,
      permits t = permits acc ++ new /\
      Forall2 (record_of readFileSync includeRaw)
              (filter (readable readFileSync) files) new.
Proof.
  induction files as [|f files IH]; intros acc.
  - exists acc. cbn. repeat split; try lia. exists []. rewrite app_nil_r. split; constructor.
  - cbn [files_loop filter].
    destruct (processFile_result f includeRaw) as [(R & p & Hp & Hr) | (R & Hp)];
      rewrite Hp, R; cbn [bind negb].
    + destruct (IH (Tally (permits acc ++ [p]) (S (successCount acc)) (errorCount acc)))
        as (t & Ht & Hs & He & new & Hn & F).
      exists t. cbn [successCount errorCount permits List.length] in *.
      split; [exact Ht|]. split; [lia|]. split; [lia|].
      exists (p :: new). split; [rewrite Hn, <- app_assoc; reflexivity|].
      constructor; assumption.
    + destruct (IH (Tally (permits acc) (successCount acc) (S (errorCount acc))))
        as (t & Ht & Hs & He & new & Hn & F).
      exists t. cbn [successCount errorCount permits List.length] in *.
      split; [exact Ht|]. split; [lia|]. split; [lia|].
      exists new. split; assumption.
Qed.

End BatchFacts.
End BatchFacts.
Import BatchFacts.

(** X15. The file loop of [main] ends for every list of files and
    every file system: each file counts once, as a success or as an
    error; the errors are the files that cannot be read; the records
    are those of the readable files, in the order of the files. *)
Theorem batch_tally :
  forall readFileSync files includeRaw,
    exists t,
      process_files readFileSync files includeRaw = Ok t /\
      successCount t + errorCount t = List.length files /\
      List.length (permits t) = successCount t /\
      errorCount t =
        List.length (filter (fun f => negb (readable readFileSync f)) files) /\
      Forall2 (record_of readFileSync includeRaw)
              (filter (readable readFileSync) files) (permits t).
Proof.
  intros readFileSync files includeRaw.
  destruct (files_loop_tally readFileSync includeRaw files (Tally [] 0 0))
    as (t & Ht & Hs & He & new & Hn & F).
  exists t. cbn [successCount errorCount permits app] in *.
  split; [exact Ht|].
  assert (L : List.length (filter (readable readFileSync) files) +
              List.length (filter (fun f => negb (readable readFileSync f)) files) =
              List.length files).
  { clear. induction files as [|f files IH]; [reflexivity|]. simpl.
    destruct (readable readFileSync f); simpl; lia. }
  rewrite Hn. split; [lia|]. split; [|split; [exact He | exact F]].
  apply Forall2_length in F. lia.
Qed.

Module LabelFacts.

Lemma occurs_icase fl p : forall s,
  f_icase fl = true -> occurs fl p s = occurs flag_i p s.
Proof.
  intros s Hf.
  assert (S : forall q t, starts_with_pattern fl q t = starts_with_pattern flag_i q t).
  { induction q as [|a q IH]; intros [|c t]; simpl; try reflexivity.
    rewrite IH. unfold chr_match, canon. rewrite Hf. reflexivity. }
  induction s as [|c s IH]; simpl; rewrite S; [reflexivity|]. rewrite IH. reflexivity.
Qed.

(** A pattern that starts with a label does not match a document from
    which the label is absent. *)
Lemma label_absent fl label r content :
  f_icase fl = true ->
  literal_prefix r = str label ->
  anchor_absent label content ->
  js_match fl r content = None.
Proof.
  intros Hf E H. apply js_match_none with (n := 0). cbn [drop_terms].
  rewrite E, occurs_icase by exact Hf. exact H.
Qed.

Lemma parseHeader_dates content h :
  parseHeader content = Ok h ->
  parseDate (or_null (opt_group 1 (js_match flag_i re_submitted content))) =
    Ok (Application.date_submitted (fst h)) /\
  parseDate (or_null (opt_group 1 (js_match flag_i re_issued content))) =
    Ok (Application.date_issued (fst h)).
Proof.
  unfold parseHeader.
  destruct (parseDate (or_null (opt_group 1 (js_match flag_i re_submitted content))))
    as [ds| |]; cbn [bind]; try discriminate.
  destruct (parseDate (or_null (opt_group 1 (js_match flag_i re_issued content))))
    as [di| |]; cbn [bind]; try discriminate.
  intros H. injection H as <-. split; reflexivity.
Qed.

End LabelFacts.
Import LabelFacts.

(** X16. A header field whose label is absent from the document (in
    any case) has its default: the empty string for the application
    number, the status and the address, null for the dates, the parcel,
    the zoning, the subdivision, the lot and block and the description
    of work, a party of nulls for the applicant and the owner, no rows
    for the building table and null for the third party review. *)
Theorem absent_labels :
  forall content includeRaw,
    exists p, parsePermitComments content includeRaw = Ok p /\
      let a := PermitComments.application p in
      let pr := PermitComments.property p in
      (anchor_absent "Application:" content -> Application.number a = []) /\
      (anchor_absent "Status:" content -> Application.status a = []) /\
      (anchor_absent "Date Submitted:" content -> Application.date_submitted a = None) /\
      (anchor_absent "Date Issued:" content -> Application.date_issued a = None) /\
      (anchor_absent "Address:" content -> Property.address pr = []) /\
      (anchor_absent "Parcel:" content -> Property.parcel pr = None) /\
      (anchor_absent "Zoning:" content -> Property.zoning pr = None) /\
      (anchor_absent "Subdivision:" content -> Property.subdivision pr = None) /\
      (anchor_absent "Lot/Block:" content ->
         Property.lot pr = None /\ Property.block pr = None) /\
      (anchor_absent "Description of Work:" content ->
         PermitComments.description_of_work p = None) /\
      (anchor_absent "Applicant:" content ->
         PermitComments.applicant p = Party.mk None None None) /\
      (anchor_absent "Owner:" content ->
         PermitComments.owner p = Party.mk None None None) /\
      (anchor_absent "Building Classification:" content ->
         PermitComments.building_classification p = []) /\
      (anchor_absent "INFORMATION BLOCK" content ->
         PermitComments.third_party_review p = None).
Proof.
  intros content includeRaw.
  destruct (parsePermitComments_ok content includeRaw) as [p Hp].
  exists p. split; [exact Hp|]. cbv zeta.
  apply parsePermitComments_fields in Hp.
  destruct Hp as (h & d & Hh & Hd & Hb & _ & _ & _ & Ht & E).
  rewrite E at 1 2 3 4 5 6 7 8 9 10 11 12 13.
  cbn [PermitComments.application PermitComments.property PermitComments.description_of_work
       PermitComments.applicant PermitComments.owner].
  pose proof Hh as Hi. apply parseHeader_inv in Hi.
  destruct Hi as (En & Es & Ea & Ep & Ez & Esub & El & Ebl).
  apply parseHeader_dates in Hh. destruct Hh as [Hds Hdi].
  repeat split.
  - intros A. rewrite En, (label_absent flag_i "Application:") by (try reflexivity; exact A).
    reflexivity.
  - intros A. rewrite Es, (label_absent flag_i "Status:") by (try reflexivity; exact A).
    reflexivity.
  - intros A. rewrite (label_absent flag_i "Date Submitted:") in Hds
      by (try reflexivity; exact A).
    cbn in Hds. congruence.
  - intros A. rewrite (label_absent flag_i "Date Issued:") in Hdi
      by (try reflexivity; exact A).
    cbn in Hdi. congruence.
  - intros A. rewrite Ea, (label_absent flag_is "Address:") by (try reflexivity; exact A).
    reflexivity.
  - intros A. rewrite Ep, (label_absent flag_i "Parcel:") by (try reflexivity; exact A).
    reflexivity.
  - intros A. rewrite Ez, (label_absent flag_i "Zoning:") by (try reflexivity; exact A).
    reflexivity.
  - intros A. rewrite Esub, (label_absent flag_i "Subdivision:") by (try reflexivity; exact A).
    reflexivity.
  - rewrite El, (label_absent flag_i "Lot/Block:") by (try reflexivity; assumption).
    reflexivity.
  - rewrite Ebl, (label_absent flag_i "Lot/Block:") by (try reflexivity; assumption).
    reflexivity.
  - intros A. unfold parseDescriptionOfWork in Hd.
    rewrite (label_absent flag_is "Description of Work:") in Hd by (try reflexivity; exact A).
    congruence.
  - intros A. unfold parseApplicantOwner. cbv zeta. cbn [fst].
    rewrite (label_absent flag_is "Applicant:") by (try reflexivity; exact A). reflexivity.
  - intros A. unfold parseApplicantOwner. cbv zeta. cbn [snd].
    rewrite (label_absent flag_is "Owner:") by (try reflexivity; exact A). reflexivity.
  - intros A. unfold parseBuildingClassification in Hb.
    rewrite (label_absent flag_i "Building Classification:") in Hb by (try reflexivity; exact A).
    congruence.
  - intros A. unfold parseThirdPartyReview in Ht.
    rewrite (label_absent flag_i "INFORMATION BLOCK") in Ht by (try reflexivity; exact A).
    congruence.
Qed.

Lemma absent_labels_witness :
  exists p, parsePermitComments [] false = Ok p /\
            Application.number (PermitComments.application p) = [] /\
            Property.lot (PermitComments.property p) = None /\
            PermitComments.owner p = Party.mk None None None /\
            PermitComments.third_party_review p = None.
Proof.
  destruct (absent_labels [] false)
    as (p & Hp & Hn & _ & _ & _ & _ & _ & _ & _ & Hl & _ & _ & Ho & _ & Ht).
  exists p. split; [exact Hp|]. split; [apply Hn; reflexivity|].
  split; [apply Hl; reflexivity|]. split; [apply Ho; reflexivity | apply Ht; reflexivity].
Defined.

Module Finding.
Section Finding.
Variable fl : flags.

Lemma starts_within p : forall a b,
  starts_with_pattern fl p (a ++ b) = true -> List.length p <= List.length a ->
  starts_with_pattern fl p a = true.
Proof.
  induction p as [|c p IH]; intros a b H L; [reflexivity|].
  destruct a as [|x a]; [simpl in L; lia|]. simpl in H |- *.
  apply andb_true_iff in H. destruct H as [H1 H2]. rewrite H1. simpl.
  apply (IH a b H2). simpl in L. lia.
Qed.

(** The pattern does not match where its literal text does not start. *)
Lemma m_literal_fail r x k :
  starts_with_pattern fl (literal_prefix r) (ms_rest x) = false -> m fl r x k = None.
Proof.
  intros H. destruct (m fl r x k) as [z|] eqn:E; [|reflexivity].
  apply m_sound in E. destruct E as (y & Hm & _).
  apply matches_literal_prefix in Hm. congruence.
Qed.

(** The search passes over the positions where the pattern does not
    match. *)
Lemma search_at r txt caps : forall pre suf prev idx,
  (forall pre1 pre2 p, pre = pre1 ++ pre2 -> pre2 <> [] ->
     m fl r (MState p (pre2 ++ suf) []) (fun z => Some z) = None) ->
  (forall p, exists y,
     m fl r (MState p suf []) (fun z => Some z) = Some y /\
     consumed (MState p suf []) y = txt /\ ms_caps y = caps) ->
  search fl r prev (pre ++ suf) idx = Some (MatchResult (idx + List.length pre) txt caps).
Proof.
  induction pre as [|c pre IH]; intros suf prev idx Hpre Hsuf.
  - destruct (Hsuf prev) as (y & Hy & <- & <-). cbn [app List.length]. rewrite Nat.add_0_r.
    apply search_first. exact Hy.
  - pose proof (Hpre [] (c :: pre) prev eq_refl ltac:(discriminate)) as H0.
    cbn [app] in H0. cbn [app search]. rewrite H0.
    rewrite IH.
    + cbn [List.length]. f_equal. f_equal. lia.
    + intros pre1 pre2 p E Hne. apply (Hpre (c :: pre1) pre2 p); [rewrite E; reflexivity | exact Hne].
    + exact Hsuf.
Qed.

End Finding.

Lemma removelast_last (l : jstring) : l <> [] -> exists c, l = removelast l ++ [c].
Proof. intros H. exists (last l 0%N). apply app_removelast_last. exact H. Qed.

(** Before the first occurrence of its label a pattern does not match. *)
Lemma before_first_label fl label r pre tail :
  f_icase fl = true -> literal_prefix r = str label -> str label <> [] ->
  first_label label pre ->
  forall pre1 pre2 p, pre = pre1 ++ pre2 -> pre2 <> [] ->
    m fl r (MState p (pre2 ++ str label ++ tail) []) (fun z => Some z) = None.
Proof.
  intros Hf El Hne H pre1 pre2 p E Hp. apply m_literal_fail. cbn [ms_rest]. rewrite El.
  destruct (starts_with_pattern fl (str label) (pre2 ++ str label ++ tail)) eqn:S;
    [|reflexivity].
  exfalso. unfold first_label in H.
  destruct (removelast_last (str label) Hne) as (c & Ec).
  rewrite Ec in S at 2. rewrite <- !app_assoc in S. rewrite app_assoc in S.
  apply starts_within in S.
  2:{ rewrite length_app. rewrite Ec at 1. rewrite length_app. simpl.
      destruct pre2; [congruence|simpl; lia]. }
  assert (O : occurs fl (str label) (pre ++ removelast (str label)) = true).
  { rewrite E, <- app_assoc. apply occurs_app, occurs_start. exact S. }
  rewrite occurs_icase in O by exact Hf. congruence.
Qed.

Lemma is_space_swap c : is_space (swap_case c) = is_space c.
Proof.
  unfold swap_case. destruct (is_lower c) eqn:L.
  - assert (is_letter c = true) by (unfold is_letter; rewrite L; apply orb_true_r).
    rewrite (letter_not_space c H).
    apply letter_not_space. unfold is_letter, is_upper, is_lower, in_range in *.
    apply andb_true_iff in L. destruct L as [A B]. apply N.leb_le in A, B.
    apply orb_true_iff. left. apply andb_true_iff. split; apply N.leb_le; lia.
  - destruct (is_upper c) eqn:U; [|reflexivity].
    assert (is_letter c = true) by (unfold is_letter; rewrite U; reflexivity).
    rewrite (letter_not_space c H).
    apply letter_not_space. unfold is_letter, is_upper, is_lower, in_range in *.
    apply andb_true_iff in U. destruct U as [A B]. apply N.leb_le in A, B.
    apply orb_true_iff. right. apply andb_true_iff. split; apply N.leb_le; lia.
Qed.

Lemma cls_space_i c : cls_match flag_i false [CSpace] c = is_space c.
Proof.
  unfold cls_match, citem_match. cbn [existsb citem_has f_icase flag_i andb xorb].
  rewrite is_space_swap. destruct (is_space c); reflexivity.
Qed.

Lemma takes_spaces_i x ws t :
  ms_rest x = ws ++ t -> spaces ws -> stops is_space t ->
  takes flag_i (Rep 0 None true (Cls false [CSpace])) x (after ws x t).
Proof.
  intros E S St. apply takes_run; [exact E | | lia |].
  - eapply Forall_impl; [|exact S]. intros c Hc. rewrite cls_space_i. exact Hc.
  - destruct t as [|c t]; [exact I|]. unfold stops in *. rewrite cls_space_i. exact St.
Qed.

Lemma takes_digits_i x ds t :
  ms_rest x = ds ++ t -> digits ds -> ds <> [] -> stops is_digit t ->
  takes flag_i (Rep 1 None true (Cls false [CDigit])) x (after ds x t).
Proof.
  intros E D Hne St. apply takes_run; [exact E | apply digits_cls; exact D | |].
  - destruct ds; [congruence|simpl; lia].
  - destruct t as [|c t]; [exact I|]. unfold stops in *. rewrite cls_digit. exact St.
Qed.

Lemma digits_head ds t :
  digits ds -> ds <> [] -> stops is_space (ds ++ t).
Proof.
  intros D Hne. destruct D as [|c ds Hc _]; [congruence|]. simpl.
  apply digit_not_space. exact Hc.
Qed.

Ltac literal_chars :=
  repeat (eapply takes_seq;
          [eapply takes_chr; reflexivity|]).

(** The parcel: the digits after the first [Parcel:]. *)
Lemma parcel_found pre ws ds rest :
  first_label "Parcel:" pre -> spaces ws -> digits ds -> ds <> [] -> stops is_digit rest ->
  exists mr,
    js_match flag_i re_parcel (pre ++ str "Parcel:" ++ ws ++ ds ++ rest) = Some mr /\
    group 1 mr = Some ds.
Proof.
  intros Hl Hws Hd Hne Hr. unfold js_match. eexists. split.
  - apply search_at with (caps := [(1, ds)]) (txt := str "Parcel:" ++ ws ++ ds).
    + apply before_first_label; [reflexivity | reflexivity | discriminate | exact Hl].
    + intros p.
      assert (T : exists z,
                takes flag_i re_parcel (MState p (str "Parcel:" ++ ws ++ ds ++ rest) []) z /\
                ms_rest z = rest /\ ms_caps z = [(1, ds)]).
      { eexists. split.
        - unfold re_parcel. literal_chars.
          eapply takes_seq.
          { apply takes_spaces_i with (ws := ws) (t := ds ++ rest);
              [reflexivity | exact Hws | apply digits_head; assumption]. }
          apply takes_grp_text with (s := ds).
          + apply takes_digits_i with (t := rest); [reflexivity | exact Hd | exact Hne | exact Hr].
          + reflexivity.
        - split; reflexivity. }
      destruct T as (z & T & Er & Ec). exists z.
      split; [apply T; reflexivity|]. split; [|exact Ec].
      apply consumed_app. cbn [ms_rest]. rewrite Er, <- !app_assoc. reflexivity.
  - reflexivity.
Qed.

(** The application number: [PB], digits, a hyphen and digits after
    the first [Application:]. *)
Lemma application_found pre ws d1 d2 rest :
  first_label "Application:" pre -> spaces ws ->
  digits d1 -> d1 <> [] -> digits d2 -> d2 <> [] -> stops is_digit rest ->
  exists mr,
    js_match flag_i re_application
      (pre ++ str "Application:" ++ ws ++ str "PB" ++ d1 ++ 45%N :: d2 ++ rest) = Some mr /\
    group 1 mr = Some (str "PB" ++ d1 ++ 45%N :: d2).
Proof.
  intros Hl Hws H1 N1 H2 N2 Hr. unfold js_match. eexists. split.
  - apply search_at with (caps := [(1, str "PB" ++ d1 ++ 45%N :: d2)])
      (txt := str "Application:" ++ ws ++ str "PB" ++ d1 ++ 45%N :: d2).
    + apply before_first_label; [reflexivity | reflexivity | discriminate | exact Hl].
    + intros p.
      assert (T : exists z,
                takes flag_i re_application
                  (MState p (str "Application:" ++ ws ++ str "PB" ++ d1 ++ 45%N :: d2 ++ rest) []) z /\
                ms_rest z = rest /\ ms_caps z = [(1, str "PB" ++ d1 ++ 45%N :: d2)]).
      { eexists. split.
        - unfold re_application. literal_chars.
          eapply takes_seq.
          { apply takes_spaces_i with (ws := ws) (t := str "PB" ++ d1 ++ 45%N :: d2 ++ rest);
              [reflexivity | exact Hws | reflexivity]. }
          apply takes_grp_text with (s := str "PB" ++ d1 ++ 45%N :: d2).
          + literal_chars.
            eapply takes_seq.
            { apply takes_digits_i with (ds := d1) (t := 45%N :: d2 ++ rest);
                [reflexivity | exact H1 | exact N1 | reflexivity]. }
            eapply takes_seq.
            { apply takes_chr with (c := 45%N) (t := d2 ++ rest); reflexivity. }
            apply takes_digits_i with (t := rest); [reflexivity | exact H2 | exact N2 | exact Hr].
          + simpl. rewrite <- app_assoc. reflexivity.
        - split; reflexivity. }
      destruct T as (z & T & Er & Ec). exists z.
      split; [apply T; reflexivity|]. split; [|exact Ec].
      apply consumed_app. cbn [ms_rest]. rewrite Er. simpl.
      rewrite <- !app_assoc. simpl. rewrite <- !app_assoc. reflexivity.
  - reflexivity.
Qed.

End Finding.
Import Finding.

(** X17. A labelled value is found where the label first occurs: after
    the first [Parcel:] (in any case), white space and a run of digits,
    the parcel is that run; after the first [Application:], white space
    and [PB], digits, a hyphen and digits, the application number is
    that text. *)
Theorem labelled_values_found :
  (forall pre ws ds rest includeRaw,
     first_label "Parcel:" pre -> spaces ws -> digits ds -> ds <> [] ->
     stops is_digit rest ->
     exists p,
       parsePermitComments (pre ++ str "Parcel:" ++ ws ++ ds ++ rest) includeRaw = Ok p /\
       Property.parcel (PermitComments.property p) = Some ds) /\
  (forall pre ws d1 d2 rest includeRaw,
     first_label "Application:" pre -> spaces ws ->
     digits d1 -> d1 <> [] -> digits d2 -> d2 <> [] -> stops is_digit rest ->
     exists p,
       parsePermitComments
         (pre ++ str "Application:" ++ ws ++ str "PB" ++ d1 ++ 45%N :: d2 ++ rest)
         includeRaw = Ok p /\
       Application.number (PermitComments.application p) = str "PB" ++ d1 ++ 45%N :: d2).
Proof.
  split.
  - intros pre ws ds rest includeRaw Hl Hws Hd Hne Hr.
    destruct (parsePermitComments_ok (pre ++ str "Parcel:" ++ ws ++ ds ++ rest) includeRaw)
      as [p Hp].
    exists p. split; [exact Hp|].
    apply parsePermitComments_fields in Hp.
    destruct Hp as (h & d & Hh & _ & _ & _ & _ & _ & _ & ->).
    cbn [PermitComments.property]. apply parseHeader_inv in Hh.
    destruct Hh as (_ & _ & _ & -> & _).
    destruct (parcel_found pre ws ds rest Hl Hws Hd Hne Hr) as (mr & -> & G).
    cbn [opt_group]. rewrite G. destruct ds; [congruence|reflexivity].
  - intros pre ws d1 d2 rest includeRaw Hl Hws H1 N1 H2 N2 Hr.
    destruct (parsePermitComments_ok
                (pre ++ str "Application:" ++ ws ++ str "PB" ++ d1 ++ 45%N :: d2 ++ rest)
                includeRaw) as [p Hp].
    exists p. split; [exact Hp|].
    apply parsePermitComments_fields in Hp.
    destruct Hp as (h & d & Hh & _ & _ & _ & _ & _ & _ & ->).
    cbn [PermitComments.application]. apply parseHeader_inv in Hh.
    destruct Hh as (-> & _).
    destruct (application_found pre ws d1 d2 rest Hl Hws H1 N1 H2 N2 Hr) as (mr & -> & G).
    cbn [opt_group]. rewrite G. reflexivity.
Qed.

Lemma labelled_values_found_witness :
  (exists p,
     parsePermitComments (str "Address: 1 MAIN ST  Parcel: 04629981 Zoning: A-5") false = Ok p /\
     Property.parcel (PermitComments.property p) = Some (str "04629981")) /\
  (exists p,
     parsePermitComments (str "Application: PB25-16985  Status: Issued") false = Ok p /\
     Application.number (PermitComments.application p) = str "PB25-16985").
Proof.
  destruct labelled_values_found as [H1 H2]. split.
  - apply (H1 (str "Address: 1 MAIN ST  ") (str " ") (str "04629981") (str " Zoning: A-5") false).
    + reflexivity.
    + repeat constructor.
    + repeat constructor.
    + discriminate.
    + reflexivity.
  - apply (H2 [] (str " ") (str "25") (str "16985") (str "  Status: Issued") false).
    + reflexivity.
    + repeat constructor.
    + repeat constructor.
    + discriminate.
    + repeat constructor.
    + discriminate.
    + reflexivity.
Defined.

Module TextFacts.

Lemma cleanText_normal t : normal_text (cleanText t).
Proof. exists (words t). split; [apply words_word | apply cleanText_words]. Qed.

Lemma present_clean t : Forall normal_text (present (or_null (Some (cleanText t)))).
Proof.
  destruct (cleanText t) as [|c u] eqn:E; cbn [or_null present]; [constructor|].
  constructor; [rewrite <- E; apply cleanText_normal | constructor].
Qed.

Lemma or_null_nonempty_text v : or_null v <> Some [].
Proof. destruct v as [[|c t]|]; simpl; discriminate. Qed.

Lemma parseParty_strings text :
  Forall (fun o => o <> Some []) (party_strings (parseParty text)).
Proof.
  unfold parseParty, party_strings.
  destruct text as [[|c t]|]; cbv zeta; cbn [Party.name Party.address Party.phone];
    repeat (constructor; [first [discriminate | apply or_null_nonempty_text]|]); constructor.
Qed.

Lemma task_texts line t :
  parseTaskLine line = Ok (Some t) ->
  Forall normal_text
    (ApprovalTask.task_name t :: ApprovalTask.status t
     :: present (ApprovalTask.reviewer_name t)) /\
  ApprovalTask.reviewer_name t <> Some [].
Proof.
  intros H. apply parseTaskLine_inv in H.
  destruct H as (mt & n & s & r & completed & _ & _ & _ & _ & _ & ->).
  cbn [ApprovalTask.task_name ApprovalTask.status ApprovalTask.reviewer_name]. split.
  - constructor; [apply cleanText_normal|]. constructor; [apply cleanText_normal|].
    apply present_clean.
  - apply or_null_nonempty_text.
Qed.

Lemma block_texts block cb :
  parseBlock block = Ok (Some cb) ->
  Forall normal_text
    (CorrectionBlock.department cb
     :: present (Reviewer.name (CorrectionBlock.reviewer cb))
     ++ present (Reviewer.email (CorrectionBlock.reviewer cb))
     ++ present (Reviewer.phone (CorrectionBlock.reviewer cb))
     ++ List.map CorrectionItem.text (CorrectionBlock.items cb)) /\
  Forall (fun o => o <> Some [])
    [ Reviewer.name (CorrectionBlock.reviewer cb);
      Reviewer.email (CorrectionBlock.reviewer cb);
      Reviewer.phone (CorrectionBlock.reviewer cb) ].
Proof.
  intros H. destruct (block_shape block cb H) as [_ F].
  apply parseBlock_inv in H. destruct H as (dm & d & r & items & _ & _ & _ & _ & ->).
  cbn [CorrectionBlock.department CorrectionBlock.reviewer CorrectionBlock.items
       Reviewer.name Reviewer.email Reviewer.phone] in *. split.
  - constructor; [apply cleanText_normal|].
    repeat (apply Forall_app; split; [apply present_clean|]).
    apply Forall_map. eapply Forall_impl; [|exact F].
    intros it [_ E]. rewrite <- E. apply cleanText_normal.
  - repeat (constructor; [apply or_null_nonempty_text|]); constructor.
Qed.

Lemma third_party_texts content t :
  parseThirdPartyReview content = Ok (Some t) ->
  Forall normal_text (present (ThirdPartyReview.reviewed_by t)
                      ++ present (ThirdPartyReview.tenant_builder t)) /\
  Forall (fun o => o <> Some [])
    [ ThirdPartyReview.reviewed_by t; ThirdPartyReview.tenant_builder t ].
Proof.
  unfold parseThirdPartyReview.
  destruct (js_match flag_i re_information_block content) as [im|]; [|discriminate].
  destruct (group 1 im) as [ic|]; cbn [defined bind]; [|discriminate].
  set (dm := js_match flag_i re_plan_review_date ic).
  set (bm := js_match flag_i re_reviewed_by ic).
  set (tm := js_match flag_i re_tenant ic).
  pose proof (present_clean (or_empty (opt_group 1 bm))) as Hb.
  pose proof (present_clean (or_empty (opt_group 1 tm))) as Hm.
  pose proof (or_null_nonempty_text (Some (cleanText (or_empty (opt_group 1 bm))))) as Nb.
  pose proof (or_null_nonempty_text (Some (cleanText (or_empty (opt_group 1 tm))))) as Nm.
  set (rb := or_null (Some (cleanText (or_empty (opt_group 1 bm))))) in *.
  set (tb := or_null (Some (cleanText (or_empty (opt_group 1 tm))))) in *.
  clearbody rb tb.
  assert (G : forall pd,
            Ok (Some (ThirdPartyReview.mk
                        (if includes (str "METRO CODE") content ||
                            includes (str "metrocode.com") content
                         then Some (str "Metro Code Analysis")
                         else if includes (str "NORTH TEXAS") content ||
                                 includes (str "ntispros.com") content
                              then Some (str "North Texas Inspection Services")
                              else None) pd rb tb)) = Ok (Some t) ->
            Forall normal_text (present (ThirdPartyReview.reviewed_by t)
                                ++ present (ThirdPartyReview.tenant_builder t)) /\
            Forall (fun o => o <> Some [])
              [ ThirdPartyReview.reviewed_by t; ThirdPartyReview.tenant_builder t ]).
  { intros pd H. injection H as <-.
    cbn [ThirdPartyReview.reviewed_by ThirdPartyReview.tenant_builder].
    split; [apply Forall_app; split; assumption|].
    constructor; [exact Nb|]. constructor; [exact Nm|]. constructor. }
  destruct (parseDate (or_null (opt_group 1 dm))) as [pd| |];
    destruct dm, bm, tm; cbn [bind]; intros H; try discriminate; exact (G _ H).
Qed.

Lemma zoning_texts zc :
  Forall normal_text (present (ZoningReview.zoning_district (zoningFields zc))
                      ++ present (ZoningReview.plat_name (zoningFields zc))) /\
  Forall (fun o => o <> Some [])
    [ ZoningReview.zoning_district (zoningFields zc);
      ZoningReview.plat_name (zoningFields zc);
      ZoningReview.plat_number (zoningFields zc);
      ZoningReview.ufc_permit (zoningFields zc) ].
Proof.
  unfold zoningFields.
  destruct (lotCoverage zc) as [a1 a2].
  destruct (cascade2 parseFeet (js_match flag_i height1 zc) (js_match flag_i height2 zc))
    as [b1 b2].
  destruct (cascade2 parseFeet (js_match flag_i lotWidth1 zc) (js_match flag_i lotWidth2 zc))
    as [c1 c2].
  destruct (cascade2 parsePercent (js_match flag_i driveway1 zc)
              (js_match flag_i driveway2 zc)) as [d1 d2].
  destruct (cascade2 parseFeet (js_match flag_i front1 zc) (js_match flag_i front2 zc))
    as [e1 e2].
  destruct (sides zc) as [[f1 f2] f3].
  destruct (cascade2 parseFeet (js_match flag_i rear1 zc) (js_match flag_i rear2 zc))
    as [g1 g2].
  cbv zeta.
  cbn [ZoningReview.zoning_district ZoningReview.plat_name ZoningReview.plat_number
       ZoningReview.ufc_permit].
  split.
  - apply Forall_app; split; apply present_clean.
  - repeat (constructor; [apply or_null_nonempty_text|]); constructor.
Qed.

End TextFacts.
Import TextFacts.

(** X18. The texts of a record that went through [cleanText] (status,
    address, subdivision, description of work, use descriptions,
    departments, reviewers, item texts, task names and the like) are
    words with one space between them, without line breaks; and a text
    that the source replaces by null when it is empty is never the
    empty string. *)
Theorem text_fields_normal :
  forall content includeRaw,
    exists p, parsePermitComments content includeRaw = Ok p /\
      Forall normal_text (cleaned_texts_of p) /\
      Forall (fun o => o <> Some []) (optional_strings_of p).
Proof.
  intros content includeRaw.
  destruct (parsePermitComments_ok content includeRaw) as [p Hp].
  exists p. split; [exact Hp|].
  apply parsePermitComments_fields in Hp.
  destruct Hp as (h & d & Hh & Hd & Hb & Hc & Ha & Hz & Ht & Ep).
  apply parseHeader_inv in Hh.
  destruct Hh as (_ & Est & Ead & Epa & Ezo & Esu & Elo & Ebl).
  assert (Fc : Forall (fun cb =>
              Forall normal_text
                (CorrectionBlock.department cb
                 :: present (Reviewer.name (CorrectionBlock.reviewer cb))
                 ++ present (Reviewer.email (CorrectionBlock.reviewer cb))
                 ++ present (Reviewer.phone (CorrectionBlock.reviewer cb))
                 ++ List.map CorrectionItem.text (CorrectionBlock.items cb)) /\
              Forall (fun o => o <> Some [])
                [ Reviewer.name (CorrectionBlock.reviewer cb);
                  Reviewer.email (CorrectionBlock.reviewer cb);
                  Reviewer.phone (CorrectionBlock.reviewer cb) ])
            (PermitComments.corrections p)).
  { eapply parseCorrections_all; [exact Hc|]. apply block_texts. }
  assert (Fa : Forall (fun t =>
              Forall normal_text
                (ApprovalTask.task_name t :: ApprovalTask.status t
                 :: present (ApprovalTask.reviewer_name t)) /\
              ApprovalTask.reviewer_name t <> Some [])
            (PermitComments.approval_tasks p)).
  { eapply parseApprovalTable_all; [exact Ha|]. apply task_texts. }
  assert (Fb : Forall (fun c => normal_text (BuildingClass.use_description c))
                 (PermitComments.building_classification p)).
  { eapply parseBuildingClassification_all; [exact Hb|].
    intros. cbn [BuildingClass.use_description]. apply cleanText_normal. }
  assert (Fd : Forall normal_text (present d)).
  { unfold parseDescriptionOfWork in Hd.
    destruct (js_match flag_is re_description content) as [mt|].
    - destruct (group 1 mt) as [g|]; cbn [defined bind] in Hd; [|discriminate].
      injection Hd as <-. cbn [present]. constructor; [apply cleanText_normal|constructor].
    - injection Hd as <-. constructor. }
  assert (Fz : match PermitComments.zoning_review p with
               | Some zr =>
                   Forall normal_text (present (ZoningReview.zoning_district zr)
                                       ++ present (ZoningReview.plat_name zr)) /\
                   Forall (fun o => o <> Some [])
                     [ ZoningReview.zoning_district zr; ZoningReview.plat_name zr;
                       ZoningReview.plat_number zr; ZoningReview.ufc_permit zr ]
               | None => True
               end).
  { destruct (PermitComments.zoning_review p) as [zr|]; [|exact I].
    apply parseZoningReview_fields in Hz. destruct Hz as [zc ->]. apply zoning_texts. }
  assert (Ft : match PermitComments.third_party_review p with
               | Some t =>
                   Forall normal_text (present (ThirdPartyReview.reviewed_by t)
                                       ++ present (ThirdPartyReview.tenant_builder t)) /\
                   Forall (fun o => o <> Some [])
                     [ ThirdPartyReview.reviewed_by t; ThirdPartyReview.tenant_builder t ]
               | None => True
               end).
  { destruct (PermitComments.third_party_review p) as [t|]; [|exact I].
    apply (third_party_texts content). exact Ht. }
  unfold cleaned_texts_of, optional_strings_of. rewrite Ep.
  cbn [PermitComments.application PermitComments.property PermitComments.description_of_work
       PermitComments.applicant PermitComments.owner PermitComments.building_classification
       PermitComments.corrections PermitComments.approval_tasks
       PermitComments.zoning_review PermitComments.third_party_review].
  split.
  - apply Forall_app. split.
    { rewrite Est, Ead. repeat constructor; apply cleanText_normal. }
    apply Forall_app. split; [rewrite Esu; apply present_clean|].
    apply Forall_app. split; [exact Fd|].
    apply Forall_app. split; [apply Forall_map; exact Fb|].
    apply Forall_app. split.
    { apply Forall_flat_map. eapply Forall_impl; [|exact Fc]. intros cb [H _]. exact H. }
    apply Forall_app. split.
    { apply Forall_flat_map. eapply Forall_impl; [|exact Fa]. intros t [H _]. exact H. }
    apply Forall_app. split.
    + destruct (PermitComments.zoning_review p); [apply Fz | constructor].
    + destruct (PermitComments.third_party_review p); [apply Ft | constructor].
  - apply Forall_app. split.
    { rewrite Epa, Ezo, Esu, Elo, Ebl. repeat (constructor; [apply or_null_nonempty_text|]); constructor. }
    apply Forall_app. split; [unfold parseApplicantOwner; cbv zeta; apply parseParty_strings|].
    apply Forall_app. split; [unfold parseApplicantOwner; cbv zeta; apply parseParty_strings|].
    apply Forall_app. split.
    { apply Forall_flat_map. eapply Forall_impl; [|exact Fc]. intros cb [_ H]. exact H. }
    apply Forall_app. split.
    { apply Forall_map. eapply Forall_impl; [|exact Fa]. intros t [_ H]. exact H. }
    apply Forall_app. split.
    + destruct (PermitComments.zoning_review p); [apply Fz | constructor].
    + destruct (PermitComments.third_party_review p); [apply Ft | constructor].
Qed.

Module PercentFacts.

Lemma space_not_number c : is_space c = true -> number_char c = false.
Proof.
  intros H. unfold number_char.
  destruct (is_digit c) eqn:D.
  - rewrite (digit_not_space c D) in H. discriminate.
  - destruct (N.eqb_spec c 46) as [->|_]; [discriminate H | reflexivity].
Qed.

Lemma re_percent_fails p rest :
  stops is_digit rest -> m no_flags re_percent (MState p rest []) (fun y => Some y) = None.
Proof.
  intros H. unfold re_percent. apply fails_seq, fails_grp.
  apply fails_seq. apply fails_rep_min; [lia | reflexivity |]. apply fails_cls.
  cbn [with_caps ms_rest]. destruct rest as [|c t]; [exact I|].
  unfold stops in *. rewrite cls_digit. exact H.
Qed.

Lemma re_percent_reads pre D ws rest :
  Forall (fun c => is_digit c = false) pre -> decimal D -> spaces ws ->
  exists mr,
    js_match no_flags re_percent (pre ++ D ++ ws ++ 37%N :: rest) = Some mr /\
    group 1 mr = Some D.
Proof.
  intros Hpre HD Hws.
  unfold js_match. rewrite search_skips.
  2:{ intros p t c Hin. apply re_percent_fails. rewrite Forall_forall in Hpre.
      simpl. apply Hpre. exact Hin. }
  set (p0 := fold_left (fun _ c => Some c) pre None).
  set (x0 := MState p0 (D ++ ws ++ 37%N :: rest) []).
  pose (x1 := with_caps (after D x0 (ws ++ 37%N :: rest)) (set_cap 1 D [])).
  pose (x2 := after ws x1 (37%N :: rest)).
  pose (x3 := after [37%N] x2 rest).
  assert (Hg : stops number_char (ws ++ 37%N :: rest)).
  { destruct Hws as [|c ws Hc _]; [reflexivity|]. simpl. apply space_not_number. exact Hc. }
  assert (T : takes no_flags re_percent x0 x3).
  { unfold re_percent. eapply takes_seq.
    { apply (takes_grp_text no_flags 1 dec_pat x0 (after D x0 (ws ++ 37%N :: rest)) D).
      - apply takes_decimal with (t := ws ++ 37%N :: rest); [exact HD | reflexivity | exact Hg].
      - reflexivity. }
    eapply takes_seq.
    { apply (takes_run no_flags false [CSpace] 0 None ws (37%N :: rest) x1).
      - reflexivity.
      - apply spaces_cls. exact Hws.
      - lia.
      - reflexivity. }
    apply (takes_chr no_flags 37%N 37%N rest x2); reflexivity. }
  specialize (T (fun y => Some y) x3 eq_refl).
  apply search_first with (idx := 0 + List.length pre) in T.
  eexists. split; [exact T|]. reflexivity.
Qed.

Lemma no_percent_sign text :
  ~ In 37%N text -> occurs no_flags [37%N] text = false.
Proof.
  induction text as [|c t IH]; intros H; [reflexivity|].
  cbn [occurs]. rewrite IH by (intros Hin; apply H; right; exact Hin).
  rewrite orb_false_r. cbn [starts_with_pattern]. rewrite andb_true_r.
  destruct (chr_match no_flags 37%N c) eqn:E; [|reflexivity].
  exfalso. apply H. left. apply (chr_match_exact 37%N c). exact E.
Qed.

End PercentFacts.
Import PercentFacts.

(** X19. [parsePercent] reads the first number that a percent sign
    follows: after a prefix without digits, a number, white space if
    any and a percent sign give that number.  A text without a percent
    sign is read as [parseFloat] reads it, and gives null when that is
    not a number. *)
Theorem parsePercent_reads_percentage :
  (forall pre D ws rest,
     Forall (fun c => is_digit c = false) pre -> decimal D -> spaces ws ->
     parsePercent (Some (pre ++ D ++ ws ++ 37%N :: rest)) = Some (parseFloat D)) /\
  (forall text,
     ~ In 37%N text ->
     parsePercent (Some text) =
     if isNaN (parseFloat text) then None else Some (parseFloat text)).
Proof.
  split.
  - intros pre D ws rest Hpre HD Hws.
    destruct (re_percent_reads pre D ws rest Hpre HD Hws) as (mr & Em & G).
    unfold parsePercent. rewrite Em, G.
    destruct (pre ++ D ++ ws ++ 37%N :: rest) eqn:E; [|reflexivity].
    exfalso. destruct pre; [|discriminate E].
    destruct (decimal_head D HD) as (c & t & -> & _). discriminate E.
  - intros text H. unfold parsePercent.
    destruct text as [|c t]; [reflexivity|].
    rewrite (js_match_none no_flags 2 re_percent (c :: t)); [reflexivity|].
    apply no_percent_sign. exact H.
Qed.

Lemma parsePercent_reads_percentage_witness :
  parsePercent (Some (str "max 45.5 % of lot")) = Some 45.5%float /\
  parsePercent (Some (str "19")) = Some 19%float /\
  parsePercent (Some (str "none")) = None.
Proof.
  destruct parsePercent_reads_percentage as [H1 H2]. split; [|split].
  - apply (H1 (str "max ") (str "45.5") (str " ") (str " of lot")).
    + repeat constructor.
    + exists (str "45"), (str ".5"). split; [reflexivity|]. split; [repeat constructor|].
      split; [discriminate|]. right. exists (str "5").
      split; [reflexivity|]. split; [repeat constructor | discriminate].
    + repeat constructor.
  - apply (H2 (str "19")). vm_compute. intuition discriminate.
  - apply (H2 (str "none")). vm_compute. intuition discriminate.
Defined.

Module Isolation.
Section Isolation.
Variable fl : flags.

Lemma app_same_length (a b c d : jstring) :
  a ++ b = c ++ d -> List.length a = List.length c -> a = c /\ b = d.
Proof.
  revert c. induction a as [|x a IH]; intros [|y c] E L; simpl in *; try discriminate.
  - split; [reflexivity | exact E].
  - injection E as -> E. injection L as L. destruct (IH c E L) as [-> ->].
    split; reflexivity.
Qed.

(** A pattern that starts with a text consumes it first. *)
Lemma m_text r txt tail x k :
  literal_prefix r = txt -> ms_rest x = txt ++ tail ->
  starts_with_pattern fl txt (txt ++ tail) = true ->
  m fl r x k = m fl (drop_terms (List.length txt) r) (after txt x tail) k.
Proof.
  intros El Er Hs. subst txt.
  destruct (m_literal fl r x k) as (s & t & Es & Ls & Em); [rewrite Er; exact Hs|].
  rewrite Er in Es. symmetry in Es.
  destruct (app_same_length _ _ _ _ Es Ls) as [-> ->]. exact Em.
Qed.

Lemma starts_inside_split p tail : forall body b1 c b2,
  starts_inside fl p body tail = false -> body = b1 ++ c :: b2 ->
  starts_with_pattern fl p (c :: b2 ++ tail) = false.
Proof.
  induction body as [|x body IH]; intros b1 c b2 H E.
  - destruct b1; discriminate E.
  - cbn [starts_inside] in H. apply orb_false_iff in H. destruct H as [H1 H2].
    destruct b1 as [|y b1].
    + injection E as -> ->. exact H1.
    + injection E as -> E. apply (IH b1 c b2 H2 E).
Qed.

Lemma m_alt a b x k :
  m fl (Alt a b) x k =
  match m fl a x k with
  | Some z => Some z
  | None => m fl b x k
  end.
Proof. reflexivity. Qed.

(** A lazy run over a class that accepts every character stops at the
    first position where what follows it succeeds. *)
Lemma lazy_until items (k : cont) tail z :
  (forall c, cls_match fl false items c = true) ->
  forall body fuel x,
    ms_rest x = body ++ tail -> List.length (ms_rest x) < fuel ->
    (forall y b1 c b2, body = b1 ++ c :: b2 -> ms_rest y = c :: b2 ++ tail ->
       ms_caps y = ms_caps x -> k y = None) ->
    k (after body x tail) = Some z ->
    rep (m fl (Cls false items)) [] false fuel 0 None x k = Some z.
Proof.
  intros Hall. induction body as [|c body IH]; intros fuel x Er Hf Hk Hz.
  - destruct fuel as [|fuel]; [lia|]. rewrite rep_step. cbn [is_zero]. cbv zeta.
    cbn [Nat.eqb negb].
    replace (after [] x tail) with x in Hz
      by (destruct x as [p r cs]; cbn in Er |- *; subst r; reflexivity).
    rewrite Hz. reflexivity.
  - destruct fuel as [|fuel]; [lia|]. rewrite rep_step. cbn [is_zero]. cbv zeta.
    cbn [Nat.eqb negb].
    rewrite (Hk x [] c body eq_refl Er eq_refl).
    cbn [m ms_rest]. rewrite Er. cbn [app]. rewrite Hall. cbn [advance ms_rest].
    assert (Hl : Nat.eqb (List.length (body ++ tail)) (List.length (c :: body ++ tail)) = false)
      by (apply Nat.eqb_neq; simpl; lia).
    rewrite Hl. cbn [andb]. rewrite clear_caps_nil.
    apply IH.
    + reflexivity.
    + rewrite Er in Hf. simpl in Hf |- *. lia.
    + intros y b1 c' b2 Eb Ey Ec. apply (Hk y (c :: b1) c' b2).
      * rewrite Eb. reflexivity.
      * exact Ey.
      * exact Ec.
    + exact Hz.
Qed.

End Isolation.

(** The corrections pattern finds the text between the first label and
    the first terminator after it. *)
Lemma corrections_section pre body t rest :
  first_label "Required Corrections:" pre ->
  closes corrections_terminators body t ->
  exists mr,
    js_match flag_i re_corrections
      (pre ++ str "Required Corrections:" ++ body ++ str t ++ rest) = Some mr /\
    group 1 mr = Some body.
Proof.
  intros Hl [Ht Hc]. unfold js_match. eexists. split.
  - apply search_at with (caps := [(1, body)])
      (txt := str "Required Corrections:" ++ body ++ str t).
    + apply before_first_label; [reflexivity | reflexivity | discriminate | exact Hl].
    + intros p.
      set (x0 := MState p (str "Required Corrections:" ++ body ++ str t ++ rest) []).
      rewrite (m_text flag_i re_corrections (str "Required Corrections:")
                 (body ++ str t ++ rest) x0); [|reflexivity|reflexivity|reflexivity].
      change (drop_terms _ re_corrections) with
        (Seq (Grp 1 (Rep 0 None false (Cls false [CSpace; CNonSpace]))) corrections_end).
      set (x1 := after (str "Required Corrections:") x0 (body ++ str t ++ rest)).
      cbn [m groups].
      set (k := fun y : mstate =>
                  m flag_i corrections_end
                    (MState (ms_prev y) (ms_rest y) (set_cap 1 (consumed x1 y) (ms_caps y)))
                    (fun z => Some z)).
      assert (Hin : forall y b1 c b2, body = b1 ++ c :: b2 ->
                ms_rest y = c :: b2 ++ str t ++ rest -> ms_caps y = ms_caps x1 ->
                k y = None).
      { intros y b1 c b2 Eb Ey _. unfold k, corrections_end. rewrite m_alt.
        assert (N : forall t', In t' corrections_terminators ->
                  starts_with_pattern flag_i (str t') (c :: b2 ++ str t ++ rest) = false).
        { intros t' Hin.
          destruct (starts_with_pattern flag_i (str t') (c :: b2 ++ str t ++ rest)) eqn:S;
            [|reflexivity].
          exfalso.
          pose proof (starts_inside_split flag_i (str t') (str t) body b1 c b2
                        (Hc t' Hin) Eb) as F.
          change (c :: b2 ++ str t ++ rest) with ((c :: b2) ++ str t ++ rest) in S.
          rewrite app_assoc in S. apply starts_within in S; [cbn [app] in S; congruence|].
          rewrite length_app. cbn [List.length].
          destruct Ht as [<-|[<-|[]]]; destruct Hin as [<-|[<-|[]]]; cbn; lia. }
        rewrite m_literal_fail
          by (cbn [ms_rest]; rewrite Ey;
              exact (N "Approval Table:"%string (or_introl eq_refl))).
        apply m_literal_fail. cbn [ms_rest]. rewrite Ey.
        exact (N "General Comments"%string (or_intror (or_introl eq_refl))). }
      assert (Hend : exists z,
                k (after body x1 (str t ++ rest)) = Some z /\
                ms_rest z = rest /\ ms_caps z = [(1, body)]).
      { assert (Ec : consumed x1 (after body x1 (str t ++ rest)) = body)
          by (apply consumed_app; reflexivity).
        unfold k. rewrite Ec.
        unfold corrections_end. rewrite m_alt.
        destruct Ht as [<-|[<-|[]]].
        - rewrite (m_text flag_i _ (str "Approval Table:") rest);
            [|reflexivity|reflexivity|reflexivity].
          match goal with
          | |- context [drop_terms ?n ?r] => change (drop_terms n r) with Eps
          end.
          cbn [m]. eexists. split; [reflexivity|]. split; reflexivity.
        - rewrite m_literal_fail by reflexivity.
          rewrite (m_text flag_i _ (str "General Comments") rest);
            [|reflexivity|reflexivity|reflexivity].
          match goal with
          | |- context [drop_terms ?n ?r] => change (drop_terms n r) with Eps
          end.
          cbn [m]. eexists. split; [reflexivity|]. split; reflexivity. }
      destruct Hend as (z & Hz & Er & Ez). exists z. split; [|split; [|exact Ez]].
      * apply (lazy_until flag_i [CSpace; CNonSpace] k (str t ++ rest) z (any_char flag_i) body);
          [reflexivity | cbn [x1 after ms_rest]; lia | exact Hin | exact Hz].
      * apply consumed_app. cbn [x0 ms_rest]. rewrite Er, <- !app_assoc. reflexivity.
  - reflexivity.
Qed.

End Isolation.
Import Isolation.

(** X20. The corrections are read from the text between the first
    [Required Corrections:] and the first terminator after it
    ([Approval Table:] or [General Comments]) and from nothing else:
    what stands before the label and after the terminator does not
    change them. *)
Theorem corrections_section_isolated :
  forall pre body t rest,
    first_label "Required Corrections:" pre ->
    closes corrections_terminators body t ->
    parseCorrections (pre ++ str "Required Corrections:" ++ body ++ str t ++ rest) =
    parseCorrections (str "Required Corrections:" ++ body ++ str t).
Proof.
  intros pre body t rest Hl Hc.
  destruct (corrections_section pre body t rest Hl Hc) as (mr & Em & G).
  destruct (corrections_section [] body t [] eq_refl Hc) as (mr' & Em' & G').
  cbn [app] in Em'. rewrite app_nil_r in Em'.
  unfold parseCorrections. rewrite Em, Em', G, G'. reflexivity.
Qed.

Lemma corrections_section_isolated_witness :
  parseCorrections
    (str "Application: PB25-16985" ++ [NL] ++
     str "Required Corrections:" ++
     (NL :: str "Water" ++ NL :: str "Reviewer: Bob" ++ NL :: str "1. Fix pipe" ++ [NL]) ++
     str "Approval Table:" ++ NL :: str "General Comments") =
  parseCorrections
    (str "Required Corrections:" ++
     (NL :: str "Water" ++ NL :: str "Reviewer: Bob" ++ NL :: str "1. Fix pipe" ++ [NL]) ++
     str "Approval Table:").
Proof.
  apply (corrections_section_isolated
           (str "Application: PB25-16985" ++ [NL])
           (NL :: str "Water" ++ NL :: str "Reviewer: Bob" ++ NL :: str "1. Fix pipe" ++ [NL])
           "Approval Table:"%string
           (NL :: str "General Comments")).
  - reflexivity.
  - split; [left; reflexivity|].
    intros t' [<-|[<-|[]]]; reflexivity.
Defined.

Example isolated_corrections :
  exists cb,
    parseCorrections
      (str "Required Corrections:" ++
       (NL :: str "Water" ++ NL :: str "Reviewer: Bob" ++ NL :: str "1. Fix pipe" ++ [NL]) ++
       str "Approval Table:") = Ok [cb] /\
    CorrectionBlock.department cb = str "Water" /\
    List.map CorrectionItem.text (CorrectionBlock.items cb) = [str "Fix pipe"].
Proof. eexists. split; [vm_compute; reflexivity|]. split; reflexivity. Qed.
